(** * Agent-Quickstart: validation, wizard gating, pagination and workflow

    A shallow embedding of the browser script of the GitHub Copilot Agent
    Quickstart wizard.  JavaScript strings are sequences of UTF-16 code
    units, values that may or may not be strings are [JsValue]s, regular
    expression literals are terms of a small regular-expression type run by
    a derivative matcher, and asynchronous functions are computations in a
    state-and-exception monad over a [World] that holds the session, the
    response cache and the chronological list of observable events. *)

From Stdlib Require Import List NArith ZArith Bool Lia String Ascii Arith.
From Stdlib Require Import DecimalString DecimalNat.
Import ListNotations.

Set Implicit Arguments.

(* ================================================================== *)
(** ** JavaScript strings *)
(* ================================================================== *)

Module JsString.

Definition CodeUnit := N.
Definition jsstring := list CodeUnit.

(** A source-code string literal (ASCII) as a sequence of code units. *)
Definition lit (s : string) : jsstring :=
  map N_of_ascii (list_ascii_of_string s).

Fixpoint eqb (a b : jsstring) : bool :=
  match a, b with
  | [], [] => true
  | x :: a', y :: b' => N.eqb x y && eqb a' b'
  | _, _ => false
  end.

(** [WhiteSpace] and [LineTerminator] code points of ECMAScript, the ones
    [String.prototype.trim] strips. *)
Definition isWhiteSpace (c : CodeUnit) : bool :=
  existsb (N.eqb c)
    [9; 10; 11; 12; 13; 32; 160; 5760; 8232; 8233; 8239; 8287; 12288; 65279]%N
  || (N.leb 8192 c && N.leb c 8202).

Fixpoint dropWhile (p : CodeUnit -> bool) (s : jsstring) : jsstring :=
  match s with
  | [] => []
  | c :: s' => if p c then dropWhile p s' else s
  end.

Definition trimStart (s : jsstring) : jsstring := dropWhile isWhiteSpace s.
Definition trimEnd (s : jsstring) : jsstring :=
  rev (dropWhile isWhiteSpace (rev s)).

(** [s.trim()] *)
Definition trim (s : jsstring) : jsstring := trimEnd (trimStart s).

Fixpoint startsWith (s p : jsstring) : bool :=
  match p, s with
  | [], _ => true
  | x :: p', y :: s' => N.eqb x y && startsWith s' p'
  | _ :: _, [] => false
  end.

(** [s.includes(p)] *)
Fixpoint includes (s p : jsstring) : bool :=
  startsWith s p ||
  match s with
  | [] => false
  | _ :: s' => includes s' p
  end.

(** [toLowerCase] on the ASCII letters; the concrete runs below use it
    where the code calls [toLowerCase]. *)
Definition asciiToLowerCase (s : jsstring) : jsstring :=
  map (fun c => if N.leb 65 c && N.leb c 90 then (c + 32)%N else c) s.

(** Decimal rendering of a number inside a template literal. *)
Definition ofNat (n : nat) : jsstring :=
  lit (NilEmpty.string_of_uint (Nat.to_uint n)).

End JsString.
Import JsString.

(** Values of the language, as far as the code inspects them: [typeof] and
    truthiness. *)
Inductive JsValue :=
| JsUndefined
| JsNull
| JsBool (b : bool)
| JsNumber (z : Z)
| JsStr (s : jsstring)
| JsObject.

Definition isString (v : JsValue) : bool :=
  match v with JsStr _ => true | _ => false end.

Definition truthy (v : JsValue) : bool :=
  match v with
  | JsUndefined | JsNull => false
  | JsBool b => b
  | JsNumber z => negb (Z.eqb z 0)
  | JsStr s => match s with [] => false | _ => true end
  | JsObject => true
  end.

(** [a && b] evaluates to [a] when [a] is falsy and to [b] otherwise. *)
Definition jsAnd (a b : JsValue) : JsValue := if truthy a then b else a.

(* ================================================================== *)
(** ** Regular expression literals *)
(* ================================================================== *)

Module Regex.

Inductive ClassItem :=
| CRange (lo hi : CodeUnit)
| CChar (c : CodeUnit).

Definition inItem (c : CodeUnit) (it : ClassItem) : bool :=
  match it with
  | CRange lo hi => N.leb lo c && N.leb c hi
  | CChar d => N.eqb c d
  end.

Definition inClass (cls : list ClassItem) (c : CodeUnit) : bool :=
  existsb (inItem c) cls.

Inductive regex :=
| RVoid
| REps
| RClass (cls : list ClassItem)
| RSeq (r1 r2 : regex)
| RAlt (r1 r2 : regex)
| RStar (r : regex).

(** [r?] and [r{n,}] *)
Definition ROpt (r : regex) : regex := RAlt r REps.

Fixpoint RPower (n : nat) (r : regex) : regex :=
  match n with
  | O => REps
  | S k => RSeq r (RPower k r)
  end.

Definition RAtLeast (n : nat) (r : regex) : regex :=
  RSeq (RPower n r) (RStar r).

Fixpoint nullable (r : regex) : bool :=
  match r with
  | RVoid => false
  | REps => true
  | RClass _ => false
  | RSeq a b => nullable a && nullable b
  | RAlt a b => nullable a || nullable b
  | RStar _ => true
  end.

Fixpoint deriv (c : CodeUnit) (r : regex) : regex :=
  match r with
  | RVoid => RVoid
  | REps => RVoid
  | RClass cls => if inClass cls c then REps else RVoid
  | RSeq a b =>
      if nullable a then RAlt (RSeq (deriv c a) b) (deriv c b)
      else RSeq (deriv c a) b
  | RAlt a b => RAlt (deriv c a) (deriv c b)
  | RStar a => RSeq (deriv c a) (RStar a)
  end.

(** [/^r$/.test(s)]: the whole of [s] is a word of [r]. *)
Fixpoint test (r : regex) (s : jsstring) : bool :=
  match s with
  | [] => nullable r
  | c :: s' => test (deriv c r) s'
  end.

(** The words of a regular expression. *)
Inductive Lang : regex -> jsstring -> Prop :=
| LEps : Lang REps []
| LClass cls c : inClass cls c = true -> Lang (RClass cls) [c]
| LSeq a b s1 s2 : Lang a s1 -> Lang b s2 -> Lang (RSeq a b) (s1 ++ s2)
| LAltL a b s : Lang a s -> Lang (RAlt a b) s
| LAltR a b s : Lang b s -> Lang (RAlt a b) s
| LStarNil a : Lang (RStar a) []
| LStarApp a s1 s2 :
    Lang a s1 -> Lang (RStar a) s2 -> Lang (RStar a) (s1 ++ s2).

End Regex.
Import Regex.

(* ================================================================== *)
(** ** ValidationUtils *)
(* ================================================================== *)

Module ValidationUtils.

(** The class of the five stripped characters: less-than (60),
    greater-than (62), apostrophe (39), double quote (34), ampersand (38). *)
Definition strippedClass : list ClassItem :=
  [CChar 60; CChar 62; CChar 39; CChar 34; CChar 38]%N.

(** A global [replace] of a one-character class by the empty string deletes
    every code unit of the class. *)
Definition replaceAllClass (cls : list ClassItem) (s : jsstring) : jsstring :=
  filter (fun c => negb (inClass cls c)) s.

Definition sanitizeString (input : JsValue) : jsstring :=
  match input with
  | JsStr s => replaceAllClass strippedClass s
  | _ => []
  end.

Definition alnum : list ClassItem :=
  [CRange 97 122; CRange 65 90; CRange 48 57]%N.
Definition alnumHyphen : list ClassItem :=
  [CRange 97 122; CRange 65 90; CRange 48 57; CChar 45]%N.
Definition wordChar : list ClassItem :=
  [CRange 97 122; CRange 65 90; CRange 48 57; CChar 95]%N.

(** [/^[a-zA-Z0-9][a-zA-Z0-9-]*[a-zA-Z0-9]$|^[a-zA-Z0-9]$/]; both
    alternatives are anchored at both ends. *)
Definition orgNamePattern : regex :=
  RAlt (RSeq (RClass alnum) (RSeq (RStar (RClass alnumHyphen)) (RClass alnum)))
       (RClass alnum).

(** [/^[a-zA-Z0-9_]{20,}$/] *)
Definition tokenPattern : regex := RAtLeast 20 (RClass wordChar).

Definition isValidOrgName (orgName : JsValue) : bool :=
  match orgName with
  | JsStr s =>
      if negb (truthy orgName) then false
      else
        let sanitized := sanitizeString (JsStr (trim s)) in
        test orgNamePattern sanitized
  | _ => false
  end.

Definition isValidToken (token : JsValue) : bool :=
  match token with
  | JsStr s =>
      if negb (truthy token) then false
      else
        let sanitized := trim s in
        test tokenPattern sanitized
  | _ => false
  end.

(** The organization-name shape in the words of the specification:
    [^[A-Za-z0-9]([A-Za-z0-9-]*[A-Za-z0-9])?$]. *)
Definition specOrgNameShape : regex :=
  RSeq (RClass [CRange 65 90; CRange 97 122; CRange 48 57]%N)
       (ROpt (RSeq (RStar (RClass [CRange 65 90; CRange 97 122; CRange 48 57; CChar 45]%N))
                   (RClass [CRange 65 90; CRange 97 122; CRange 48 57]%N))).

(** The validity test as the specification words it: the value is
    sanitized, then trimmed, then matched against the shape. *)
Definition specIsValidOrgName (n : jsstring) : bool :=
  test specOrgNameShape (trim (sanitizeString (JsStr n))).

End ValidationUtils.
Import ValidationUtils.

(* ================================================================== *)
(** ** Data model *)
(* ================================================================== *)

Record Repo := {
  repo_name : jsstring;
  repo_description : option jsstring
}.

Record Property := {
  property_name : jsstring;
  value_type : jsstring;
  property_description : option jsstring
}.

Record SelectedProperty := {
  sp_propertyName : jsstring;
  sp_value : jsstring
}.

Record Issue := {
  issue_number : Z;
  issue_id : Z;
  issue_html_url : jsstring;
  issue_node_id : jsstring
}.

Record IssueData := {
  issue_title : jsstring;
  issue_body : jsstring;
  issue_labels : list jsstring
}.

(** A node of [suggestedActors]: the fields are present only on bots. *)
Record Actor := {
  actor_id : jsstring;
  actor_login : option jsstring
}.

Record ActorsPage := {
  nodes : list Actor;
  pageInfo_hasNextPage : bool;
  pageInfo_endCursor : option jsstring
}.

Record Pagination (A : Type) := {
  currentPage : nat;
  itemsPerPage : nat;
  totalPages : nat;
  filteredItems : list A;
  searchTerm : jsstring
}.

Module APP_CONFIG.
Definition RATE_LIMIT_DELAY : Z := 1000.
Definition REQUEST_TIMEOUT : Z := 30000.
Definition DEFAULT_PAGE_SIZE : nat := 50.
(** 5000 *)
Definition MAX_ITEMS : nat := 50 * 100.
End APP_CONFIG.

Record AppState := {
  currentStep : nat;
  selectedUseCase : option jsstring;
  orgName : jsstring;
  authToken : jsstring;
  selectionMethod : jsstring;
  selectedRepos : list jsstring;
  selectedProperties : list SelectedProperty;
  allRepos : list Repo;
  allProperties : list Property;
  promptContent : jsstring;
  reposPagination : Pagination Repo;
  propertiesPagination : Pagination Property
}.

(** [new AppState()] *)
Definition initialAppState : AppState := {|
  currentStep := 1;
  selectedUseCase := None;
  orgName := [];
  authToken := [];
  selectionMethod := lit "all";
  selectedRepos := [];
  selectedProperties := [];
  allRepos := [];
  allProperties := [];
  promptContent := [];
  reposPagination := {| currentPage := 1;
                        itemsPerPage := APP_CONFIG.DEFAULT_PAGE_SIZE;
                        totalPages := 1;
                        filteredItems := [];
                        searchTerm := [] |};
  propertiesPagination := {| currentPage := 1;
                             itemsPerPage := APP_CONFIG.DEFAULT_PAGE_SIZE;
                             totalPages := 1;
                             filteredItems := [];
                             searchTerm := [] |}
|}.

Definition set_credentials (o t : jsstring) (s : AppState) : AppState :=
  {| currentStep := currentStep s; selectedUseCase := selectedUseCase s;
     orgName := o; authToken := t;
     selectionMethod := selectionMethod s; selectedRepos := selectedRepos s;
     selectedProperties := selectedProperties s; allRepos := allRepos s;
     allProperties := allProperties s; promptContent := promptContent s;
     reposPagination := reposPagination s;
     propertiesPagination := propertiesPagination s |}.

Definition set_promptContent (p : jsstring) (s : AppState) : AppState :=
  {| currentStep := currentStep s; selectedUseCase := selectedUseCase s;
     orgName := orgName s; authToken := authToken s;
     selectionMethod := selectionMethod s; selectedRepos := selectedRepos s;
     selectedProperties := selectedProperties s; allRepos := allRepos s;
     allProperties := allProperties s; promptContent := p;
     reposPagination := reposPagination s;
     propertiesPagination := propertiesPagination s |}.

Definition set_allRepos (l : list Repo) (s : AppState) : AppState :=
  {| currentStep := currentStep s; selectedUseCase := selectedUseCase s;
     orgName := orgName s; authToken := authToken s;
     selectionMethod := selectionMethod s; selectedRepos := selectedRepos s;
     selectedProperties := selectedProperties s; allRepos := l;
     allProperties := allProperties s; promptContent := promptContent s;
     reposPagination := reposPagination s;
     propertiesPagination := propertiesPagination s |}.

Definition set_allProperties (l : list Property) (s : AppState) : AppState :=
  {| currentStep := currentStep s; selectedUseCase := selectedUseCase s;
     orgName := orgName s; authToken := authToken s;
     selectionMethod := selectionMethod s; selectedRepos := selectedRepos s;
     selectedProperties := selectedProperties s; allRepos := allRepos s;
     allProperties := l; promptContent := promptContent s;
     reposPagination := reposPagination s;
     propertiesPagination := propertiesPagination s |}.

Definition set_reposPagination (p : Pagination Repo) (s : AppState) : AppState :=
  {| currentStep := currentStep s; selectedUseCase := selectedUseCase s;
     orgName := orgName s; authToken := authToken s;
     selectionMethod := selectionMethod s; selectedRepos := selectedRepos s;
     selectedProperties := selectedProperties s; allRepos := allRepos s;
     allProperties := allProperties s; promptContent := promptContent s;
     reposPagination := p;
     propertiesPagination := propertiesPagination s |}.

Definition set_propertiesPagination (p : Pagination Property) (s : AppState)
  : AppState :=
  {| currentStep := currentStep s; selectedUseCase := selectedUseCase s;
     orgName := orgName s; authToken := authToken s;
     selectionMethod := selectionMethod s; selectedRepos := selectedRepos s;
     selectedProperties := selectedProperties s; allRepos := allRepos s;
     allProperties := allProperties s; promptContent := promptContent s;
     reposPagination := reposPagination s;
     propertiesPagination := p |}.

(** Field updates of a pagination view. *)
Definition set_searchTerm {A} (t : jsstring) (p : Pagination A) : Pagination A :=
  {| currentPage := currentPage p; itemsPerPage := itemsPerPage p;
     totalPages := totalPages p; filteredItems := filteredItems p;
     searchTerm := t |}.

Definition set_filteredItems {A} (l : list A) (p : Pagination A) : Pagination A :=
  {| currentPage := currentPage p; itemsPerPage := itemsPerPage p;
     totalPages := totalPages p; filteredItems := l;
     searchTerm := searchTerm p |}.

Definition set_currentPage {A} (n : nat) (p : Pagination A) : Pagination A :=
  {| currentPage := n; itemsPerPage := itemsPerPage p;
     totalPages := totalPages p; filteredItems := filteredItems p;
     searchTerm := searchTerm p |}.

Definition set_totalPages {A} (n : nat) (p : Pagination A) : Pagination A :=
  {| currentPage := currentPage p; itemsPerPage := itemsPerPage p;
     totalPages := n; filteredItems := filteredItems p;
     searchTerm := searchTerm p |}.

(** [Math.ceil(n / d)] on a list length [n] and a positive page size [d].
    For [d = 0] the quotient is not a page count ([Infinity] or [NaN]);
    the statements below assume a positive page size. *)
Definition ceilDiv (n d : nat) : nat := (n + d - 1) / d.

(* ================================================================== *)
(** ** Errors, requests and observable events *)
(* ================================================================== *)

(** The GitHub calls the script issues.  REST calls are named by their
    endpoint template and its holes, GraphQL calls by their document and
    variables. *)
Inductive Request :=
| ReqOrgReposPage (org : jsstring) (per_page page : nat)
| ReqOrgRepos (org : jsstring) (per_page : nat)
| ReqPropertiesSchema (org : jsstring)
| ReqSearchRepositories (term org : jsstring) (per_page : nat)
| ReqCreateIssue (org repo : jsstring) (data : IssueData)
| ReqGetIssue (org repo : jsstring) (number : Z)
| ReqSuggestedActors (owner name : jsstring) (first : nat)
                     (after : option jsstring)
| ReqReplaceActors (assignableId : jsstring) (actorIds : list jsstring)
| ReqGraphQL (query variables : jsstring).

(** [class APIError extends Error] and the other exceptions, which carry a
    name and a message. *)
Inductive JsError :=
| APIError (message : jsstring) (status : nat) (url : option Request)
| OtherError (name message : jsstring).

Definition errorMessage (e : JsError) : jsstring :=
  match e with
  | APIError m _ _ => m
  | OtherError _ m => m
  end.

Definition errorName (e : JsError) : jsstring :=
  match e with
  | APIError _ _ _ => lit "APIError"
  | OtherError n _ => n
  end.

Definition Error (message : jsstring) : JsError :=
  OtherError (lit "Error") message.

Inductive LogLevel := ERROR | WARN | INFO.

Inductive LogValue :=
| LNum (n : nat)
| LStr (s : jsstring)
| LStrs (l : list jsstring).

Inductive Event :=
| EvFetch (r : Request) (ok : bool)
| EvLog (level : LogLevel) (message : jsstring) (error : option JsError)
        (context : list (string * LogValue))
| EvAlert (message : jsstring)
| EvShowSuccess
| EvDelay (ms : Z).

(** What a call to [fetch] can come back with.  [EvFetch r ok] records
    that [r] was sent and whether an ok response came back. *)
Inductive FetchOutcome (T : Type) :=
| HttpOk (body : T)
| HttpFail (status : nat) (statusText : jsstring)
| Aborted
| NetworkDown (message : jsstring).
Arguments HttpOk {T} body.
Arguments HttpFail {T} status statusText.
Arguments Aborted {T}.
Arguments NetworkDown {T} message.

Definition isOk {T} (o : FetchOutcome T) : bool :=
  match o with HttpOk _ => true | _ => false end.

(** The body of a GraphQL response: an [errors] array (the messages of its
    entries and its JSON text) or the data. *)
Inductive GraphQLBody (D : Type) :=
| GqlErrors (messages : list jsstring) (json : jsstring)
| GqlData (data : D).
Arguments GqlErrors {D} messages json.
Arguments GqlData {D} data.

(** The outside world: the clock and GitHub.  Every answer may depend on
    everything that happened before it. *)
Record Env := {
  now : list Event -> Z;
  serveRepos : list Event -> Request -> FetchOutcome (list Repo);
  serveSearch : list Event -> Request -> FetchOutcome (option (list Repo));
  serveProperties : list Event -> Request -> FetchOutcome (list Property);
  serveIssue : list Event -> Request -> FetchOutcome Issue;
  serveActors : list Event -> Request -> FetchOutcome (GraphQLBody ActorsPage);
  serveMutation : list Event -> Request -> FetchOutcome (GraphQLBody unit);
  serveGraphQL : list Event -> Request -> FetchOutcome (GraphQLBody JsValue)
}.

Record CacheEntry := {
  cache_data : list Repo;
  cache_timestamp : Z
}.

Record World := {
  appState : AppState;
  cache : list (jsstring * CacheEntry);
  events : list Event
}.

Definition emit (e : Event) (w : World) : World :=
  {| appState := appState w; cache := cache w; events := events w ++ [e] |}.

Definition withAppState (f : AppState -> AppState) (w : World) : World :=
  {| appState := f (appState w); cache := cache w; events := events w |}.

Definition withCache (c : list (jsstring * CacheEntry)) (w : World) : World :=
  {| appState := appState w; cache := c; events := events w |}.

(* ================================================================== *)
(** ** Computations *)
(* ================================================================== *)

(** A call returns, throws, or is cut off when a loop runs out of fuel. *)
Inductive Outcome (A : Type) :=
| Returned (a : A)
| Thrown (e : JsError)
| Unfinished.
Arguments Returned {A} a.
Arguments Thrown {A} e.
Arguments Unfinished {A}.

Definition M (A : Type) : Type := World -> Outcome A * World.

Definition ret {A} (a : A) : M A := fun w => (Returned a, w).

Definition bind {A B} (m : M A) (k : A -> M B) : M B :=
  fun w =>
    match m w with
    | (Returned a, w') => k a w'
    | (Thrown e, w') => (Thrown e, w')
    | (Unfinished, w') => (Unfinished, w')
    end.

Definition throw {A} (e : JsError) : M A := fun w => (Thrown e, w).

(** [try { m } catch (error) { h error }] *)
Definition tryCatch {A} (m : M A) (h : JsError -> M A) : M A :=
  fun w =>
    match m w with
    | (Thrown e, w') => h e w'
    | r => r
    end.

Definition getState : M AppState := fun w => (Returned (appState w), w).
Definition modifyState (f : AppState -> AppState) : M unit :=
  fun w => (Returned tt, withAppState f w).
Definition tell (e : Event) : M unit := fun w => (Returned tt, emit e w).
Definition outOfFuel {A} : M A := fun w => (Unfinished, w).

Declare Scope js_scope.
Delimit Scope js_scope with js.
Notation "x <- m ;; k" := (bind m (fun x => k))
  (at level 61, m at next level, right associativity) : js_scope.
Notation "m ;; k" := (bind m (fun _ => k))
  (at level 61, right associativity) : js_scope.
Open Scope js_scope.

Module Logger.
Definition error (message : jsstring) (err : option JsError)
           (context : list (string * LogValue)) : M unit :=
  tell (EvLog ERROR message err context).
Definition warn (message : jsstring) (context : list (string * LogValue))
  : M unit :=
  tell (EvLog WARN message None context).
Definition info (message : jsstring) (context : list (string * LogValue))
  : M unit :=
  tell (EvLog INFO message None context).
End Logger.

Definition alert (message : jsstring) : M unit := tell (EvAlert message).
Definition showSuccess : M unit := tell EvShowSuccess.
(** [await new Promise(resolve => setTimeout(resolve, ms))] *)
Definition delay (ms : Z) : M unit := tell (EvDelay ms).

(* ================================================================== *)
(** ** APIUtils *)
(* ================================================================== *)

Module APIUtils.

Section WithEnv.
Variable env : Env.

(** [secureFetch] followed by [response.json()]: the request is sent, a
    response that is not ok, a timeout and a network failure become
    [APIError]s with the HTTP status, 408 and 0. *)
Definition secureFetch {T} (serve : list Event -> Request -> FetchOutcome T)
           (req : Request) : M T :=
  fun w =>
    let answer := serve (events w) req in
    let w' := emit (EvFetch req (isOk answer)) w in
    match answer with
    | HttpOk body => (Returned body, w')
    | HttpFail status statusText =>
        (Thrown (APIError (lit "HTTP " ++ ofNat status ++ lit ": " ++ statusText)
                          status (Some req)), w')
    | Aborted => (Thrown (APIError (lit "Request timeout") 408 (Some req)), w')
    | NetworkDown message => (Thrown (APIError message 0 (Some req)), w')
    end.

Definition githubAPI {T} (serve : list Event -> Request -> FetchOutcome T)
           (endpoint : Request) : M T :=
  st <- getState ;;
  if negb (truthy (JsStr (authToken st))) then
    throw (APIError (lit "Authentication token required") 401 None)
  else
    secureFetch serve endpoint.

Fixpoint join (sep : jsstring) (l : list jsstring) : jsstring :=
  match l with
  | [] => []
  | [x] => x
  | x :: l' => x ++ sep ++ join sep l'
  end.

Definition githubGraphQL (query variables : jsstring) : M JsValue :=
  st <- getState ;;
  if negb (truthy (JsStr (authToken st))) then
    throw (APIError (lit "Authentication token required") 401 None)
  else
    data <- secureFetch (serveGraphQL env) (ReqGraphQL query variables) ;;
    match data with
    | GqlErrors messages _ =>
        throw (APIError (lit "GraphQL Error: " ++ join (lit ", ") messages)
                        400 None)
    | GqlData d => ret d
    end.

(** The plain [fetch] of the bot-assignment functions: the caller looks at
    [response.ok] itself; a rejected promise is an exception. *)
Definition fetch {T} (serve : list Event -> Request -> FetchOutcome T)
           (req : Request) : M (T + nat) :=
  fun w =>
    let answer := serve (events w) req in
    let w' := emit (EvFetch req (isOk answer)) w in
    match answer with
    | HttpOk body => (Returned (inl body), w')
    | HttpFail status _ => (Returned (inr status), w')
    | Aborted => (Thrown (OtherError (lit "AbortError") (lit "The operation was aborted")), w')
    | NetworkDown message => (Thrown (OtherError (lit "TypeError") message), w')
    end.

End WithEnv.
End APIUtils.

(* ================================================================== *)
(** ** Wizard state machine *)
(* ================================================================== *)

Definition useCaseValue (s : AppState) : JsValue :=
  match selectedUseCase s with
  | None => JsNull
  | Some u => JsStr u
  end.

Definition canNavigateToStep (s : AppState) (targetStep : nat) : JsValue :=
  if targetStep =? 1 then JsBool true
  else if targetStep =? 2 then
    JsBool (match selectedUseCase s with None => false | Some _ => true end)
  else if targetStep =? 3 then
    jsAnd (jsAnd (useCaseValue s) (JsStr (orgName s))) (JsStr (authToken s))
  else if targetStep =? 4 then
    let hasValidSelection :=
      JsString.eqb (selectionMethod s) (lit "all")
      || (JsString.eqb (selectionMethod s) (lit "selected")
          && (0 <? List.length (selectedRepos s)))
      || (JsString.eqb (selectionMethod s) (lit "properties")
          && (0 <? List.length (selectedProperties s))) in
    jsAnd (jsAnd (jsAnd (useCaseValue s) (JsStr (orgName s)))
                 (JsStr (authToken s)))
          (JsBool hasValidSelection)
  else JsBool false.

(** [validateInputs], with the values of the two input fields as
    arguments; the feedback it paints on the form is not modelled. *)
Definition validateInputs (orgNameInput authTokenInput : jsstring)
           (s : AppState) : AppState :=
  let orgNameRaw := trim orgNameInput in
  let authTokenRaw := trim authTokenInput in
  let orgName := sanitizeString (JsStr orgNameRaw) in
  let authToken := authTokenRaw in
  let isValidOrg := isValidOrgName (JsStr orgName) in
  let isValidToken := isValidToken (JsStr authToken) in
  set_credentials (if isValidOrg then orgName else [])
                  (if isValidToken then authToken else []) s.

(* ================================================================== *)
(** ** Pagination and search engine *)
(* ================================================================== *)

(** How one turn of a loop body ends. *)
Inductive LoopStep (S : Type) :=
| Break (s : S)
| Continue (s : S).
Arguments Break {S} s.
Arguments Continue {S} s.

Definition getCache : M (list (jsstring * CacheEntry)) :=
  fun w => (Returned (cache w), w).
Definition putCache (c : list (jsstring * CacheEntry)) : M unit :=
  fun w => (Returned tt, withCache c w).

Fixpoint cacheGet (key : jsstring) (c : list (jsstring * CacheEntry))
  : option CacheEntry :=
  match c with
  | [] => None
  | (k, v) :: c' => if JsString.eqb k key then Some v else cacheGet key c'
  end.

Definition cacheSet (key : jsstring) (v : CacheEntry)
           (c : list (jsstring * CacheEntry)) : list (jsstring * CacheEntry) :=
  (key, v) :: filter (fun kv => negb (JsString.eqb (fst kv) key)) c.

(** [getMockCustomProperties] *)
Definition getMockCustomProperties : list Property :=
  [ {| property_name := lit "environment"; value_type := lit "single_select";
       property_description :=
         Some (lit "Deployment environment (dev, staging, prod)") |};
    {| property_name := lit "team"; value_type := lit "string";
       property_description := Some (lit "Owning team or department") |};
    {| property_name := lit "priority"; value_type := lit "single_select";
       property_description := Some (lit "Project priority level") |};
    {| property_name := lit "framework"; value_type := lit "string";
       property_description :=
         Some (lit "Primary technology framework used") |};
    {| property_name := lit "status"; value_type := lit "single_select";
       property_description := Some (lit "Current project status") |} ].

(** [text && text.toLowerCase().includes(term)] on a field that is [null]
    or a string. *)
Definition optionalIncludes (lower : jsstring -> jsstring)
           (text : option jsstring) (term : jsstring) : bool :=
  match text with
  | None => false
  | Some d => truthy (JsStr d) && includes (lower d) term
  end.

(** The merge of [filterRepos]: a remote match is appended unless a match
    of the same name is already there. *)
Definition mergeMatches (localMatches apiMatches : list Repo) : list Repo :=
  fold_left
    (fun allMatches repo =>
       if existsb (fun existing =>
                     JsString.eqb (repo_name existing) (repo_name repo))
                  allMatches
       then allMatches
       else allMatches ++ [repo])
    apiMatches localMatches.

Section Engine.
Variable env : Env.
Variable toLowerCase : jsstring -> jsstring.

Definition dateNow : M Z := fun w => (Returned (now env (events w)), w).

(** GitHub's maximum page size, the [perPage] of [loadAllRepositories]. *)
Definition perPage : nat := 100.

(** The [while] loop of [loadAllRepositories], started with the
    repositories accumulated so far and the next page number. *)
Fixpoint loadAllRepositories_loop (fuel : nat) (allRepos : list Repo)
         (page : nat) : M (list Repo) :=
  if negb (List.length allRepos <? APP_CONFIG.MAX_ITEMS) then ret allRepos
  else
    match fuel with
    | O => outOfFuel
    | S fuel' =>
        step <- tryCatch
          (st <- getState ;;
           repos <- APIUtils.githubAPI (serveRepos env)
                      (ReqOrgReposPage (orgName st) perPage page) ;;
           if List.length repos =? 0 then ret (Break (allRepos, page))
           else
             let allRepos' := allRepos ++ repos in
             let page' := page + 1 in
             if List.length repos <? perPage then
               ret (Break (allRepos', page'))
             else
               (if List.length allRepos' <? APP_CONFIG.MAX_ITEMS
                then delay (APP_CONFIG.RATE_LIMIT_DELAY / 2)
                else ret tt) ;;
               ret (Continue (allRepos', page')))
          (fun error =>
             Logger.warn (lit "Failed to load repository page")
               [("page"%string, LNum page);
                ("error"%string, LStr (errorMessage error))] ;;
             ret (Break (allRepos, page))) ;;
        match step with
        | Break (allRepos', _) => ret allRepos'
        | Continue (allRepos', page') =>
            loadAllRepositories_loop fuel' allRepos' page'
        end
    end.

(** Every turn that does not leave the loop adds a full page, so the loop
    takes at most [MAX_ITEMS] turns. *)
Definition loadAllRepositories : M (list Repo) :=
  loadAllRepositories_loop (S APP_CONFIG.MAX_ITEMS) [] 1.

Definition storeRepositories (allRepos : list Repo) (s : AppState) : AppState :=
  let catalog := firstn APP_CONFIG.MAX_ITEMS allRepos in
  let s1 := set_allRepos catalog s in
  let p1 := set_filteredItems catalog (reposPagination s1) in
  let p2 := set_currentPage 1 p1 in
  let p3 := set_totalPages
              (ceilDiv (List.length catalog) (itemsPerPage p2)) p2 in
  set_reposPagination p3 s1.

Definition loadRepositories : M unit :=
  tryCatch
    (st <- getState ;;
     Logger.info (lit "Starting repository loading")
       [("org"%string, LStr (orgName st))] ;;
     loaded <- loadAllRepositories ;;
     modifyState (storeRepositories loaded) ;;
     st' <- getState ;;
     Logger.info (lit "Repository loading completed")
       [("count"%string, LNum (List.length (allRepos st')));
        ("org"%string, LStr (orgName st'))])
    (fun error =>
       st <- getState ;;
       Logger.error (lit "Error loading repositories") (Some error)
         [("org"%string, LStr (orgName st))] ;;
       alert (lit "Error loading repositories: " ++ errorMessage error)).

Definition storeProperties (s : AppState) : AppState :=
  let p1 := set_filteredItems (allProperties s) (propertiesPagination s) in
  let p2 := set_currentPage 1 p1 in
  let p3 := set_totalPages
              (ceilDiv (List.length (allProperties s)) (itemsPerPage p2)) p2 in
  set_propertiesPagination p3 s.

Definition loadCustomProperties : M unit :=
  tryCatch
    (st <- getState ;;
     Logger.info (lit "Loading custom properties")
       [("org"%string, LStr (orgName st))] ;;
     tryCatch
       (properties <- APIUtils.githubAPI (serveProperties env)
                        (ReqPropertiesSchema (orgName st)) ;;
        modifyState (set_allProperties
                       (firstn APP_CONFIG.MAX_ITEMS properties)) ;;
        st' <- getState ;;
        Logger.info (lit "Custom properties loaded successfully")
          [("count"%string, LNum (List.length (allProperties st')));
           ("org"%string, LStr (orgName st'))])
       (fun error =>
          Logger.warn (lit "Failed to load custom properties, using mock data")
            [("error"%string, LStr (errorMessage error));
             ("org"%string, LStr (orgName st))] ;;
          modifyState (set_allProperties getMockCustomProperties)) ;;
     modifyState storeProperties)
    (fun error =>
       st <- getState ;;
       Logger.error (lit "Error in loadCustomProperties") (Some error)
         [("org"%string, LStr (orgName st))] ;;
       alert (lit "Error loading custom properties: " ++ errorMessage error)).

(** [PerformanceUtils.getCached] *)
Definition getCached (key : jsstring) (fetchFn : M (list Repo)) (ttl : Z)
  : M (list Repo) :=
  c <- getCache ;;
  hit <- match cacheGet key c with
         | None => ret None
         | Some cached =>
             t <- dateNow ;;
             ret (if (t - cache_timestamp cached <? ttl)%Z
                  then Some cached else None)
         end ;;
  match hit with
  | Some cached =>
      Logger.info (lit "Using cached data") [("key"%string, LStr key)] ;;
      ret (cache_data cached)
  | None =>
      data <- fetchFn ;;
      t <- dateNow ;;
      c' <- getCache ;;
      putCache (cacheSet key {| cache_data := data; cache_timestamp := t |} c') ;;
      Logger.info (lit "Cached new data") [("key"%string, LStr key)] ;;
      ret data
  end.

Definition searchRepositoriesAPI (searchTerm : jsstring) : M (list Repo) :=
  tryCatch
    (st <- getState ;;
     data <- APIUtils.githubAPI (serveSearch env)
               (ReqSearchRepositories searchTerm (orgName st) 50) ;;
     ret (match data with Some items => items | None => [] end))
    (fun error =>
       Logger.error (lit "Repository search API failed") (Some error)
         [("searchTerm"%string, LStr searchTerm)] ;;
       throw error).

Definition setFilteredRepos (l : list Repo) : M unit :=
  modifyState (fun s =>
    set_reposPagination (set_filteredItems l (reposPagination s)) s).

Definition localRepoMatches (searchTerm : jsstring) (s : AppState)
  : list Repo :=
  filter (fun repo =>
            includes (toLowerCase (repo_name repo)) searchTerm
            || optionalIncludes toLowerCase (repo_description repo) searchTerm)
         (allRepos s).

Definition resetReposPage (s : AppState) : AppState :=
  let p1 := set_currentPage 1 (reposPagination s) in
  let p2 := set_totalPages
              (ceilDiv (List.length (filteredItems p1)) (itemsPerPage p1)) p1 in
  set_reposPagination p2 s.

(** [filterRepos], with the value of the search field as argument. *)
Definition filterRepos (searchInput : jsstring) : M unit :=
  let searchTerm := sanitizeString (JsStr (trim (toLowerCase searchInput))) in
  modifyState (fun s =>
    set_reposPagination (set_searchTerm searchTerm (reposPagination s)) s) ;;
  st <- getState ;;
  (if negb (truthy (JsStr searchTerm)) then
     setFilteredRepos (allRepos st)
   else
     let localMatches := localRepoMatches searchTerm st in
     if (List.length localMatches <? 10) && (2 <=? List.length searchTerm) then
       tryCatch
         (let cacheKey :=
            lit "search_" ++ orgName st ++ lit "_" ++ searchTerm in
          apiMatches <- getCached cacheKey (searchRepositoriesAPI searchTerm)
                          60000 ;;
          setFilteredRepos (mergeMatches localMatches apiMatches))
         (fun error =>
            Logger.warn (lit "API search failed, using local results only")
              [("error"%string, LStr (errorMessage error))] ;;
            setFilteredRepos localMatches)
     else
       setFilteredRepos localMatches) ;;
  modifyState resetReposPage.

(** [filterProperties], with the value of the search field as argument. *)
Definition filterProperties (searchInput : jsstring) (s : AppState)
  : AppState :=
  let searchTerm := sanitizeString (JsStr (trim (toLowerCase searchInput))) in
  let p0 := set_searchTerm searchTerm (propertiesPagination s) in
  let p1 :=
    if negb (truthy (JsStr searchTerm)) then
      set_filteredItems (allProperties s) p0
    else
      set_filteredItems
        (filter (fun property =>
                   includes (toLowerCase (property_name property)) searchTerm
                   || optionalIncludes toLowerCase
                        (property_description property) searchTerm)
                (allProperties s)) p0 in
  let p2 := set_currentPage 1 p1 in
  let p3 := set_totalPages
              (ceilDiv (List.length (filteredItems p2)) (itemsPerPage p2)) p2 in
  set_propertiesPagination p3 s.

End Engine.

(* ================================================================== *)
(** ** Workflow orchestrator and bot resolver *)
(* ================================================================== *)

(** One entry of the [results] array of [executeWorkflow]. *)
Record WorkflowResult := {
  res_repo : jsstring;
  res_success : bool;
  res_issue : option Issue;
  res_issueUrl : option jsstring;
  res_error : option jsstring;
  res_errorType : option jsstring
}.

(** [names[useCase] || useCase] inside a template literal. *)
Definition getUseCaseDisplayName (useCase : option jsstring) : jsstring :=
  match useCase with
  | None => lit "null"
  | Some u =>
      if JsString.eqb u (lit "tests") then lit "Tests Creation"
      else if JsString.eqb u (lit "documentation") then lit "Code Documentation"
      else if JsString.eqb u (lit "technical-debt") then lit "Technical Debt"
      else u
  end.

Definition copilotLogin : jsstring := lit "copilot-swe-agent".

Definition isCopilot (node : Actor) : bool :=
  match actor_login node with
  | Some l => JsString.eqb l copilotLogin
  | None => false
  end.

Definition permissionsMessage : jsstring :=
  lit "No issues were created successfully. Please check your permissions and try again.".

Section Workflow.
Variable env : Env.

(** The [while (hasNextPage)] loop of [findCopilotBot], entered with
    [hasNextPage] true and the cursor of the page to ask for. *)
Fixpoint findCopilotBot_loop (fuel : nat) (repoName : jsstring)
         (endCursor : option jsstring) : M (option Actor) :=
  match fuel with
  | O => outOfFuel
  | S fuel' =>
      st <- getState ;;
      response <- APIUtils.fetch (serveActors env)
                    (ReqSuggestedActors (orgName st) repoName 100 endCursor) ;;
      match response with
      | inr status =>
          throw (Error (lit "GraphQL query failed: " ++ ofNat status))
      | inl (GqlErrors _ json) =>
          throw (Error (lit "GraphQL errors: " ++ json))
      | inl (GqlData suggestedActors) =>
          match find isCopilot (nodes suggestedActors) with
          | Some node => ret (Some node)
          | None =>
              if pageInfo_hasNextPage suggestedActors then
                findCopilotBot_loop fuel' repoName
                  (pageInfo_endCursor suggestedActors)
              else ret None
          end
      end
  end.

Definition findCopilotBot (fuel : nat) (repoName : jsstring)
  : M (option Actor) :=
  findCopilotBot_loop fuel repoName None.

Definition assignCopilotUsingGraphQL (issueNodeId copilotId : jsstring)
  : M unit :=
  tell (EvLog INFO (lit "Assigning Copilot with variables") None []) ;;
  response <- APIUtils.fetch (serveMutation env)
                (ReqReplaceActors issueNodeId [copilotId]) ;;
  match response with
  | inr status =>
      throw (Error (lit "GraphQL mutation failed: " ++ ofNat status))
  | inl (GqlErrors _ json) =>
      throw (Error (lit "GraphQL mutation errors: " ++ json))
  | inl (GqlData d) => ret d
  end.

Definition assignCopilotToIssue (fuel : nat) (repoName : jsstring)
           (issueNumber : Z) : M unit :=
  tryCatch
    (st <- getState ;;
     issueResponse <- APIUtils.fetch (serveIssue env)
                        (ReqGetIssue (orgName st) repoName issueNumber) ;;
     match issueResponse with
     | inr status =>
         throw (Error (lit "Failed to get issue details: " ++ ofNat status))
     | inl issue =>
         let issueNodeId := issue_node_id issue in
         copilotAssignee <- findCopilotBot fuel repoName ;;
         match copilotAssignee with
         | None =>
             tell (EvLog WARN
                     (lit "Copilot bot not found in suggested actors for "
                      ++ repoName) None [])
         | Some bot =>
             assignCopilotUsingGraphQL issueNodeId (actor_id bot)
         end
     end)
    (fun error =>
       tell (EvLog ERROR (lit "Error assigning Copilot to issue in " ++ repoName)
               (Some error) []) ;;
       throw error).

Definition createIssueAndAssignCopilot (fuel : nat) (repoName : jsstring)
  : M Issue :=
  tryCatch
    (st <- getState ;;
     (if negb (truthy (JsStr repoName))
         || negb (truthy (JsStr (sanitizeString (JsStr repoName))))
      then throw (APIError (lit "Invalid repository name") 400 None)
      else ret tt) ;;
     (if negb (truthy (JsStr (trim (promptContent st))))
      then throw (APIError (lit "Prompt content is required") 400 None)
      else ret tt) ;;
     Logger.info (lit "Creating issue") [("repo"%string, LStr repoName)] ;;
     let issueData :=
       {| issue_title := getUseCaseDisplayName (selectedUseCase st)
                         ++ lit " - Copilot Agent Task";
          issue_body := sanitizeString (JsStr (promptContent st));
          issue_labels :=
            [lit "copilot-agent";
             match selectedUseCase st with Some u => u | None => lit "null" end]
       |} in
     issue <- APIUtils.githubAPI (serveIssue env)
                (ReqCreateIssue (orgName st) repoName issueData) ;;
     Logger.info (lit "Issue created successfully")
       [("repo"%string, LStr repoName)] ;;
     tryCatch
       (assignCopilotToIssue fuel repoName (issue_number issue) ;;
        Logger.info (lit "Copilot assigned successfully")
          [("repo"%string, LStr repoName)])
       (fun error =>
          Logger.warn (lit "Failed to assign Copilot to issue")
            [("repo"%string, LStr repoName);
             ("error"%string, LStr (errorMessage error))]) ;;
     ret issue)
    (fun error =>
       st <- getState ;;
       Logger.error (lit "Failed to create issue and assign Copilot")
         (Some error)
         [("repo"%string, LStr repoName); ("org"%string, LStr (orgName st))] ;;
       throw error).

Definition getAllOrgRepos : M (list Repo) :=
  tryCatch
    (st <- getState ;;
     Logger.info (lit "Fetching organization repositories")
       [("org"%string, LStr (orgName st))] ;;
     repos <- APIUtils.githubAPI (serveRepos env)
                (ReqOrgRepos (orgName st) 100) ;;
     Logger.info (lit "Successfully fetched organization repositories")
       [("org"%string, LStr (orgName st));
        ("count"%string, LNum (List.length repos))] ;;
     ret repos)
    (fun error =>
       st <- getState ;;
       Logger.error (lit "Failed to fetch organization repositories")
         (Some error) [("org"%string, LStr (orgName st))] ;;
       throw (Error (lit "Failed to fetch organization repositories: "
                     ++ errorMessage error))).

(** [name => ({ name })] *)
Definition repoRef (name : jsstring) : Repo :=
  {| repo_name := name; repo_description := None |}.

Definition getReposWithCustomProperties : M (list Repo) :=
  st <- getState ;;
  ret (map repoRef (selectedRepos st)).

(** The precondition checks and the [switch] of [executeWorkflow], up to
    the check that there is something to process. *)
Definition resolveTargetRepos (promptInput : jsstring) : M (list Repo) :=
  st <- getState ;;
  (if negb (truthy (useCaseValue st))
   then throw (Error (lit "Please select a use case first.")) else ret tt) ;;
  (if negb (isValidOrgName (JsStr (orgName st)))
   then throw (Error (lit "Please provide a valid organization name."))
   else ret tt) ;;
  (if negb (isValidToken (JsStr (authToken st)))
   then throw (Error (lit "Please provide a valid authentication token."))
   else ret tt) ;;
  let promptContent := trim promptInput in
  (if negb (truthy (JsStr promptContent))
   then throw (Error (lit "Please provide prompt content.")) else ret tt) ;;
  modifyState (set_promptContent (sanitizeString (JsStr promptContent))) ;;
  targetRepos <-
    (if JsString.eqb (selectionMethod st) (lit "all") then getAllOrgRepos
     else if JsString.eqb (selectionMethod st) (lit "selected") then
       if List.length (selectedRepos st) =? 0 then
         throw (Error (lit "Please select at least one repository."))
       else ret (map repoRef (selectedRepos st))
     else if JsString.eqb (selectionMethod st) (lit "properties") then
       getReposWithCustomProperties
     else throw (Error (lit "Invalid repository selection method."))) ;;
  (if List.length targetRepos =? 0
   then throw (Error (lit "No repositories found to process."))
   else ret tt) ;;
  ret targetRepos.

(** The [for] loop of [executeWorkflow] over the targets still to do, with
    the results pushed so far. *)
Fixpoint processRepositories (fuel : nat) (targetRepos : list Repo)
         (results : list WorkflowResult) : M (list WorkflowResult) :=
  match targetRepos with
  | [] => ret results
  | repo :: rest =>
      result <- tryCatch
        (issueResult <- createIssueAndAssignCopilot fuel (repo_name repo) ;;
         ret {| res_repo := repo_name repo; res_success := true;
                res_issue := Some issueResult;
                res_issueUrl := Some (issue_html_url issueResult);
                res_error := None; res_errorType := None |})
        (fun error =>
           Logger.error (lit "Failed to process repository") (Some error)
             [("repo"%string, LStr (repo_name repo))] ;;
           ret {| res_repo := repo_name repo; res_success := false;
                  res_issue := None; res_issueUrl := None;
                  res_error := Some (errorMessage error);
                  res_errorType := Some (errorName error) |}) ;;
      (match rest with
       | [] => ret tt
       | _ :: _ => delay APP_CONFIG.RATE_LIMIT_DELAY
       end) ;;
      processRepositories fuel rest (results ++ [result])
  end.

Definition successCount (results : list WorkflowResult) : nat :=
  List.length (filter res_success results).

Definition failureCount (results : list WorkflowResult) : nat :=
  List.length results - successCount results.

(** The results reporting at the end of [executeWorkflow]. *)
Definition reportResults (results : list WorkflowResult) : M unit :=
  Logger.info (lit "Workflow execution completed")
    [("total"%string, LNum (List.length results));
     ("successful"%string, LNum (successCount results));
     ("failed"%string, LNum (failureCount results))] ;;
  if 0 <? successCount results then
    showSuccess ;;
    if 0 <? failureCount results then
      Logger.warn (lit "Some repositories failed to process")
        [("failedRepos"%string,
          LStrs (map res_repo
                   (filter (fun r => negb (res_success r)) results)))]
    else ret tt
  else
    Logger.error (lit "Workflow execution failed completely") None
      [("results"%string, LNum (List.length results))] ;;
    alert permissionsMessage.

Definition userMessage (error : JsError) : jsstring :=
  match error with
  | APIError message status _ =>
      if status =? 401 then
        lit "Authentication failed. Please check your token permissions."
      else if status =? 403 then
        lit "Access denied. Please ensure your token has the required permissions."
      else if status =? 404 then
        lit "Organization or repository not found. Please check the organization name."
      else if status =? 408 then lit "Request timeout. Please try again."
      else lit "API Error: " ++ message
  | OtherError _ message => message
  end.

(** [executeWorkflow], with the text of the prompt field as argument. *)
Definition executeWorkflow (fuel : nat) (promptInput : jsstring) : M unit :=
  tryCatch
    (st <- getState ;;
     Logger.info (lit "Starting workflow execution")
       [("selectionMethod"%string, LStr (selectionMethod st));
        ("org"%string, LStr (orgName st))] ;;
     targetRepos <- resolveTargetRepos promptInput ;;
     Logger.info (lit "Processing repositories")
       [("count"%string, LNum (List.length targetRepos))] ;;
     results <- processRepositories fuel targetRepos [] ;;
     reportResults results)
    (fun error =>
       Logger.error (lit "Workflow execution error") (Some error) [] ;;
       alert (lit "Workflow execution failed: " ++ userMessage error)).

End Workflow.

(* ================================================================== *)
(** ** Notions used in the statements *)
(* ================================================================== *)

(** The characters [sanitizeString] is to remove: less-than, greater-than,
    apostrophe, double quote and ampersand. *)
Definition strippedChars : list CodeUnit := [60; 62; 39; 34; 38]%N.

Definition hyphen : CodeUnit := 45%N.

(** An ASCII letter or digit. *)
Definition isAlnum (c : CodeUnit) : bool :=
  (N.leb 65 c && N.leb c 90) || (N.leb 97 c && N.leb c 122)
  || (N.leb 48 c && N.leb c 57).

(** The GitHub organization-name shape: not empty, letters, digits and
    hyphens only, no hyphen at either end. *)
Definition orgNameShape (s : jsstring) : Prop :=
  s <> [] /\
  Forall (fun c => isAlnum c = true \/ c = hyphen) s /\
  hd hyphen s <> hyphen /\
  last s hyphen <> hyphen.

(** [appState.selectedUseCase] holds a use case: it is neither [null] nor
    the empty string. *)
Definition useCaseSelected (s : AppState) : bool := truthy (useCaseValue s).

(** The data-model invariant of the credentials: each of the two fields is
    empty (not yet accepted) or holds a value that passes its validator. *)
Definition credentialsAccepted (s : AppState) : Prop :=
  (orgName s = [] \/ isValidOrgName (JsStr (orgName s)) = true) /\
  (authToken s = [] \/ isValidToken (JsStr (authToken s)) = true).

(** The requests sent, in order, each with whether an ok response came
    back; and the messages shown to the user in [alert] boxes. *)
Definition fetchesOf (evs : list Event) : list (Request * bool) :=
  flat_map (fun e => match e with EvFetch r ok => [(r, ok)] | _ => [] end) evs.

Definition alertsOf (evs : list Event) : list jsstring :=
  flat_map (fun e => match e with EvAlert m => [m] | _ => [] end) evs.

(** The repository-page requests for the pages [first], [first + 1], ...
    of 100 items each, one per recorded outcome. *)
Definition pageRequests (org : jsstring) (first : nat) (oks : list bool)
  : list (Request * bool) :=
  combine (map (ReqOrgReposPage org 100) (seq first (List.length oks))) oks.

(** Every outcome but possibly the last is ok. *)
Definition okUntilLast (oks : list bool) : Prop :=
  forall i, S i < List.length oks -> nth i oks true = true.

(** The [p]-th page of [per_page] items of a listing. *)
Definition pageOf {A} (per_page p : nat) (l : list A) : list A :=
  firstn per_page (skipn ((p - 1) * per_page) l).

(** A computation relates every world it starts in to the world it ends
    in. *)
Definition keeps {A} (R : World -> World -> Prop) (m : M A) : Prop :=
  forall w, R w (snd (m w)).

(** The session, the cache, both, is left as it was. *)
Definition sameState (w w' : World) : Prop := appState w' = appState w.
Definition sameStore (w w' : World) : Prop :=
  appState w' = appState w /\ cache w' = cache w.

(** A computation that is never cut off for lack of fuel. *)
Definition finishes {A} (m : M A) : Prop :=
  forall w, fst (m w) <> Unfinished.

(** Nothing is shown to the user between two worlds; the session and the
    alerts are as they were. *)
Definition sameAlerts (w w' : World) : Prop :=
  alertsOf (events w') = alertsOf (events w).
Definition quiet (w w' : World) : Prop :=
  appState w' = appState w /\ alertsOf (events w') = alertsOf (events w).

(** What recomputing a view is to establish: the first page is current,
    and the page count is the least number of pages that hold the
    filtered items. *)
Definition viewRecomputed {A} (p : Pagination A) : Prop :=
  currentPage p = 1
  /\ totalPages p
     = ceilDiv (List.length (filteredItems p)) (itemsPerPage p)
  /\ List.length (filteredItems p) <= totalPages p * itemsPerPage p
  /\ totalPages p * itemsPerPage p
     < List.length (filteredItems p) + itemsPerPage p.

(** The pagination invariant of the specification. *)
Definition pageInvariant {A} (p : Pagination A) : Prop :=
  1 <= currentPage p <= totalPages p.

Definition names (l : list Repo) : list jsstring := map repo_name l.

(** [data.items || []] *)
Definition itemsOrEmpty (data : option (list Repo)) : list Repo :=
  match data with Some items => items | None => [] end.

(** The suggested-actors request for the page after cursor [c]. *)
Definition actorsRequest (org repoName : jsstring) (c : option jsstring)
  : Request :=
  ReqSuggestedActors org repoName 100 c.

(** GitHub hands out the pages [ps] one after the other, starting from the
    cursor [c] after the events [evs]: each request is answered, without
    GraphQL errors, by the next page; every page but the last announces a
    further page and gives the cursor to ask for it; the last page
    announces none, or holds the bot. *)
Fixpoint servesPages (env : Env) (org repoName : jsstring)
         (evs : list Event) (c : option jsstring) (ps : list ActorsPage)
  : Prop :=
  match ps with
  | [] => False
  | p :: rest =>
      serveActors env evs (actorsRequest org repoName c) = HttpOk (GqlData p)
      /\ match rest with
         | [] => pageInfo_hasNextPage p = false
                 \/ find isCopilot (nodes p) <> None
         | _ :: _ =>
             pageInfo_hasNextPage p = true
             /\ servesPages env org repoName
                  (evs ++ [EvFetch (actorsRequest org repoName c) true])
                  (pageInfo_endCursor p) rest
         end
  end.

(** The pages up to and including the first that holds the bot, and the
    cursors they are asked with. *)
Fixpoint visitedPages (ps : list ActorsPage) : list ActorsPage :=
  match ps with
  | [] => []
  | p :: rest =>
      p :: match find isCopilot (nodes p) with
           | Some _ => []
           | None => visitedPages rest
           end
  end.

Fixpoint cursorsAsked (c : option jsstring) (ps : list ActorsPage)
  : list (option jsstring) :=
  match ps with
  | [] => []
  | p :: rest => c :: cursorsAsked (pageInfo_endCursor p) rest
  end.

(** An issue-creation request that GitHub answered ok, and their number
    in a run. *)
Definition issueCreated (e : Event) : bool :=
  match e with
  | EvFetch (ReqCreateIssue _ _ _) true => true
  | _ => false
  end.

Definition issuesCreated (evs : list Event) : nat :=
  List.length (filter issueCreated evs).

(** What the user is told about a run: the success screen and the alert
    boxes, in order. *)
Definition reportsOf (evs : list Event) : list Event :=
  filter (fun e => match e with
                   | EvShowSuccess | EvAlert _ => true
                   | _ => false
                   end) evs.

Definition sameReports (w w' : World) : Prop :=
  reportsOf (events w') = reportsOf (events w).

(** The session, the number of issues created and what the user was told
    are as they were. *)
Definition sameIssues (w w' : World) : Prop :=
  appState w' = appState w
  /\ issuesCreated (events w') = issuesCreated (events w)
  /\ reportsOf (events w') = reportsOf (events w).

Definition isCreateIssue (r : Request) : bool :=
  match r with ReqCreateIssue _ _ _ => true | _ => false end.

(** The events [reportResults] appends for the results of a run. *)
Definition completionEvents (results : list WorkflowResult) : list Event :=
  EvLog INFO (lit "Workflow execution completed") None
    [("total"%string, LNum (List.length results));
     ("successful"%string, LNum (successCount results));
     ("failed"%string, LNum (failureCount results))]
  :: (if 0 <? successCount results then
        EvShowSuccess
        :: (if 0 <? failureCount results then
              [EvLog WARN (lit "Some repositories failed to process") None
                 [("failedRepos"%string,
                   LStrs (map res_repo
                            (filter (fun r => negb (res_success r))
                                    results)))]]
            else [])
      else
        [EvLog ERROR (lit "Workflow execution failed completely") None
           [("results"%string, LNum (List.length results))];
         EvAlert permissionsMessage]).

(** The two log entries of [executeWorkflow] before the loop. *)
Definition startEntry (s : AppState) : Event :=
  EvLog INFO (lit "Starting workflow execution") None
    [("selectionMethod"%string, LStr (selectionMethod s));
     ("org"%string, LStr (orgName s))].

Definition processingEntry (targetRepos : list Repo) : Event :=
  EvLog INFO (lit "Processing repositories") None
    [("count"%string, LNum (List.length targetRepos))].

(** The two shapes of a result pushed by the loop of [executeWorkflow]. *)
Definition successResult (repo : Repo) (issueResult : Issue)
  : WorkflowResult :=
  {| res_repo := repo_name repo; res_success := true;
     res_issue := Some issueResult;
     res_issueUrl := Some (issue_html_url issueResult);
     res_error := None; res_errorType := None |}.

Definition failureResult (repo : Repo) (error : JsError) : WorkflowResult :=
  {| res_repo := repo_name repo; res_success := false;
     res_issue := None; res_issueUrl := None;
     res_error := Some (errorMessage error);
     res_errorType := Some (errorName error) |}.

(** The issue [createIssueAndAssignCopilot] posts from a session. *)
Definition issueDataOf (s : AppState) : IssueData :=
  {| issue_title := getUseCaseDisplayName (selectedUseCase s)
                    ++ lit " - Copilot Agent Task";
     issue_body := sanitizeString (JsStr (promptContent s));
     issue_labels :=
       [lit "copilot-agent";
        match selectedUseCase s with Some u => u | None => lit "null" end]
  |}.

(** A session and a repository name that pass the checks made before the
    issue is posted. *)
Definition readyToPost (s : AppState) (repoName : jsstring) : Prop :=
  sanitizeString (JsStr repoName) <> []
  /\ trim (promptContent s) <> []
  /\ authToken s <> [].

(** A first letter or digit, then nothing or a run of letters, digits and
    hyphens closed by a letter or digit. *)
Definition headBodyTail (s : jsstring) : Prop :=
  exists c t, s = c :: t /\ isAlnum c = true /\
    (t = [] \/
     exists m d, t = m ++ [d] /\
       forallb (fun x => isAlnum x || N.eqb x hyphen) m = true /\
       isAlnum d = true).

(* ================================================================== *)
(** ** A concrete organization for the examples *)
(* ================================================================== *)

Module Demo.

Definition repo (n : string) : Repo :=
  {| repo_name := lit n; repo_description := None |}.

(** The 250 repositories of the organization. *)
Definition repos : list Repo :=
  map (fun i => {| repo_name := lit "repo-" ++ ofNat i;
                   repo_description := Some (lit "Service " ++ ofNat i) |})
      (seq 1 250).

Definition issue : Issue :=
  {| issue_number := 7; issue_id := 70;
     issue_html_url := lit "https://github.com/acme/R/issues/7";
     issue_node_id := lit "I_node7" |}.

Definition firstActors : ActorsPage :=
  {| nodes := [ {| actor_id := lit "BOT_1";
                   actor_login := Some (lit "dependabot") |};
                {| actor_id := lit "U_1"; actor_login := None |} ];
     pageInfo_hasNextPage := true;
     pageInfo_endCursor := Some (lit "cursor-1") |}.

Definition lastActors : ActorsPage :=
  {| nodes := [ {| actor_id := lit "BOT_2";
                   actor_login := Some (lit "copilot-swe-agent") |} ];
     pageInfo_hasNextPage := false;
     pageInfo_endCursor := None |}.

(** GitHub for the organization: repository pages of the 250
    repositories; a search that finds two repositories, one of them
    twice; no custom properties (403); issue creation refused with 403 in
    R2 and accepted elsewhere; the issue of R3 cannot be read back (500);
    the bot is on the second page of suggested actors. *)
Definition env : Env := {|
  now := fun _ => 0%Z;
  serveRepos := fun _ r =>
    match r with
    | ReqOrgReposPage _ per_page page => HttpOk (pageOf per_page page repos)
    | ReqOrgRepos _ per_page => HttpOk (firstn per_page repos)
    | _ => HttpFail 404 (lit "Not Found")
    end;
  serveSearch := fun _ _ =>
    HttpOk (Some [repo "zz-tools"; repo "zz-tools"; repo "zz-docs"]);
  serveProperties := fun _ _ => HttpFail 403 (lit "Forbidden");
  serveIssue := fun _ r =>
    match r with
    | ReqCreateIssue _ name _ =>
        if JsString.eqb name (lit "R2") then HttpFail 403 (lit "Forbidden")
        else HttpOk issue
    | ReqGetIssue _ name _ =>
        if JsString.eqb name (lit "R3")
        then HttpFail 500 (lit "Server Error")
        else HttpOk issue
    | _ => HttpFail 404 (lit "Not Found")
    end;
  serveActors := fun _ r =>
    match r with
    | ReqSuggestedActors _ _ _ None => HttpOk (GqlData firstActors)
    | _ => HttpOk (GqlData lastActors)
    end;
  serveMutation := fun _ _ => HttpOk (GqlData tt);
  serveGraphQL := fun _ _ => HttpOk (GqlData JsObject)
|}.

(** A session at stage 4: use case, accepted credentials, three selected
    repositories. *)
Definition session : AppState := {|
  currentStep := 4;
  selectedUseCase := Some (lit "tests");
  orgName := lit "acme";
  authToken := lit "ghp_0123456789abcdefghij";
  selectionMethod := lit "selected";
  selectedRepos := [lit "R1"; lit "R2"; lit "R3"];
  selectedProperties := [];
  allRepos := [];
  allProperties := getMockCustomProperties;
  promptContent := [];
  reposPagination := reposPagination initialAppState;
  propertiesPagination := propertiesPagination initialAppState
|}.

Definition world : World :=
  {| appState := session; cache := []; events := [] |}.

(** A fresh page load: nothing entered yet. *)
Definition freshWorld : World :=
  {| appState := initialAppState; cache := []; events := [] |}.

End Demo.

(* ================================================================== *)
(** ** Further functions of the script *)
(* ================================================================== *)

Module SecurityUtils.

(** [maskToken], on a string. *)
Definition maskToken (token : jsstring) : jsstring :=
  if negb (truthy (JsStr token)) || (List.length token <? 8) then lit "***"
  else firstn 4 token ++ lit "***" ++ skipn (List.length token - 4) token.

End SecurityUtils.

(** The body shared by [changeReposPage] and [changePropertiesPage]. *)
Definition changePage {A} (direction : Z) (p : Pagination A) : Pagination A :=
  let newPage := (Z.of_nat (currentPage p) + direction)%Z in
  if ((1 <=? newPage) && (newPage <=? Z.of_nat (totalPages p)))%Z
  then set_currentPage (Z.to_nat newPage) p
  else p.

Definition changeReposPage (direction : Z) (s : AppState) : AppState :=
  set_reposPagination (changePage direction (reposPagination s)) s.

Definition changePropertiesPage (direction : Z) (s : AppState) : AppState :=
  set_propertiesPagination (changePage direction (propertiesPagination s)) s.

(** The rows [renderRepositories] and [renderCustomProperties] draw:
    [filtered.slice(startIndex, endIndex)] with
    [startIndex = (currentPage - 1) * itemsPerPage].  For page 0 the start
    index is negative and the slice is empty. *)
Definition visibleItems {A} (p : Pagination A) : list A :=
  match currentPage p with
  | O => []
  | S k => firstn (itemsPerPage p) (skipn (k * itemsPerPage p) (filteredItems p))
  end.

Definition reposToShow (s : AppState) : list Repo :=
  visibleItems (reposPagination s).

Definition propertiesToShow (s : AppState) : list Property :=
  visibleItems (propertiesPagination s).

Definition set_selectedRepos (l : list jsstring) (s : AppState) : AppState :=
  {| currentStep := currentStep s; selectedUseCase := selectedUseCase s;
     orgName := orgName s; authToken := authToken s;
     selectionMethod := selectionMethod s; selectedRepos := l;
     selectedProperties := selectedProperties s; allRepos := allRepos s;
     allProperties := allProperties s; promptContent := promptContent s;
     reposPagination := reposPagination s;
     propertiesPagination := propertiesPagination s |}.

Definition set_selectedProperties (l : list SelectedProperty) (s : AppState)
  : AppState :=
  {| currentStep := currentStep s; selectedUseCase := selectedUseCase s;
     orgName := orgName s; authToken := authToken s;
     selectionMethod := selectionMethod s; selectedRepos := selectedRepos s;
     selectedProperties := l; allRepos := allRepos s;
     allProperties := allProperties s; promptContent := promptContent s;
     reposPagination := reposPagination s;
     propertiesPagination := propertiesPagination s |}.

(** [array.findIndex(test)], with [None] for -1; [indexOf] is the case of
    strict equality with a string. *)
Fixpoint findIndex {A} (test : A -> bool) (l : list A) : option nat :=
  match l with
  | [] => None
  | x :: l' =>
      if test x then Some 0
      else match findIndex test l' with
           | Some i => Some (S i)
           | None => None
           end
  end.

Definition indexOf (x : jsstring) (l : list jsstring) : option nat :=
  findIndex (JsString.eqb x) l.

(** [array.splice(index, 1)] *)
Fixpoint splice1 {A} (index : nat) (l : list A) : list A :=
  match l, index with
  | [], _ => []
  | _ :: l', O => l'
  | x :: l', S i => x :: splice1 i l'
  end.

Definition toggleRepoSelection (repoName : jsstring) (s : AppState)
  : AppState :=
  match indexOf repoName (selectedRepos s) with
  | None => set_selectedRepos (selectedRepos s ++ [repoName]) s
  | Some index => set_selectedRepos (splice1 index (selectedRepos s)) s
  end.

Definition removeRepoSelection (repoName : jsstring) (s : AppState)
  : AppState :=
  match indexOf repoName (selectedRepos s) with
  | Some index => set_selectedRepos (splice1 index (selectedRepos s)) s
  | None => s
  end.

Definition hasPropertyName (propertyName : jsstring) (sp : SelectedProperty)
  : bool :=
  JsString.eqb (sp_propertyName sp) propertyName.

Definition togglePropertySelection (propertyName : jsstring) (s : AppState)
  : AppState :=
  match findIndex (hasPropertyName propertyName) (selectedProperties s) with
  | None =>
      set_selectedProperties
        (selectedProperties s
         ++ [{| sp_propertyName := propertyName; sp_value := [] |}]) s
  | Some existingIndex =>
      set_selectedProperties (splice1 existingIndex (selectedProperties s)) s
  end.

(** [find] the first selected property of that name and assign its
    [value]. *)
Fixpoint assignValue (propertyName value : jsstring)
         (l : list SelectedProperty) : list SelectedProperty :=
  match l with
  | [] => []
  | sp :: l' =>
      if hasPropertyName propertyName sp
      then {| sp_propertyName := sp_propertyName sp; sp_value := value |} :: l'
      else sp :: assignValue propertyName value l'
  end.

Definition updatePropertyValue (propertyName value : jsstring) (s : AppState)
  : AppState :=
  match find (hasPropertyName propertyName) (selectedProperties s) with
  | Some _ =>
      set_selectedProperties
        (assignValue propertyName value (selectedProperties s)) s
  | None => s
  end.

Definition removePropertySelection (propertyName : jsstring) (s : AppState)
  : AppState :=
  match findIndex (hasPropertyName propertyName) (selectedProperties s) with
  | Some index =>
      set_selectedProperties (splice1 index (selectedProperties s)) s
  | None => s
  end.

Definition isDigit (c : CodeUnit) : bool := N.leb 48 c && N.leb c 57.

Fixpoint takeWhile (p : CodeUnit -> bool) (s : jsstring) : jsstring :=
  match s with
  | [] => []
  | c :: s' => if p c then c :: takeWhile p s' else []
  end.

(** [hash.match(/#step-(\d+)/)]: the group captured by the leftmost match,
    that is, the longest run of digits after the first occurrence of
    [#step-] that a digit follows. *)
Fixpoint matchStepHash (hash : jsstring) : option jsstring :=
  match hash with
  | [] => None
  | _ :: rest =>
      if startsWith hash (lit "#step-") then
        match takeWhile isDigit (skipn 6 hash) with
        | [] => matchStepHash rest
        | digits => Some digits
        end
      else matchStepHash rest
  end.

(** [parseInt] of a run of decimal digits. *)
Definition parseInt (digits : jsstring) : N :=
  fold_left (fun acc d => (acc * 10 + (d - 48))%N) digits 0%N.

(** [getStepFromHash], with [window.location.hash] as argument. *)
Definition getStepFromHash (hash : jsstring) : nat :=
  match matchStepHash hash with
  | Some digits =>
      let step := parseInt digits in
      if N.leb 1 step && N.leb step 4 then N.to_nat step else 1
  | None => 1
  end.

(** The fragment [updateHistoryState] writes into the URL for a step. *)
Definition stepHash (step : nat) : jsstring := lit "#step-" ++ ofNat step.

(** Case 2 of [restoreStepState]: on the way back to the authentication
    step the two fields are filled with the stored values and
    [validateInputs] runs on them. *)
Definition restoreStepState_auth (s : AppState) : AppState :=
  validateInputs (orgName s) (authToken s) s.

(* ================================================================== *)
(** ** Further notions *)
(* ================================================================== *)

(** A letter, a digit or an underscore. *)
Definition isWordChar (c : CodeUnit) : bool :=
  isAlnum c || N.eqb c 95.

(** The entry of a selected property, if any, and its value. *)
Definition selectedValue (propertyName : jsstring)
           (l : list SelectedProperty) : option jsstring :=
  option_map sp_value (find (hasPropertyName propertyName) l).

Definition propertyNames (l : list SelectedProperty) : list jsstring :=
  map sp_propertyName l.

(** The session and the events that satisfy [P] are as they were. *)
Definition sameOn (P : Event -> bool) (w w' : World) : Prop :=
  appState w' = appState w
  /\ filter P (events w') = filter P (events w).

(** The events that pace a run: issue-creation requests and delays. *)
Definition isPaceEvent (e : Event) : bool :=
  match e with
  | EvFetch (ReqCreateIssue _ _ _) _ => true
  | EvDelay _ => true
  | _ => false
  end.

Definition paceOf (evs : list Event) : list Event := filter isPaceEvent evs.

(** The slots of the targets of a run, each holding the issue-creation
    request sent for its target if one was sent, with the rate-limit
    delay between two consecutive slots. *)
Fixpoint paced (slots : list (list Event)) : list Event :=
  match slots with
  | [] => []
  | [slot] => slot
  | slot :: rest => slot ++ EvDelay APP_CONFIG.RATE_LIMIT_DELAY :: paced rest
  end.

(** The slot of a target: empty when the session or the name of the
    repository fails a check made before the issue is posted, and
    otherwise the one issue-creation request for the repository, with the
    issue of the session. *)
Definition slotOf (s : AppState) (repo : Repo) (slot : list Event) : Prop :=
  (~ readyToPost s (repo_name repo) /\ slot = [])
  \/ (readyToPost s (repo_name repo)
      /\ exists ok,
           slot = [EvFetch (ReqCreateIssue (orgName s) (repo_name repo)
                              (issueDataOf s)) ok]).

(** The checks of [executeWorkflow] on the session and the prompt field
    all pass. *)
Definition preconditionsMet (s : AppState) (promptInput : jsstring) : Prop :=
  useCaseSelected s = true
  /\ isValidOrgName (JsStr (orgName s)) = true
  /\ isValidToken (JsStr (authToken s)) = true
  /\ trim promptInput <> [].

(** What the final [catch] of [executeWorkflow] does with an error. *)
Definition failedRun (error : JsError) (w : World) : World :=
  emit (EvAlert (lit "Workflow execution failed: " ++ userMessage error))
    (emit (EvLog ERROR (lit "Workflow execution error") (Some error) []) w).

(** The messages of the four precondition checks of [executeWorkflow],
    and the messages of all the errors it raises itself. *)
Definition preconditionTexts : list jsstring :=
  [ lit "Please select a use case first.";
    lit "Please provide a valid organization name.";
    lit "Please provide a valid authentication token.";
    lit "Please provide prompt content." ].

Definition resolutionTexts : list jsstring :=
  preconditionTexts
  ++ [ lit "Please select at least one repository.";
       lit "Invalid repository selection method.";
       lit "No repositories found to process." ].

Definition listingFailed : jsstring :=
  lit "Failed to fetch organization repositories: ".

(** The message of an error that stops a run before its loop. *)
Definition workflowFailure (m : jsstring) : Prop :=
  In m resolutionTexts
  \/ exists cause, m = listingFailed ++ errorMessage cause.

Definition failedPrefix : jsstring := lit "Workflow execution failed: ".

(** The entry [getAllOrgRepos] logs before it asks for the repositories,
    and the request it sends. *)
Definition fetchingEntry (s : AppState) : Event :=
  EvLog INFO (lit "Fetching organization repositories") None
    [("org"%string, LStr (orgName s))].

Definition orgReposRequest (s : AppState) : Request :=
  ReqOrgRepos (orgName s) 100.

(** The session once the checks have passed and the prompt is stored. *)
Definition withPrompt (promptInput : jsstring) (s : AppState) : AppState :=
  set_promptContent (sanitizeString (JsStr (trim promptInput))) s.

(** The entry [loadCustomProperties] logs before it asks for the schema,
    and the request it sends. *)
Definition loadingEntry (s : AppState) : Event :=
  EvLog INFO (lit "Loading custom properties") None
    [("org"%string, LStr (orgName s))].

Definition schemaRequest (s : AppState) : Request :=
  ReqPropertiesSchema (orgName s).

(** The request that reads an issue back, and the mutation that assigns
    the bot to it. *)
Definition issueRequest (s : AppState) (repoName : jsstring) (number : Z)
  : Request :=
  ReqGetIssue (orgName s) repoName number.

Definition assignRequest (issue : Issue) (bot : Actor) : Request :=
  ReqReplaceActors (issue_node_id issue) [actor_id bot].

(** The requests for the pages of suggested actors that are visited. *)
Definition actorRequests (s : AppState) (repoName : jsstring)
           (ps : list ActorsPage) : list (Request * bool) :=
  map (fun c => (actorsRequest (orgName s) repoName c, true))
      (cursorsAsked None (visitedPages ps)).

(** Further sample data: a view of five items on three pages, and the
    session of the demonstration with its prompt stored. *)
Module Sample.

Definition view : Pagination nat :=
  {| currentPage := 1; itemsPerPage := 2; totalPages := 3;
     filteredItems := [10; 20; 30; 40; 50]; searchTerm := [] |}.

Definition ready : World :=
  withAppState (withPrompt (lit "Add tests")) Demo.world.

Definition targets : list Repo := map repoRef [lit "R1"; lit "R2"; lit "R3"].

End Sample.

(* ================================================================== *)
(** * Properties *)
(* ================================================================== *)

Arguments lit : simpl never.
Unset Implicit Arguments.

(** ** The matcher decides membership in the language *)

Lemma Lang_void (s : jsstring) : Lang RVoid s <-> False.
Proof. split; intro H; inversion H. Qed.

Lemma Lang_eps (s : jsstring) : Lang REps s <-> s = [].
Proof.
  split.
  - intro H. inversion H. reflexivity.
  - intros ->. constructor.
Qed.

Lemma Lang_class (cls : list ClassItem) (s : jsstring) :
  Lang (RClass cls) s <-> exists c, s = [c] /\ inClass cls c = true.
Proof.
  split.
  - intro H. inversion H; subst. eauto.
  - intros (c & -> & Hc). constructor. assumption.
Qed.

Lemma Lang_seq (a b : regex) (s : jsstring) :
  Lang (RSeq a b) s <-> exists s1 s2, s = s1 ++ s2 /\ Lang a s1 /\ Lang b s2.
Proof.
  split.
  - intro H. inversion H; subst. eauto.
  - intros (s1 & s2 & -> & Ha & Hb). constructor; assumption.
Qed.

Lemma Lang_alt (a b : regex) (s : jsstring) :
  Lang (RAlt a b) s <-> Lang a s \/ Lang b s.
Proof.
  split.
  - intro H. inversion H; subst; auto.
  - intros [H|H]; [apply LAltL | apply LAltR]; assumption.
Qed.

Lemma nullable_Lang (r : regex) : nullable r = true <-> Lang r [].
Proof.
  induction r; simpl.
  - rewrite Lang_void. split; [discriminate | tauto].
  - rewrite Lang_eps. tauto.
  - rewrite Lang_class. split; [discriminate|].
    intros (c & Hc & _). discriminate.
  - rewrite andb_true_iff, Lang_seq, IHr1, IHr2. split.
    + intros [Ha Hb]. exists [], []. auto.
    + intros (s1 & s2 & Heq & Ha & Hb). symmetry in Heq.
      apply app_eq_nil in Heq. destruct Heq; subst. auto.
  - rewrite orb_true_iff, Lang_alt, IHr1, IHr2. tauto.
  - split; [constructor | reflexivity].
Qed.

Lemma Lang_star_cons (a : regex) (c : CodeUnit) (s : jsstring) :
  Lang (RStar a) (c :: s) ->
  exists s1 s2, s = s1 ++ s2 /\ Lang a (c :: s1) /\ Lang (RStar a) s2.
Proof.
  intro H. remember (RStar a) as r eqn:Hr. remember (c :: s) as t eqn:Ht.
  revert s Ht.
  induction H; intros s' Ht; try discriminate.
  inversion Hr; subst a0. clear Hr.
  destruct s1 as [|x s1].
  - simpl in Ht. apply IHLang2; auto.
  - simpl in Ht. inversion Ht; subst.
    exists s1, s2. auto.
Qed.

Lemma Lang_seq_cons (a b : regex) (c : CodeUnit) (s : jsstring) :
  Lang (RSeq a b) (c :: s) <->
  (exists s1 s2, s = s1 ++ s2 /\ Lang a (c :: s1) /\ Lang b s2)
  \/ (Lang a [] /\ Lang b (c :: s)).
Proof.
  rewrite Lang_seq. split.
  - intros (s1 & s2 & Heq & Ha & Hb). destruct s1 as [|x s1]; simpl in Heq.
    + subst s2. right. auto.
    + inversion Heq; subst. left. eauto.
  - intros [(s1 & s2 & -> & Ha & Hb) | [Ha Hb]].
    + exists (c :: s1), s2. auto.
    + exists [], (c :: s). auto.
Qed.

Lemma deriv_Lang (r : regex) :
  forall c s, Lang (deriv c r) s <-> Lang r (c :: s).
Proof.
  induction r; intros c s; simpl.
  - rewrite !Lang_void. tauto.
  - rewrite Lang_void, Lang_eps. split; [tauto | discriminate].
  - rewrite (Lang_class cls (c :: s)).
    destruct (inClass cls c) eqn:Hc.
    + rewrite Lang_eps. split.
      * intros ->. eauto.
      * intros (d & Heq & _). inversion Heq. reflexivity.
    + rewrite Lang_void. split; [tauto|].
      intros (d & Heq & Hd). inversion Heq; subst. congruence.
  - rewrite Lang_seq_cons.
    destruct (nullable r1) eqn:Hn.
    + rewrite Lang_alt, Lang_seq, IHr2.
      apply nullable_Lang in Hn. split.
      * intros [(s1 & s2 & -> & Ha & Hb) | Hb].
        -- left. exists s1, s2. rewrite <- IHr1. auto.
        -- right. auto.
      * intros [(s1 & s2 & -> & Ha & Hb) | [_ Hb]].
        -- left. exists s1, s2. rewrite IHr1. auto.
        -- right. assumption.
    + rewrite Lang_seq. split.
      * intros (s1 & s2 & -> & Ha & Hb).
        left. exists s1, s2. rewrite <- IHr1. auto.
      * intros [(s1 & s2 & -> & Ha & Hb) | [Ha _]].
        -- exists s1, s2. rewrite IHr1. auto.
        -- apply nullable_Lang in Ha. congruence.
  - rewrite !Lang_alt, IHr1, IHr2. tauto.
  - rewrite Lang_seq. split.
    + intros (s1 & s2 & -> & Ha & Hb). apply IHr in Ha.
      change (c :: s1 ++ s2) with ((c :: s1) ++ s2). constructor; assumption.
    + intro H. apply Lang_star_cons in H.
      destruct H as (s1 & s2 & -> & Ha & Hs).
      exists s1, s2. rewrite IHr. auto.
Qed.

Lemma test_Lang (s : jsstring) : forall r, test r s = true <-> Lang r s.
Proof.
  induction s as [|c s IH]; intro r; simpl.
  - apply nullable_Lang.
  - rewrite IH. apply deriv_Lang.
Qed.

Lemma Lang_star_class (cls : list ClassItem) (s : jsstring) :
  Lang (RStar (RClass cls)) s <-> forallb (inClass cls) s = true.
Proof.
  split.
  - intro H. remember (RStar (RClass cls)) as r eqn:Hr.
    induction H; try discriminate; [reflexivity|].
    inversion Hr; subst a.
    apply Lang_class in H. destruct H as (c & -> & Hc). simpl.
    rewrite Hc. simpl. apply IHLang2. reflexivity.
  - induction s as [|c s IH]; simpl; intro H.
    + constructor.
    + apply andb_true_iff in H. destruct H as [Hc Hs].
      change (c :: s) with ([c] ++ s).
      constructor; [constructor; assumption | apply IH; assumption].
Qed.

(** ** Validation *)

Lemma inClass_strippedClass (c : CodeUnit) :
  inClass strippedClass c = existsb (N.eqb c) strippedChars.
Proof. reflexivity. Qed.

Lemma existsb_eqb_In (c : CodeUnit) (l : list CodeUnit) :
  existsb (N.eqb c) l = true <-> In c l.
Proof.
  rewrite existsb_exists. split.
  - intros (x & Hx & Heq). apply N.eqb_eq in Heq. subst. assumption.
  - intro H. exists c. split; [assumption | apply N.eqb_refl].
Qed.

Lemma replaceAllClass_idempotent (cls : list ClassItem) (s : jsstring) :
  replaceAllClass cls (replaceAllClass cls s) = replaceAllClass cls s.
Proof.
  unfold replaceAllClass. induction s as [|c s IH]; simpl; [reflexivity|].
  destruct (inClass cls c) eqn:Hc; simpl; [assumption|].
  rewrite Hc. simpl. f_equal. assumption.
Qed.

(** C7. [sanitizeString] is total; on a string it deletes exactly the
    occurrences of the five characters and keeps the rest in order, on
    anything else it yields the empty string; no stripped character
    remains in its result; and it is idempotent. *)
Theorem sanitizeString_strips_and_is_idempotent :
  forall x : JsValue,
    sanitizeString x =
      match x with
      | JsStr s => filter (fun c => negb (existsb (N.eqb c) strippedChars)) s
      | _ => []
      end
    /\ Forall (fun c => ~ In c strippedChars) (sanitizeString x)
    /\ sanitizeString (JsStr (sanitizeString x)) = sanitizeString x.
Proof.
  intro x. split; [|split].
  - destruct x; reflexivity.
  - destruct x; cbn [sanitizeString]; try constructor.
    unfold replaceAllClass. apply Forall_forall. intros c Hc.
    apply filter_In in Hc. destruct Hc as [_ Hc].
    rewrite inClass_strippedClass in Hc. intro Hin.
    apply existsb_eqb_In in Hin. rewrite Hin in Hc. discriminate.
  - destruct x; try reflexivity. simpl. apply replaceAllClass_idempotent.
Qed.

Lemma inClass_alnum (c : CodeUnit) : inClass alnum c = isAlnum c.
Proof.
  unfold inClass, alnum, isAlnum. simpl.
  destruct (N.leb 65 c && N.leb c 90), (N.leb 97 c && N.leb c 122),
    (N.leb 48 c && N.leb c 57); reflexivity.
Qed.

Lemma inClass_spec_alnum (c : CodeUnit) :
  inClass [CRange 65 90; CRange 97 122; CRange 48 57]%N c = isAlnum c.
Proof.
  unfold inClass, isAlnum. simpl.
  destruct (N.leb 65 c && N.leb c 90), (N.leb 97 c && N.leb c 122),
    (N.leb 48 c && N.leb c 57); reflexivity.
Qed.

Lemma inClass_alnumHyphen (c : CodeUnit) :
  inClass alnumHyphen c = isAlnum c || N.eqb c hyphen.
Proof.
  unfold inClass, alnumHyphen, isAlnum, hyphen. simpl.
  destruct (N.leb 65 c && N.leb c 90), (N.leb 97 c && N.leb c 122),
    (N.leb 48 c && N.leb c 57), (N.eqb c 45); reflexivity.
Qed.

Lemma inClass_spec_alnumHyphen (c : CodeUnit) :
  inClass [CRange 65 90; CRange 97 122; CRange 48 57; CChar 45]%N c
  = isAlnum c || N.eqb c hyphen.
Proof.
  unfold inClass, isAlnum, hyphen. simpl.
  destruct (N.leb 65 c && N.leb c 90), (N.leb 97 c && N.leb c 122),
    (N.leb 48 c && N.leb c 57), (N.eqb c 45); reflexivity.
Qed.

Lemma forallb_ext_eq {A} (f g : A -> bool) (l : list A) :
  (forall x, f x = g x) -> forallb f l = forallb g l.
Proof.
  intro H. induction l as [|x l IH]; simpl; [reflexivity|].
  rewrite H, IH. reflexivity.
Qed.

Lemma Lang_body_tail (body tail : list ClassItem) (t : jsstring) :
  (forall x, inClass body x = isAlnum x || N.eqb x hyphen) ->
  (forall x, inClass tail x = isAlnum x) ->
  Lang (RSeq (RStar (RClass body)) (RClass tail)) t <->
  exists m d, t = m ++ [d] /\
    forallb (fun x => isAlnum x || N.eqb x hyphen) m = true /\
    isAlnum d = true.
Proof.
  intros Hb Ht. rewrite Lang_seq. split.
  - intros (m & t2 & -> & Hm & Hd).
    apply Lang_star_class in Hm. apply Lang_class in Hd.
    destruct Hd as (d & -> & Hd).
    exists m, d. rewrite <- Ht, <- (forallb_ext_eq _ _ m Hb). auto.
  - intros (m & d & -> & Hm & Hd).
    exists m, [d]. split; [reflexivity|]. split.
    + apply Lang_star_class. rewrite (forallb_ext_eq _ _ m Hb). assumption.
    + apply Lang_class. exists d. rewrite Ht. auto.
Qed.

Lemma Lang_orgNamePattern (s : jsstring) :
  Lang orgNamePattern s <-> headBodyTail s.
Proof.
  unfold orgNamePattern, headBodyTail.
  rewrite Lang_alt, Lang_seq, Lang_class.
  split.
  - intros [(s1 & t & -> & Hc & Ht) | (c & -> & Hc)].
    + apply Lang_class in Hc. destruct Hc as (c & -> & Hc).
      rewrite inClass_alnum in Hc.
      apply (Lang_body_tail _ _ t inClass_alnumHyphen inClass_alnum) in Ht.
      exists c, t. simpl. auto.
    + rewrite inClass_alnum in Hc. exists c, []. auto.
  - intros (c & t & -> & Hc & [-> | Ht]).
    + right. exists c. rewrite inClass_alnum. auto.
    + left. exists [c], t. split; [reflexivity|]. split.
      * apply Lang_class. exists c. rewrite inClass_alnum. auto.
      * apply (Lang_body_tail _ _ t inClass_alnumHyphen inClass_alnum). assumption.
Qed.

Lemma Lang_specOrgNameShape (s : jsstring) :
  Lang specOrgNameShape s <-> headBodyTail s.
Proof.
  unfold specOrgNameShape, ROpt, headBodyTail.
  rewrite Lang_seq. split.
  - intros (s1 & t & -> & Hc & Ht).
    apply Lang_class in Hc. destruct Hc as (c & -> & Hc).
    rewrite inClass_spec_alnum in Hc.
    apply Lang_alt in Ht. exists c, t. simpl. split; [reflexivity|].
    split; [assumption|]. destruct Ht as [Ht | Ht].
    + right.
      apply (Lang_body_tail _ _ t inClass_spec_alnumHyphen inClass_spec_alnum) in Ht.
      assumption.
    + left. apply Lang_eps. assumption.
  - intros (c & t & -> & Hc & Ht).
    exists [c], t. split; [reflexivity|]. split.
    + apply Lang_class. exists c. rewrite inClass_spec_alnum. auto.
    + apply Lang_alt. destruct Ht as [-> | Ht].
      * right. constructor.
      * left.
        apply (Lang_body_tail _ _ t inClass_spec_alnumHyphen inClass_spec_alnum).
        assumption.
Qed.

Lemma isAlnum_not_hyphen (c : CodeUnit) : isAlnum c = true -> c <> hyphen.
Proof. intros H ->. discriminate. Qed.

Lemma headBodyTail_orgNameShape (s : jsstring) :
  headBodyTail s <-> orgNameShape s.
Proof.
  unfold headBodyTail, orgNameShape. split.
  - intros (c & t & -> & Hc & Ht). split; [discriminate|].
    destruct Ht as [-> | (m & d & -> & Hm & Hd)].
    + simpl. repeat split; auto using isAlnum_not_hyphen.
    + split; [|split].
      * constructor; [auto|]. apply Forall_app. split.
        -- apply Forall_forall. intros x Hx.
           rewrite forallb_forall in Hm. specialize (Hm x Hx).
           apply orb_true_iff in Hm. destruct Hm as [Hm | Hm]; [auto|].
           right. apply N.eqb_eq. assumption.
        -- constructor; auto.
      * simpl. auto using isAlnum_not_hyphen.
      * rewrite app_comm_cons, last_last. auto using isAlnum_not_hyphen.
  - intros (Hne & Hall & Hhd & Hlast).
    destruct s as [|c t]; [congruence|]. exists c, t.
    split; [reflexivity|].
    inversion Hall as [|x l Hc Ht]; subst. simpl in Hhd.
    split; [destruct Hc; congruence|].
    destruct t as [|d m _] using rev_ind; [auto|].
    right. exists m, d. split; [reflexivity|].
    apply Forall_app in Ht. destruct Ht as [Hm Hd].
    rewrite app_comm_cons, last_last in Hlast.
    split.
    + apply forallb_forall. intros x Hx.
      rewrite Forall_forall in Hm. destruct (Hm x Hx) as [Hx' | ->].
      * rewrite Hx'. reflexivity.
      * apply orb_true_r.
    + inversion Hd as [|y l' Hd' _]; subst. destruct Hd'; congruence.
Qed.

Lemma test_orgNamePattern_spec (s : jsstring) :
  test orgNamePattern s = test specOrgNameShape s.
Proof.
  apply eq_iff_eq_true.
  rewrite !test_Lang, Lang_orgNamePattern, Lang_specOrgNameShape. tauto.
Qed.

(** C8, as amended.  [isValidOrgName] is false on anything that is not a
    string; on a string it holds exactly when the value, trimmed first
    and sanitized second (with no further trimming), matches
    [^[A-Za-z0-9]([A-Za-z0-9-]*[A-Za-z0-9])?$]; the empty string is
    rejected; and the pattern accepts exactly the non-empty words of
    letters, digits and hyphens with no hyphen at either end, words of one
    letter or digit included. *)
Theorem isValidOrgName_trim_then_sanitize :
  forall v : JsValue,
    isValidOrgName v =
      match v with
      | JsStr n => test specOrgNameShape (sanitizeString (JsStr (trim n)))
      | _ => false
      end
    /\ isValidOrgName (JsStr []) = false
    /\ (forall s, test specOrgNameShape s = true <-> orgNameShape s)
    /\ (forall c, test specOrgNameShape [c] = isAlnum c).
Proof.
  intro v. split; [|split; [|split]].
  - destruct v as [| | | |n|]; try reflexivity.
    unfold isValidOrgName. destruct n as [|c n].
    + reflexivity.
    + cbn [truthy negb]. apply test_orgNamePattern_spec.
  - reflexivity.
  - intro s. rewrite test_Lang, Lang_specOrgNameShape.
    apply headBodyTail_orgNameShape.
  - intro c. apply eq_iff_eq_true.
    rewrite test_Lang, Lang_specOrgNameShape. unfold headBodyTail. split.
    + intros (d & t & Heq & Hd & _). inversion Heq; subst. assumption.
    + intro Hc. exists c, []. auto.
Qed.

(** C8: the specification's wording fails.  On the name made of a
    less-than sign, a space and the letters abc the code answers false;
    in the order of the specification (sanitize, then trim, then match)
    the answer is true. *)
Lemma isValidOrgName_sanitize_then_trim_differs :
  isValidOrgName (JsStr (lit "< abc")) = false
  /\ specIsValidOrgName (lit "< abc") = true
  /\ ~ (isValidOrgName (JsStr (lit "< abc")) = true
        <-> test specOrgNameShape
              (trim (sanitizeString (JsStr (lit "< abc")))) = true).
Proof.
  split; [reflexivity|]. split; [reflexivity|].
  intros [_ H]. specialize (H eq_refl). discriminate.
Qed.

(** ** Stage gating and the stored credentials *)

Lemma isValidOrgName_nonempty (s : jsstring) :
  isValidOrgName (JsStr s) = true -> s <> [].
Proof. intros H ->. discriminate. Qed.

Lemma isValidToken_nonempty (s : jsstring) :
  isValidToken (JsStr s) = true -> s <> [].
Proof. intros H ->. discriminate. Qed.

Lemma truthy_JsStr (s : jsstring) : truthy (JsStr s) = true <-> s <> [].
Proof.
  destruct s; simpl; split; congruence.
Qed.

(** C10. Whatever the two fields hold and whatever the session was,
    after [validateInputs] the stored organization name is empty or
    passes [isValidOrgName], and the stored token is empty or passes
    [isValidToken]: a value is stored only when its validator accepts it,
    and nothing else of the session changes. *)
Theorem validateInputs_stores_only_valid :
  forall (orgNameInput authTokenInput : jsstring) (s : AppState),
    let s' := validateInputs orgNameInput authTokenInput s in
    (orgName s' = [] \/ isValidOrgName (JsStr (orgName s')) = true)
    /\ (authToken s' = [] \/ isValidToken (JsStr (authToken s')) = true)
    /\ (isValidOrgName (JsStr (sanitizeString (JsStr (trim orgNameInput))))
        = false <-> orgName s' = [])
    /\ (isValidToken (JsStr (trim authTokenInput)) = false
        <-> authToken s' = [])
    /\ selectedUseCase s' = selectedUseCase s
    /\ selectionMethod s' = selectionMethod s
    /\ selectedRepos s' = selectedRepos s.
Proof.
  intros o t s. cbv zeta. unfold validateInputs. cbn [orgName authToken
    set_credentials selectedUseCase selectionMethod selectedRepos].
  destruct (isValidOrgName (JsStr (sanitizeString (JsStr (trim o))))) eqn:Ho;
  destruct (isValidToken (JsStr (trim t))) eqn:Ht;
  repeat split; auto; intros; try discriminate;
  try (exfalso; eapply isValidOrgName_nonempty; eassumption);
  try (exfalso; eapply isValidToken_nonempty; eassumption).
Qed.

Lemma canNavigateToStep3_truthy (s : AppState) :
  truthy (canNavigateToStep s 3)
  = useCaseSelected s && truthy (JsStr (orgName s))
    && truthy (JsStr (authToken s)).
Proof.
  unfold canNavigateToStep, useCaseSelected, jsAnd, useCaseValue.
  simpl Nat.eqb. cbv iota.
  destruct (selectedUseCase s) as [[|c u]|];
    destruct (orgName s); destruct (authToken s); reflexivity.
Qed.

Lemma accepted_truthy_valid (v : JsValue -> bool) (x : jsstring) :
  v (JsStr []) = false ->
  (x = [] \/ v (JsStr x) = true) ->
  truthy (JsStr x) = v (JsStr x).
Proof.
  intros Hv [-> | H].
  - rewrite Hv. reflexivity.
  - rewrite H. apply truthy_JsStr. intros ->. congruence.
Qed.

(** C4. On every session whose credentials obey the data model (each
    field empty or accepted by its validator), entering stage 3 is allowed
    exactly when a use case is selected and the organization name and the
    token are both valid; so it is refused whenever either is empty or
    invalid, whatever the use case and the repository selection are.  In
    particular this is the verdict right after [validateInputs] has
    processed the current contents of the two fields, from any session. *)
Theorem canNavigateToStep3_iff_valid_credentials :
  forall s : AppState,
    credentialsAccepted s ->
    truthy (canNavigateToStep s 3)
      = useCaseSelected s
        && isValidOrgName (JsStr (orgName s))
        && isValidToken (JsStr (authToken s))
    /\ (forall orgNameInput authTokenInput,
          let s' := validateInputs orgNameInput authTokenInput s in
          truthy (canNavigateToStep s' 3)
          = useCaseSelected s
            && isValidOrgName
                 (JsStr (sanitizeString (JsStr (trim orgNameInput))))
            && isValidToken (JsStr (trim authTokenInput))).
Proof.
  intros s [Ho Ht]. split.
  - rewrite canNavigateToStep3_truthy.
    rewrite (@accepted_truthy_valid isValidOrgName (orgName s) eq_refl Ho).
    rewrite (@accepted_truthy_valid isValidToken (authToken s) eq_refl Ht).
    reflexivity.
  - intros o t. cbv zeta. rewrite canNavigateToStep3_truthy.
    unfold validateInputs, useCaseSelected, useCaseValue.
    cbn [orgName authToken set_credentials selectedUseCase].
    destruct (isValidOrgName (JsStr (sanitizeString (JsStr (trim o)))))
      eqn:Hvo;
    destruct (isValidToken (JsStr (trim t))) eqn:Hvt;
    rewrite ?andb_true_r, ?andb_false_r; try reflexivity.
    apply isValidOrgName_nonempty, truthy_JsStr in Hvo.
    apply isValidToken_nonempty, truthy_JsStr in Hvt.
    rewrite Hvo, Hvt, !andb_true_r. reflexivity.
Qed.

(** ** The API gateway *)

(** C9. With no token in the session (the field is the empty string),
    [githubAPI] and [githubGraphQL] both throw the [APIError] of status
    401 and leave the world as it was: no request has been sent. *)
Theorem api_calls_fail_fast_without_token :
  forall (env : Env) (T : Type)
         (serve : list Event -> Request -> FetchOutcome T)
         (endpoint : Request) (query variables : jsstring) (w : World),
    authToken (appState w) = [] ->
    APIUtils.githubAPI serve endpoint w
      = (Thrown (APIError (lit "Authentication token required") 401 None), w)
    /\ APIUtils.githubGraphQL env query variables w
      = (Thrown (APIError (lit "Authentication token required") 401 None), w).
Proof.
  intros env T serve endpoint query variables w Htok.
  unfold APIUtils.githubAPI, APIUtils.githubGraphQL, bind, getState.
  rewrite Htok. split; reflexivity.
Qed.

(** ** Framing: what a computation leaves alone *)

Section Frame.
Variable R : World -> World -> Prop.
Hypothesis R_refl : forall w, R w w.
Hypothesis R_trans : forall a b c, R a b -> R b c -> R a c.

Lemma keeps_ret {A} (a : A) : keeps R (ret a).
Proof. intro w. apply R_refl. Qed.

Lemma keeps_throw {A} (e : JsError) : keeps R (@throw A e).
Proof. intro w. apply R_refl. Qed.

Lemma keeps_outOfFuel {A} : keeps R (@outOfFuel A).
Proof. intro w. apply R_refl. Qed.

Lemma keeps_getState : keeps R getState.
Proof. intro w. apply R_refl. Qed.

Lemma keeps_getCache : keeps R getCache.
Proof. intro w. apply R_refl. Qed.

Lemma keeps_bind {A B} (m : M A) (k : A -> M B) :
  keeps R m -> (forall a, keeps R (k a)) -> keeps R (bind m k).
Proof.
  intros Hm Hk w. unfold bind. specialize (Hm w).
  destruct (m w) as [[a| e |] w1]; simpl in *; try assumption.
  eapply R_trans; [eassumption | apply Hk].
Qed.

Lemma keeps_tryCatch {A} (m : M A) (h : JsError -> M A) :
  keeps R m -> (forall e, keeps R (h e)) -> keeps R (tryCatch m h).
Proof.
  intros Hm Hh w. unfold tryCatch. specialize (Hm w).
  destruct (m w) as [[a| e |] w1]; simpl in *; try assumption.
  eapply R_trans; [eassumption | apply Hh].
Qed.

Lemma keeps_if {A} (b : bool) (m1 m2 : M A) :
  keeps R m1 -> keeps R m2 -> keeps R (if b then m1 else m2).
Proof. destruct b; auto. Qed.

Section Emit.
Hypothesis R_fetch : forall r ok w, R w (emit (EvFetch r ok) w).
Hypothesis R_log : forall l m e c w, R w (emit (EvLog l m e c) w).

Lemma keeps_log (l : LogLevel) (m : jsstring) (e : option JsError)
      (c : list (string * LogValue)) : keeps R (tell (EvLog l m e c)).
Proof. intro w. apply R_log. Qed.

Lemma keeps_info (m : jsstring) (c : list (string * LogValue)) :
  keeps R (Logger.info m c).
Proof. apply keeps_log. Qed.

Lemma keeps_warn (m : jsstring) (c : list (string * LogValue)) :
  keeps R (Logger.warn m c).
Proof. apply keeps_log. Qed.

Lemma keeps_error (m : jsstring) (e : option JsError)
      (c : list (string * LogValue)) : keeps R (Logger.error m e c).
Proof. apply keeps_log. Qed.

Lemma keeps_secureFetch {T} (serve : list Event -> Request -> FetchOutcome T)
      (req : Request) : keeps R (APIUtils.secureFetch serve req).
Proof.
  intro w. unfold APIUtils.secureFetch.
  destruct (serve (events w) req); apply R_fetch.
Qed.

Lemma keeps_githubAPI {T} (serve : list Event -> Request -> FetchOutcome T)
      (req : Request) : keeps R (APIUtils.githubAPI serve req).
Proof.
  unfold APIUtils.githubAPI. apply keeps_bind; [apply keeps_getState|].
  intro st. apply keeps_if; [apply keeps_throw | apply keeps_secureFetch].
Qed.

Lemma keeps_fetch {T} (serve : list Event -> Request -> FetchOutcome T)
      (req : Request) : keeps R (APIUtils.fetch serve req).
Proof.
  intro w. unfold APIUtils.fetch.
  destruct (serve (events w) req); apply R_fetch.
Qed.

End Emit.
End Frame.

Lemma sameStore_refl (w : World) : sameStore w w.
Proof. split; reflexivity. Qed.

Lemma sameStore_trans (a b c : World) :
  sameStore a b -> sameStore b c -> sameStore a c.
Proof. intros [H1 H2] [H3 H4]. split; congruence. Qed.

Lemma sameStore_emit (e : Event) (w : World) : sameStore w (emit e w).
Proof. split; reflexivity. Qed.

(** ** Loading the repository catalog *)

Arguments APP_CONFIG.MAX_ITEMS : simpl never.

Lemma MAX_ITEMS_value : APP_CONFIG.MAX_ITEMS = 50 * 100.
Proof. reflexivity. Qed.

Lemma fetchesOf_app (a b : list Event) :
  fetchesOf (a ++ b) = fetchesOf a ++ fetchesOf b.
Proof. unfold fetchesOf. apply flat_map_app. Qed.

Lemma loadAllRepositories_loop_unfold (env : Env) (fuel : nat)
      (acc : list Repo) (page : nat) :
  loadAllRepositories_loop env fuel acc page =
  if negb (List.length acc <? APP_CONFIG.MAX_ITEMS) then ret acc
  else
    match fuel with
    | O => outOfFuel
    | S fuel' =>
        step <- tryCatch
          (st <- getState ;;
           repos <- APIUtils.githubAPI (serveRepos env)
                      (ReqOrgReposPage (orgName st) perPage page) ;;
           if List.length repos =? 0 then ret (Break (acc, page))
           else
             let allRepos' := acc ++ repos in
             let page' := page + 1 in
             if List.length repos <? perPage then
               ret (Break (allRepos', page'))
             else
               (if List.length allRepos' <? APP_CONFIG.MAX_ITEMS
                then delay (APP_CONFIG.RATE_LIMIT_DELAY / 2)
                else ret tt) ;;
               ret (Continue (allRepos', page')))
          (fun error =>
             Logger.warn (lit "Failed to load repository page")
               [("page"%string, LNum page);
                ("error"%string, LStr (errorMessage error))] ;;
             ret (Break (acc, page))) ;;
        match step with
        | Break (allRepos', _) => ret allRepos'
        | Continue (allRepos', page') =>
            loadAllRepositories_loop env fuel' allRepos' page'
        end
    end.
Proof. destruct fuel; reflexivity. Qed.

(** One turn of the loop below the cap, with a token in the session. *)
Lemma loadAllRepositories_loop_turn (env : Env) (fuel : nat)
      (acc : list Repo) (page : nat) (w : World) :
  List.length acc < APP_CONFIG.MAX_ITEMS ->
  authToken (appState w) <> [] ->
  let req := ReqOrgReposPage (orgName (appState w)) 100 page in
  let answer := serveRepos env (events w) req in
  let w1 := emit (EvFetch req (isOk answer)) w in
  match answer with
  | HttpOk repos =>
      loadAllRepositories_loop env (S fuel) acc page w =
      if List.length repos =? 0 then (Returned acc, w1)
      else if List.length repos <? 100 then (Returned (acc ++ repos), w1)
      else loadAllRepositories_loop env fuel (acc ++ repos) (page + 1)
             (if List.length (acc ++ repos) <? APP_CONFIG.MAX_ITEMS
              then emit (EvDelay (APP_CONFIG.RATE_LIMIT_DELAY / 2)) w1
              else w1)
  | _ =>
      exists e,
      loadAllRepositories_loop env (S fuel) acc page w =
      (Returned acc,
       emit (EvLog WARN (lit "Failed to load repository page") None
               [("page"%string, LNum page); ("error"%string, LStr e)]) w1)
  end.
Proof.
  intros Hlen Htok req answer w1.
  apply Nat.ltb_lt in Hlen.
  rewrite loadAllRepositories_loop_unfold, Hlen.
  cbn [negb].
  unfold bind, tryCatch, getState, APIUtils.githubAPI, bind, getState.
  cbv beta iota.
  apply truthy_JsStr in Htok. rewrite Htok. cbn [negb].
  unfold APIUtils.secureFetch, perPage.
  fold req. fold answer. fold w1.
  destruct answer as [repos | status statusText | | message]; cbv beta iota zeta.
  - destruct (List.length repos =? 0); [reflexivity|].
    destruct (List.length repos <? 100); [reflexivity|].
    unfold bind, delay, tell, ret.
    destruct (List.length (acc ++ repos) <? APP_CONFIG.MAX_ITEMS); reflexivity.
  - eexists. reflexivity.
  - eexists. reflexivity.
  - eexists. reflexivity.
Qed.

(** Without a token the request is refused before it is sent. *)
Lemma loadAllRepositories_loop_no_token (env : Env) (fuel : nat)
      (acc : list Repo) (page : nat) (w : World) :
  List.length acc < APP_CONFIG.MAX_ITEMS ->
  authToken (appState w) = [] ->
  loadAllRepositories_loop env (S fuel) acc page w =
  (Returned acc,
   emit (EvLog WARN (lit "Failed to load repository page") None
           [("page"%string, LNum page);
            ("error"%string, LStr (lit "Authentication token required"))]) w).
Proof.
  intros Hlen Htok. apply Nat.ltb_lt in Hlen.
  rewrite loadAllRepositories_loop_unfold, Hlen. cbn [negb].
  unfold bind, tryCatch, getState, APIUtils.githubAPI, bind, getState.
  rewrite Htok. reflexivity.
Qed.

Lemma loadAllRepositories_loop_at_cap (env : Env) (fuel : nat)
      (acc : list Repo) (page : nat) (w : World) :
  APP_CONFIG.MAX_ITEMS <= List.length acc ->
  loadAllRepositories_loop env fuel acc page w = (Returned acc, w).
Proof.
  intro Hlen. apply Nat.ltb_ge in Hlen.
  rewrite loadAllRepositories_loop_unfold, Hlen. reflexivity.
Qed.

Lemma pageRequests_cons (org : jsstring) (p : nat) (b : bool)
      (oks : list bool) :
  pageRequests org p (b :: oks)
  = (ReqOrgReposPage org 100 p, b) :: pageRequests org (S p) oks.
Proof. reflexivity. Qed.

Lemma okUntilLast_nil : okUntilLast [].
Proof. intros i Hi. simpl in Hi. lia. Qed.

Lemma okUntilLast_one (b : bool) : okUntilLast [b].
Proof. intros i Hi. simpl in Hi. lia. Qed.

Lemma okUntilLast_cons (oks : list bool) :
  okUntilLast oks -> okUntilLast (true :: oks).
Proof.
  intros H [|i] Hi; [reflexivity|]. simpl in *. apply H. lia.
Qed.

Lemma loadAllRepositories_loop_spec (env : Env) :
  forall fuel acc page w,
    APP_CONFIG.MAX_ITEMS - List.length acc < fuel ->
    exists more oks w',
      loadAllRepositories_loop env fuel acc page w
        = (Returned (acc ++ more), w')
      /\ sameStore w w'
      /\ fetchesOf (events w')
         = fetchesOf (events w)
           ++ pageRequests (orgName (appState w)) page oks
      /\ okUntilLast oks.
Proof.
  induction fuel as [|fuel IH]; intros acc page w Hfuel; [lia|].
  destruct (Nat.lt_ge_cases (List.length acc) APP_CONFIG.MAX_ITEMS)
    as [Hlen | Hlen].
  2:{ rewrite loadAllRepositories_loop_at_cap by assumption.
      exists [], [], w. rewrite !app_nil_r.
      repeat split. apply okUntilLast_nil. }
  destruct (authToken (appState w)) as [|c tok] eqn:Htok.
  { rewrite loadAllRepositories_loop_no_token by assumption.
    exists [], []. eexists. rewrite app_nil_r.
    split; [reflexivity|]. repeat split.
    - cbn [events emit]. rewrite fetchesOf_app. reflexivity.
    - apply okUntilLast_nil. }
  assert (Hne : authToken (appState w) <> []) by (rewrite Htok; discriminate).
  pose proof (loadAllRepositories_loop_turn env fuel acc page w Hlen Hne) as Hturn.
  cbv zeta in Hturn.
  set (req := ReqOrgReposPage (orgName (appState w)) 100 page) in *.
  assert (Hstop : forall (l : list Repo) msg ctx ok,
    exists more oks w',
      (Returned l, emit (EvLog WARN msg None ctx) (emit (EvFetch req ok) w))
      = (Returned (l ++ more), w')
      /\ sameStore w w'
      /\ fetchesOf (events w')
         = fetchesOf (events w)
           ++ pageRequests (orgName (appState w)) page oks
      /\ okUntilLast oks).
  { intros l msg ctx ok. exists [], [ok]. eexists. rewrite app_nil_r.
    split; [reflexivity|]. repeat split.
    - cbn [events emit]. rewrite !fetchesOf_app.
      cbn. rewrite app_nil_r. reflexivity.
    - apply okUntilLast_one. }
  destruct (serveRepos env (events w) req) as [repos| status txt | | msg].
  - cbn [isOk] in Hturn. rewrite Hturn. clear Hturn.
    destruct (List.length repos =? 0) eqn:Hzero.
    { exists [], [true]. eexists. rewrite app_nil_r.
      split; [reflexivity|]. repeat split.
      - cbn [events emit isOk]. rewrite fetchesOf_app. reflexivity.
      - apply okUntilLast_one. }
    destruct (List.length repos <? 100) eqn:Hshort.
    { exists repos, [true]. eexists.
      split; [reflexivity|]. repeat split.
      - cbn [events emit isOk]. rewrite fetchesOf_app. reflexivity.
      - apply okUntilLast_one. }
    apply Nat.ltb_ge in Hshort.
    match goal with
    | |- context [loadAllRepositories_loop env fuel _ _ ?w2] =>
        set (w2' := w2)
    end.
    assert (Hw2 : sameStore w w2'
                  /\ fetchesOf (events w2')
                     = fetchesOf (events w) ++ [(req, true)]).
    { subst w2'.
      destruct (List.length (acc ++ repos) <? APP_CONFIG.MAX_ITEMS);
        cbn [events emit isOk appState cache]; rewrite ?fetchesOf_app;
        cbn [fetchesOf flat_map app]; rewrite ?app_nil_r;
        (split; [split; reflexivity | reflexivity]). }
    destruct Hw2 as [[Hst Hca] Hfe].
    destruct (IH (acc ++ repos) (page + 1) w2')
      as (more & oks & w' & Hrun & Hsame & Hfetch & Hok).
    { rewrite length_app. lia. }
    exists (repos ++ more), (true :: oks), w'.
    rewrite app_assoc. split; [assumption|]. split.
    { destruct Hsame as [H1 H2]. split; congruence. }
    split; [|apply okUntilLast_cons; assumption].
    rewrite Hfetch, Hfe, Hst, pageRequests_cons, <- app_assoc.
    rewrite Nat.add_1_r. reflexivity.
  - destruct Hturn as [e ->]. apply Hstop.
  - destruct Hturn as [e ->]. apply Hstop.
  - destruct Hturn as [e ->]. apply Hstop.
Qed.

Lemma loadAllRepositories_loop_full_page (env : Env) (fuel : nat)
      (acc repos : list Repo) (page : nat) (w : World) :
  List.length acc < APP_CONFIG.MAX_ITEMS ->
  authToken (appState w) <> [] ->
  serveRepos env (events w) (ReqOrgReposPage (orgName (appState w)) 100 page)
    = HttpOk repos ->
  100 <= List.length repos ->
  loadAllRepositories_loop env (S fuel) acc page w =
  loadAllRepositories_loop env fuel (acc ++ repos) (page + 1)
    (if List.length (acc ++ repos) <? APP_CONFIG.MAX_ITEMS
     then emit (EvDelay (APP_CONFIG.RATE_LIMIT_DELAY / 2))
            (emit (EvFetch (ReqOrgReposPage (orgName (appState w)) 100 page)
                           true) w)
     else emit (EvFetch (ReqOrgReposPage (orgName (appState w)) 100 page)
                        true) w).
Proof.
  intros Hlen Htok Hans Hfull.
  pose proof (loadAllRepositories_loop_turn env fuel acc page w Hlen Htok)
    as Hturn.
  cbv zeta in Hturn. rewrite Hans in Hturn. cbn [isOk] in Hturn.
  rewrite Hturn.
  destruct (Nat.eqb_spec (List.length repos) 0) as [H0|_]; [lia|].
  destruct (Nat.ltb_spec (List.length repos) 100) as [H1|_]; [lia|].
  reflexivity.
Qed.

Lemma loadAllRepositories_loop_short_page (env : Env) (fuel : nat)
      (acc repos : list Repo) (page : nat) (w : World) :
  List.length acc < APP_CONFIG.MAX_ITEMS ->
  authToken (appState w) <> [] ->
  serveRepos env (events w) (ReqOrgReposPage (orgName (appState w)) 100 page)
    = HttpOk repos ->
  List.length repos < 100 ->
  loadAllRepositories_loop env (S fuel) acc page w =
  (Returned (acc ++ repos),
   emit (EvFetch (ReqOrgReposPage (orgName (appState w)) 100 page) true) w).
Proof.
  intros Hlen Htok Hans Hshort.
  pose proof (loadAllRepositories_loop_turn env fuel acc page w Hlen Htok)
    as Hturn.
  cbv zeta in Hturn. rewrite Hans in Hturn. cbn [isOk] in Hturn.
  rewrite Hturn.
  destruct (Nat.eqb_spec (List.length repos) 0) as [H0|_].
  - apply length_zero_iff_nil in H0. subst repos. rewrite app_nil_r.
    reflexivity.
  - destruct (Nat.ltb_spec (List.length repos) 100) as [_|H1]; [|lia].
    reflexivity.
Qed.

Lemma loadAllRepositories_loop_error (env : Env) (fuel : nat)
      (acc : list Repo) (page : nat) (w : World) :
  List.length acc < APP_CONFIG.MAX_ITEMS ->
  authToken (appState w) <> [] ->
  isOk (serveRepos env (events w)
          (ReqOrgReposPage (orgName (appState w)) 100 page)) = false ->
  exists w',
    loadAllRepositories_loop env (S fuel) acc page w = (Returned acc, w')
    /\ fetchesOf (events w')
       = fetchesOf (events w)
         ++ [(ReqOrgReposPage (orgName (appState w)) 100 page, false)].
Proof.
  intros Hlen Htok Hans.
  pose proof (loadAllRepositories_loop_turn env fuel acc page w Hlen Htok)
    as Hturn.
  cbv zeta in Hturn.
  destruct (serveRepos env (events w)
              (ReqOrgReposPage (orgName (appState w)) 100 page));
    [discriminate | | |];
    destruct Hturn as [e ->]; eexists; (split; [reflexivity|]);
    cbn [events emit isOk]; rewrite !fetchesOf_app; cbn;
    rewrite app_nil_r; reflexivity.
Qed.

Lemma length_pageOf {A} (per_page p : nat) (l : list A) :
  List.length (pageOf per_page p l)
  = Nat.min per_page (List.length l - (p - 1) * per_page).
Proof. unfold pageOf. rewrite length_firstn, length_skipn. reflexivity. Qed.

Lemma three_pages_cover {A} (n : nat) (l : list A) :
  List.length l <= 3 * n ->
  (pageOf n 1 l ++ pageOf n 2 l) ++ pageOf n 3 l = l.
Proof.
  intro H. unfold pageOf.
  replace ((1 - 1) * n) with 0 by lia.
  replace ((2 - 1) * n) with n by lia.
  replace ((3 - 1) * n) with (n + n) by lia.
  rewrite <- skipn_skipn.
  rewrite (firstn_all2 (n := n) (skipn n (skipn n l))).
  2:{ rewrite !length_skipn. lia. }
  rewrite <- app_assoc. rewrite (firstn_skipn n (skipn n l)).
  apply firstn_skipn.
Qed.

Lemma loadAllRepositories_loop_250 (env : Env) (l : list Repo) (w : World)
      (fuel : nat) :
  List.length l = 250 ->
  authToken (appState w) <> [] ->
  (forall evs p,
      serveRepos env evs (ReqOrgReposPage (orgName (appState w)) 100 p)
      = HttpOk (pageOf 100 p l)) ->
  exists w',
    loadAllRepositories_loop env (S (S (S fuel))) [] 1 w = (Returned l, w')
    /\ fetchesOf (events w')
       = fetchesOf (events w)
         ++ [(ReqOrgReposPage (orgName (appState w)) 100 1, true);
             (ReqOrgReposPage (orgName (appState w)) 100 2, true);
             (ReqOrgReposPage (orgName (appState w)) 100 3, true)].
Proof.
  intros Hl Htok Hserve.
  assert (Hp1 : List.length (pageOf 100 1 l) = 100)
    by (rewrite length_pageOf, Hl; reflexivity).
  assert (Hp2 : List.length (pageOf 100 2 l) = 100)
    by (rewrite length_pageOf, Hl; reflexivity).
  assert (Hp3 : List.length (pageOf 100 3 l) = 50)
    by (rewrite length_pageOf, Hl; reflexivity).
  assert (Hmax : 200 < APP_CONFIG.MAX_ITEMS)
    by (rewrite MAX_ITEMS_value; lia).
  rewrite (loadAllRepositories_loop_full_page env _ [] (pageOf 100 1 l) 1 w);
    [| simpl; lia | assumption | apply Hserve | lia].
  replace (List.length ([] ++ pageOf 100 1 l) <? APP_CONFIG.MAX_ITEMS)
    with true
    by (symmetry; apply Nat.ltb_lt; rewrite length_app, Hp1; simpl; lia).
  match goal with
  | |- context [loadAllRepositories_loop env _ _ _ ?w1] => set (w1' := w1)
  end.
  rewrite (loadAllRepositories_loop_full_page env _ _ (pageOf 100 2 l) _ w1');
    [| rewrite length_app, Hp1; simpl; lia | exact Htok | apply Hserve | lia].
  replace (List.length (([] ++ pageOf 100 1 l) ++ pageOf 100 2 l)
           <? APP_CONFIG.MAX_ITEMS)
    with true
    by (symmetry; apply Nat.ltb_lt; rewrite !length_app, Hp1, Hp2; simpl; lia).
  match goal with
  | |- context [loadAllRepositories_loop env _ _ _ ?w2] => set (w2' := w2)
  end.
  rewrite (loadAllRepositories_loop_short_page env _ _ (pageOf 100 3 l) _ w2');
    [| rewrite !length_app, Hp1, Hp2; simpl; lia | exact Htok
     | apply Hserve | lia].
  eexists. split.
  - f_equal. f_equal. rewrite app_nil_l. apply three_pages_cover. lia.
  - subst w2' w1'. cbn [events emit appState]. rewrite !fetchesOf_app.
    cbn. rewrite !app_nil_r, <- !app_assoc. reflexivity.
Qed.

Lemma loadRepositories_runs (env : Env) (w : World) :
  exists repos w1 w',
    loadAllRepositories env
      (emit (EvLog INFO (lit "Starting repository loading") None
               [("org"%string, LStr (orgName (appState w)))]) w)
    = (Returned repos, w1)
    /\ loadRepositories env w = (Returned tt, w')
    /\ appState w' = storeRepositories repos (appState w).
Proof.
  set (w0 := emit _ w).
  destruct (loadAllRepositories_loop_spec env (S APP_CONFIG.MAX_ITEMS) [] 1 w0)
    as (more & oks & w1 & Hrun & [Hst Hca] & _);
    [cbn [List.length]; rewrite MAX_ITEMS_value; lia|].
  cbn [app] in Hrun.
  exists more, w1. eexists. split; [exact Hrun|].
  unfold loadRepositories, tryCatch, bind, getState, Logger.info, tell.
  fold w0. unfold loadAllRepositories in *. rewrite Hrun.
  unfold modifyState.
  split; [reflexivity|].
  cbn [withAppState appState emit]. rewrite Hst. reflexivity.
Qed.

(** C3. Catalog loading always returns.  It asks for the pages 1, 2, ...
    with [per_page=100], and only the last request can have failed.  The
    loop entered with some repositories accumulated returns them with the
    later pages appended: below the cap and with a token in the session a
    failed request ends the loop with exactly what was accumulated, an
    empty page likewise, a page of fewer than 100 items is appended and
    ends the loop, a full page is appended and the next page is asked for;
    at 5000 or more accumulated items no request is sent.  The stored
    catalog is the first 5000 of the result at most.  For an organization
    of exactly 250 repositories served in pages of 100 the run is three
    requests, pages 1, 2 and 3, the third of 50 items, and the result is
    the 250 repositories. *)
Theorem loadAllRepositories_accumulates_pages :
  forall env : Env,
    (forall w, exists repos oks w',
        loadAllRepositories env w = (Returned repos, w')
        /\ sameStore w w'
        /\ fetchesOf (events w')
           = fetchesOf (events w)
             ++ pageRequests (orgName (appState w)) 1 oks
        /\ okUntilLast oks)
    /\ (forall fuel acc page w,
          APP_CONFIG.MAX_ITEMS - List.length acc < fuel ->
          exists more w',
            loadAllRepositories_loop env fuel acc page w
            = (Returned (acc ++ more), w'))
    /\ (forall fuel acc page w,
          List.length acc < APP_CONFIG.MAX_ITEMS ->
          authToken (appState w) <> [] ->
          let req := ReqOrgReposPage (orgName (appState w)) 100 page in
          (isOk (serveRepos env (events w) req) = false ->
           exists w',
             loadAllRepositories_loop env (S fuel) acc page w
             = (Returned acc, w')
             /\ fetchesOf (events w') = fetchesOf (events w) ++ [(req, false)])
          /\ (forall repos,
                serveRepos env (events w) req = HttpOk repos ->
                List.length repos < 100 ->
                loadAllRepositories_loop env (S fuel) acc page w
                = (Returned (acc ++ repos), emit (EvFetch req true) w))
          /\ (forall repos,
                serveRepos env (events w) req = HttpOk repos ->
                100 <= List.length repos ->
                loadAllRepositories_loop env (S fuel) acc page w
                = loadAllRepositories_loop env fuel (acc ++ repos) (page + 1)
                    (if List.length (acc ++ repos) <? APP_CONFIG.MAX_ITEMS
                     then emit (EvDelay (APP_CONFIG.RATE_LIMIT_DELAY / 2))
                            (emit (EvFetch req true) w)
                     else emit (EvFetch req true) w)))
    /\ (forall fuel acc page w,
          APP_CONFIG.MAX_ITEMS <= List.length acc ->
          loadAllRepositories_loop env fuel acc page w = (Returned acc, w))
    /\ (forall w, exists repos w1 w',
          loadAllRepositories env
            (emit (EvLog INFO (lit "Starting repository loading") None
                     [("org"%string, LStr (orgName (appState w)))]) w)
          = (Returned repos, w1)
          /\ loadRepositories env w = (Returned tt, w')
          /\ allRepos (appState w') = firstn APP_CONFIG.MAX_ITEMS repos
          /\ List.length (allRepos (appState w')) <= APP_CONFIG.MAX_ITEMS
          /\ Z.of_nat APP_CONFIG.MAX_ITEMS = 5000%Z)
    /\ (forall (l : list Repo) (w : World),
          List.length l = 250 ->
          authToken (appState w) <> [] ->
          (forall evs p,
              serveRepos env evs
                (ReqOrgReposPage (orgName (appState w)) 100 p)
              = HttpOk (pageOf 100 p l)) ->
          exists w',
            loadAllRepositories env w = (Returned l, w')
            /\ fetchesOf (events w')
               = fetchesOf (events w)
                 ++ [(ReqOrgReposPage (orgName (appState w)) 100 1, true);
                     (ReqOrgReposPage (orgName (appState w)) 100 2, true);
                     (ReqOrgReposPage (orgName (appState w)) 100 3, true)]
            /\ List.length (pageOf 100 3 l) = 50).
Proof.
  intro env. repeat apply conj.
  - intro w.
    destruct (loadAllRepositories_loop_spec env (S APP_CONFIG.MAX_ITEMS)
                [] 1 w) as (more & oks & w' & Hrun & Hsame & Hfetch & Hok).
    { cbn [List.length]. rewrite MAX_ITEMS_value. lia. }
    exists more, oks, w'. auto.
  - intros fuel acc page w Hfuel.
    destruct (loadAllRepositories_loop_spec env fuel acc page w Hfuel)
      as (more & oks & w' & Hrun & _).
    exists more, w'. assumption.
  - intros fuel acc page w Hlen Htok req. repeat apply conj.
    + apply loadAllRepositories_loop_error; assumption.
    + intros repos Hans Hshort.
      apply loadAllRepositories_loop_short_page; assumption.
    + intros repos Hans Hfull.
      apply loadAllRepositories_loop_full_page; assumption.
  - intros fuel acc page w Hlen.
    apply loadAllRepositories_loop_at_cap. assumption.
  - intro w.
    destruct (loadRepositories_runs env w)
      as (repos & w1 & w' & Hload & Hrun & Hst).
    exists repos, w1, w'. repeat apply conj; try assumption.
    + rewrite Hst. reflexivity.
    + rewrite Hst. cbn [storeRepositories allRepos set_reposPagination
                        set_allRepos].
      apply firstn_le_length.
    + reflexivity.
  - intros l w Hl Htok Hserve.
    destruct (loadAllRepositories_loop_250 env l w
                (APP_CONFIG.MAX_ITEMS - 2) Hl Htok Hserve)
      as (w' & Hrun & Hfetch).
    assert (Hf : S APP_CONFIG.MAX_ITEMS
                 = S (S (S (APP_CONFIG.MAX_ITEMS - 2))))
      by (rewrite MAX_ITEMS_value; lia).
    exists w'. split; [|split].
    + unfold loadAllRepositories. rewrite Hf. exact Hrun.
    + exact Hfetch.
    + rewrite length_pageOf, Hl. reflexivity.
Qed.

(** ** Filtering and the pagination views *)

Lemma ceilDiv_bounds (n d : nat) :
  0 < d -> n <= ceilDiv n d * d /\ ceilDiv n d * d < n + d.
Proof.
  intro Hd. unfold ceilDiv.
  pose proof (Nat.div_mod_eq (n + d - 1) d) as Hdm.
  pose proof (Nat.mod_upper_bound (n + d - 1) d) as Hub.
  assert (Hr : (n + d - 1) mod d < d) by (apply Hub; lia).
  nia.
Qed.

Lemma ceilDiv_zero (d : nat) : ceilDiv 0 d = 0.
Proof.
  unfold ceilDiv. destruct d as [|d]; [reflexivity|].
  apply Nat.div_small. lia.
Qed.

Lemma viewRecomputed_intro {A} (p : Pagination A) :
  0 < itemsPerPage p ->
  currentPage p = 1 ->
  totalPages p = ceilDiv (List.length (filteredItems p)) (itemsPerPage p) ->
  viewRecomputed p.
Proof.
  intros Hd Hc Ht. unfold viewRecomputed.
  destruct (ceilDiv_bounds (List.length (filteredItems p)) (itemsPerPage p) Hd).
  rewrite Ht. auto.
Qed.

(** A recomputed view satisfies the invariant exactly when it is not
    empty; an empty one has zero pages. *)
Lemma viewRecomputed_invariant {A} (p : Pagination A) :
  viewRecomputed p ->
  (filteredItems p <> [] -> pageInvariant p)
  /\ (filteredItems p = [] -> totalPages p = 0 /\ ~ pageInvariant p).
Proof.
  intros (Hc & Ht & Hlo & Hhi). unfold pageInvariant. split.
  - intro Hne. destruct (filteredItems p) as [|x l]; [congruence|].
    simpl in Hlo. rewrite Hc. destruct (totalPages p); simpl in *; lia.
  - intro Hnil. rewrite Hnil in *. simpl in *.
    rewrite ceilDiv_zero in Ht. rewrite Ht, Hc. lia.
Qed.

Lemma filterRepos_run (env : Env) (toLowerCase : jsstring -> jsstring)
      (searchInput : jsstring) (w : World) :
  let term := sanitizeString (JsStr (trim (toLowerCase searchInput))) in
  let w0 :=
    withAppState
      (fun s => set_reposPagination
                  (set_searchTerm term (reposPagination s)) s) w in
  let localMatches := localRepoMatches toLowerCase term (appState w0) in
  let finish (filtered : list Repo) (w2 : World) : Outcome unit * World :=
    (Returned tt,
     withAppState resetReposPage
       (withAppState
          (fun s => set_reposPagination
                      (set_filteredItems filtered (reposPagination s)) s)
          w2)) in
  filterRepos env toLowerCase searchInput w =
  if negb (truthy (JsStr term)) then finish (allRepos (appState w0)) w0
  else if (List.length localMatches <? 10) && (2 <=? List.length term) then
    match getCached env
            (lit "search_" ++ orgName (appState w0) ++ lit "_" ++ term)
            (searchRepositoriesAPI env term) 60000 w0 with
    | (Returned apiMatches, w1) =>
        finish (mergeMatches localMatches apiMatches) w1
    | (Thrown e, w1) =>
        finish localMatches
          (emit (EvLog WARN
                   (lit "API search failed, using local results only") None
                   [("error"%string, LStr (errorMessage e))]) w1)
    | (Unfinished, w1) => (Unfinished, w1)
    end
  else finish localMatches w0.
Proof.
  cbv zeta. unfold filterRepos.
  set (term := sanitizeString (JsStr (trim (toLowerCase searchInput)))).
  unfold bind at 1. unfold modifyState at 1.
  set (w0 := withAppState _ w).
  unfold bind at 1. unfold getState at 1.
  unfold bind at 1.
  destruct (negb (truthy (JsStr term))).
  - reflexivity.
  - destruct ((List.length (localRepoMatches toLowerCase term (appState w0))
               <? 10) && (2 <=? List.length term)).
    + unfold tryCatch, bind, setFilteredRepos, modifyState, Logger.warn, tell.
      destruct (getCached env _ _ _ w0) as [[api | e |] w1]; reflexivity.
    + reflexivity.
Qed.

Lemma quiet_refl (w : World) : quiet w w.
Proof. split; reflexivity. Qed.

Lemma quiet_trans (a b c : World) : quiet a b -> quiet b c -> quiet a c.
Proof. intros [H1 H2] [H3 H4]. split; congruence. Qed.

Lemma alertsOf_app (a b : list Event) :
  alertsOf (a ++ b) = alertsOf a ++ alertsOf b.
Proof. unfold alertsOf. apply flat_map_app. Qed.

Lemma quiet_fetch (r : Request) (ok : bool) (w : World) :
  quiet w (emit (EvFetch r ok) w).
Proof.
  split; [reflexivity|]. cbn [events emit]. rewrite alertsOf_app.
  apply app_nil_r.
Qed.

Lemma quiet_log (l : LogLevel) (m : jsstring) (e : option JsError)
      (c : list (string * LogValue)) (w : World) :
  quiet w (emit (EvLog l m e c) w).
Proof.
  split; [reflexivity|]. cbn [events emit]. rewrite alertsOf_app.
  apply app_nil_r.
Qed.

(** Discharges a [keeps] goal along the structure of the computation, from
    the proofs that the relation is reflexive, transitive and kept by the
    emission of requests and of log entries. *)
Ltac frame refl trans fetch log :=
  repeat first
    [ apply (keeps_bind _ trans); [| intro ]
    | apply (keeps_tryCatch _ trans); [| intro ]
    | apply (keeps_ret _ refl)
    | apply (keeps_throw _ refl)
    | apply (keeps_outOfFuel _ refl)
    | apply (keeps_getState _ refl)
    | apply (keeps_getCache _ refl)
    | apply (keeps_githubAPI _ refl trans fetch)
    | apply (keeps_secureFetch _ fetch)
    | apply (keeps_fetch _ fetch)
    | apply (keeps_info _ log)
    | apply (keeps_warn _ log)
    | apply (keeps_error _ log)
    | apply (keeps_log _ log)
    | match goal with
      | |- keeps _ (match ?x with _ => _ end) => destruct x
      | |- keeps _ (if ?b then _ else _) => destruct b
      end ].

Lemma quiet_searchRepositoriesAPI (env : Env) (term : jsstring) :
  keeps quiet (searchRepositoriesAPI env term).
Proof.
  unfold searchRepositoriesAPI.
  frame quiet_refl quiet_trans quiet_fetch quiet_log.
Qed.

Lemma quiet_getCached (env : Env) (key : jsstring) (fetchFn : M (list Repo))
      (ttl : Z) :
  keeps quiet fetchFn -> keeps quiet (getCached env key fetchFn ttl).
Proof.
  intros Hf w. unfold getCached, bind, getCache, dateNow, ret, putCache,
    Logger.info, tell.
  destruct (cacheGet key (cache w)) as [cached|].
  - destruct (now env (events w) - cache_timestamp cached <? ttl)%Z.
    + apply quiet_log.
    + specialize (Hf w). destruct (fetchFn w) as [[data | e |] w1];
        cbn [snd] in *; try assumption.
      eapply quiet_trans; [eassumption|].
      eapply quiet_trans; [|apply quiet_log]. split; reflexivity.
  - specialize (Hf w). destruct (fetchFn w) as [[data | e |] w1];
      cbn [snd] in *; try assumption.
    eapply quiet_trans; [eassumption|].
    eapply quiet_trans; [|apply quiet_log]. split; reflexivity.
Qed.

Lemma finishes_searchRepositoriesAPI (env : Env) (term : jsstring) :
  finishes (searchRepositoriesAPI env term).
Proof.
  intro w. unfold searchRepositoriesAPI, tryCatch, bind, getState,
    APIUtils.githubAPI, bind, getState, APIUtils.secureFetch, throw,
    Logger.error, tell, ret.
  destruct (negb (truthy (JsStr (authToken (appState w)))));
    [discriminate|].
  destruct (serveSearch env (events w) _); discriminate.
Qed.

Lemma finishes_getCached (env : Env) (key : jsstring)
      (fetchFn : M (list Repo)) (ttl : Z) :
  finishes fetchFn -> finishes (getCached env key fetchFn ttl).
Proof.
  intros Hf w. unfold getCached, bind, getCache, dateNow, ret, putCache,
    Logger.info, tell.
  destruct (cacheGet key (cache w)) as [cached|].
  - destruct (now env (events w) - cache_timestamp cached <? ttl)%Z.
    + discriminate.
    + specialize (Hf w). destruct (fetchFn w) as [[data | e |] w1];
        cbn [fst] in *; try discriminate; congruence.
  - specialize (Hf w). destruct (fetchFn w) as [[data | e |] w1];
      cbn [fst] in *; try discriminate; congruence.
Qed.

(** [filterRepos] always returns; it ends by resetting the view of a
    session that differs from the initial one in the repository view's
    search term and filtered items only, and it shows no alert. *)
Lemma filterRepos_returns (env : Env) (toLowerCase : jsstring -> jsstring)
      (searchInput : jsstring) (w : World) :
  exists filtered w2,
    filterRepos env toLowerCase searchInput w
    = (Returned tt,
       withAppState resetReposPage
         (withAppState
            (fun s => set_reposPagination
                        (set_filteredItems filtered (reposPagination s)) s)
            w2))
    /\ appState w2
       = set_reposPagination
           (set_searchTerm
              (sanitizeString (JsStr (trim (toLowerCase searchInput))))
              (reposPagination (appState w)))
           (appState w)
    /\ alertsOf (events w2) = alertsOf (events w).
Proof.
  rewrite filterRepos_run. cbv zeta.
  set (term := sanitizeString (JsStr (trim (toLowerCase searchInput)))).
  set (w0 := withAppState _ w).
  destruct (negb (truthy (JsStr term))).
  { eexists. exists w0. repeat split. }
  destruct ((List.length (localRepoMatches toLowerCase term (appState w0))
             <? 10) && (2 <=? List.length term)).
  2:{ eexists. exists w0. repeat split. }
  set (key := lit "search_" ++ orgName (appState w0) ++ lit "_" ++ term).
  pose proof (quiet_getCached env key (searchRepositoriesAPI env term) 60000
                (quiet_searchRepositoriesAPI env term) w0) as [Hst Hal].
  pose proof (finishes_getCached env key (searchRepositoriesAPI env term)
                60000 (finishes_searchRepositoriesAPI env term) w0) as Hfin.
  destruct (getCached env key (searchRepositoriesAPI env term) 60000 w0)
    as [[api | e |] w1]; cbn [fst snd] in *.
  - eexists. exists w1. split; [reflexivity|]. split; assumption.
  - eexists. eexists. split; [reflexivity|]. split.
    + cbn [appState emit]. assumption.
    + cbn [events emit]. rewrite alertsOf_app. cbn. rewrite app_nil_r.
      assumption.
  - congruence.
Qed.

Lemma resetReposPage_view (s : AppState) :
  0 < itemsPerPage (reposPagination s) ->
  viewRecomputed (reposPagination (resetReposPage s))
  /\ filteredItems (reposPagination (resetReposPage s))
     = filteredItems (reposPagination s).
Proof.
  intro Hd. split; [|reflexivity].
  apply viewRecomputed_intro; [exact Hd | reflexivity | reflexivity].
Qed.

Lemma loadCustomProperties_runs (env : Env) (w : World) :
  exists props w',
    loadCustomProperties env w = (Returned tt, w')
    /\ appState w' = storeProperties (set_allProperties props (appState w)).
Proof.
  unfold loadCustomProperties, tryCatch, bind, getState, Logger.info,
    Logger.warn, tell, APIUtils.githubAPI, bind, getState,
    APIUtils.secureFetch, throw, modifyState, ret.
  cbn [appState emit].
  destruct (negb (truthy (JsStr (authToken (appState w))))).
  - eexists. eexists. split; reflexivity.
  - destruct (serveProperties env _ _); eexists; eexists; split; reflexivity.
Qed.

(** C2, as amended.  Filtering either view and loading either catalog
    always completes, sets the current page to 1 and sets the page count
    to the ceiling of the number of filtered items over the page size:
    the least count of pages that hold them, which is 0 for an empty
    view.  So the invariant 1 <= currentPage <= totalPages holds
    afterwards exactly when the filtered set is not empty; no minimum of
    one page is applied. *)
Theorem views_recomputed_after_filter_or_load :
  forall (env : Env) (toLowerCase : jsstring -> jsstring)
         (searchInput : jsstring) (w : World),
    0 < itemsPerPage (reposPagination (appState w)) ->
    0 < itemsPerPage (propertiesPagination (appState w)) ->
    (exists w',
        filterRepos env toLowerCase searchInput w = (Returned tt, w')
        /\ viewRecomputed (reposPagination (appState w'))
        /\ (filteredItems (reposPagination (appState w')) <> []
            <-> pageInvariant (reposPagination (appState w'))))
    /\ (let p := propertiesPagination
                   (filterProperties toLowerCase searchInput (appState w)) in
        viewRecomputed p /\ (filteredItems p <> [] <-> pageInvariant p))
    /\ (exists w',
          loadRepositories env w = (Returned tt, w')
          /\ viewRecomputed (reposPagination (appState w'))
          /\ filteredItems (reposPagination (appState w'))
             = allRepos (appState w')
          /\ (filteredItems (reposPagination (appState w')) <> []
              <-> pageInvariant (reposPagination (appState w'))))
    /\ (exists w',
          loadCustomProperties env w = (Returned tt, w')
          /\ viewRecomputed (propertiesPagination (appState w'))
          /\ filteredItems (propertiesPagination (appState w'))
             = allProperties (appState w')
          /\ (filteredItems (propertiesPagination (appState w')) <> []
              <-> pageInvariant (propertiesPagination (appState w')))).
Proof.
  intros env lower input w Hr Hp.
  assert (Hiff : forall A (p : Pagination A),
             viewRecomputed p -> (filteredItems p <> [] <-> pageInvariant p)).
  { intros A p Hv. destruct (viewRecomputed_invariant p Hv) as [H1 H2].
    split; [assumption|]. intros Hinv Hnil. apply (H2 Hnil). assumption. }
  split; [|split; [|split]].
  - destruct (filterRepos_returns env lower input w)
      as (filtered & w2 & Hrun & Hst & _).
    eexists. split; [exact Hrun|].
    cbn [appState withAppState]. rewrite Hst.
    assert (Hv : viewRecomputed
                   (reposPagination
                      (resetReposPage
                         (set_reposPagination
                            (set_filteredItems filtered
                               (reposPagination
                                  (set_reposPagination
                                     (set_searchTerm
                                        (sanitizeString
                                           (JsStr (trim (lower input))))
                                        (reposPagination (appState w)))
                                     (appState w))))
                            (set_reposPagination
                               (set_searchTerm
                                  (sanitizeString
                                     (JsStr (trim (lower input))))
                                  (reposPagination (appState w)))
                               (appState w)))))).
    { apply resetReposPage_view. exact Hr. }
    split; [exact Hv | apply Hiff; exact Hv].
  - cbv zeta.
    assert (Hv : viewRecomputed
                   (propertiesPagination
                      (filterProperties lower input (appState w)))).
    { apply viewRecomputed_intro.
      - unfold filterProperties.
        destruct (negb (truthy (JsStr (sanitizeString
                                         (JsStr (trim (lower input)))))));
          exact Hp.
      - reflexivity.
      - reflexivity. }
    split; [exact Hv | apply Hiff; exact Hv].
  - destruct (loadRepositories_runs env w)
      as (repos & w1 & w' & _ & Hrun & Hst).
    exists w'. split; [exact Hrun|]. rewrite Hst.
    assert (Hv : viewRecomputed
                   (reposPagination (storeRepositories repos (appState w)))).
    { apply viewRecomputed_intro; [exact Hr | reflexivity | reflexivity]. }
    split; [exact Hv|]. split; [reflexivity | apply Hiff; exact Hv].
  - destruct (loadCustomProperties_runs env w) as (props & w' & Hrun & Hst).
    exists w'. split; [exact Hrun|]. rewrite Hst.
    assert (Hv : viewRecomputed
                   (propertiesPagination
                      (storeProperties
                         (set_allProperties props (appState w))))).
    { apply viewRecomputed_intro; [exact Hp | reflexivity | reflexivity]. }
    split; [exact Hv|]. split; [reflexivity | apply Hiff; exact Hv].
Qed.

(** C2: the specification's wording fails.  Searching the built-in
    example properties for a term none of them contains leaves page 1
    current with a page count of 0, not the minimum of 1 of the
    specification, so the invariant 1 <= currentPage <= totalPages is
    violated. *)
Lemma empty_view_has_zero_pages :
  let s := set_allProperties getMockCustomProperties initialAppState in
  let p := propertiesPagination
             (filterProperties asciiToLowerCase (lit "zzz") s) in
  filteredItems p = []
  /\ currentPage p = 1
  /\ totalPages p = 0
  /\ totalPages p <> Nat.max 1 (ceilDiv (List.length (filteredItems p))
                                  (itemsPerPage p))
  /\ ~ pageInvariant p.
Proof.
  cbv zeta. repeat apply conj; try reflexivity.
  - discriminate.
  - intros [_ H]. vm_compute in H. lia.
Qed.

(** ** Remote search augmentation *)

Lemma JsString_eqb_eq (a b : jsstring) : JsString.eqb a b = true <-> a = b.
Proof.
  revert b. induction a as [|x a IH]; intros [|y b]; simpl;
    try (split; [discriminate | congruence]); [tauto|].
  rewrite andb_true_iff, N.eqb_eq, IH. split.
  - intros [-> ->]. reflexivity.
  - intro H. inversion H. auto.
Qed.

Lemma existsb_name_In (n : jsstring) (l : list Repo) :
  existsb (fun existing => JsString.eqb (repo_name existing) n) l = true
  <-> In n (names l).
Proof.
  unfold names. rewrite existsb_exists, in_map_iff. split.
  - intros (x & Hx & Heq). apply JsString_eqb_eq in Heq. eauto.
  - intros (x & Heq & Hx). exists x. split; [assumption|].
    apply JsString_eqb_eq. assumption.
Qed.

Lemma names_app (a b : list Repo) : names (a ++ b) = names a ++ names b.
Proof. apply map_app. Qed.

Lemma mergeMatches_extends (apiMatches : list Repo) :
  forall localMatches,
  exists extra,
    mergeMatches localMatches apiMatches = localMatches ++ extra
    /\ NoDup (names extra)
    /\ (forall r, In r extra ->
          In r apiMatches /\ ~ In (repo_name r) (names localMatches))
    /\ (forall r, In r apiMatches ->
          In (repo_name r) (names (localMatches ++ extra))).
Proof.
  unfold mergeMatches.
  induction apiMatches as [|r api IH]; intro acc; cbn [fold_left].
  - exists []. rewrite app_nil_r.
    split; [reflexivity|]. split; [apply NoDup_nil|].
    split; intros r [].
  - destruct (existsb (fun existing =>
                         JsString.eqb (repo_name existing) (repo_name r)) acc)
      eqn:Hex.
    + destruct (IH acc) as (extra & Heq & Hnd & Hin & Hcov).
      exists extra. repeat split; try assumption.
      * right. apply Hin. assumption.
      * apply Hin. assumption.
      * intros x [<- | Hx]; [|apply Hcov; assumption].
        rewrite names_app. apply in_or_app. left.
        apply existsb_name_In. assumption.
    + destruct (IH (acc ++ [r])) as (extra & Heq & Hnd & Hin & Hcov).
      assert (Hr : ~ In (repo_name r) (names acc)).
      { intro H. apply existsb_name_In in H. congruence. }
      exists (r :: extra). rewrite Heq, <- app_assoc.
      repeat split.
      * cbn [names map]. constructor; [|assumption].
        intro H. unfold names in H. apply in_map_iff in H.
        destruct H as (x & Hname & Hx).
        destruct (Hin x Hx) as [_ Hnot]. apply Hnot.
        rewrite names_app. apply in_or_app. right.
        cbn. left. symmetry. assumption.
      * destruct H as [<- | Hx]; [left; reflexivity|].
        right. apply Hin. assumption.
      * destruct H as [<- | Hx]; [assumption|].
        destruct (Hin r0 Hx) as [_ Hnot]. intro Hacc. apply Hnot.
        rewrite names_app. apply in_or_app. left. assumption.
      * intros x [<- | Hx].
        -- rewrite names_app. apply in_or_app. right. cbn. left. reflexivity.
        -- specialize (Hcov x Hx). rewrite <- app_assoc in Hcov.
           exact Hcov.
Qed.

Lemma getCached_miss (env : Env) (key : jsstring) (fetchFn : M (list Repo))
      (ttl : Z) (w : World) :
  cacheGet key (cache w) = None ->
  getCached env key fetchFn ttl w =
  match fetchFn w with
  | (Returned data, w1) =>
      (Returned data,
       emit (EvLog INFO (lit "Cached new data") None
               [("key"%string, LStr key)])
         (withCache
            (cacheSet key {| cache_data := data;
                             cache_timestamp := now env (events w1) |}
               (cache w1)) w1))
  | (Thrown e, w1) => (Thrown e, w1)
  | (Unfinished, w1) => (Unfinished, w1)
  end.
Proof.
  intro Hmiss. unfold getCached, bind, getCache, ret. rewrite Hmiss.
  destruct (fetchFn w) as [[data | e |] w1]; reflexivity.
Qed.

Lemma searchRepositoriesAPI_run (env : Env) (term : jsstring) (w : World) :
  authToken (appState w) <> [] ->
  let req := ReqSearchRepositories term (orgName (appState w)) 50 in
  let answer := serveSearch env (events w) req in
  let w1 := emit (EvFetch req (isOk answer)) w in
  match answer with
  | HttpOk data =>
      searchRepositoriesAPI env term w = (Returned (itemsOrEmpty data), w1)
  | _ =>
      exists e,
        searchRepositoriesAPI env term w
        = (Thrown e,
           emit (EvLog ERROR (lit "Repository search API failed") (Some e)
                   [("searchTerm"%string, LStr term)]) w1)
  end.
Proof.
  intros Htok req answer w1. apply truthy_JsStr in Htok.
  unfold searchRepositoriesAPI, tryCatch, bind, getState,
    APIUtils.githubAPI, bind, getState.
  rewrite Htok. cbn [negb]. unfold APIUtils.secureFetch.
  fold req. fold answer. fold w1.
  destruct answer; [reflexivity | | |]; eexists; reflexivity.
Qed.

Lemma filterRepos_gate_closed (env : Env) (toLowerCase : jsstring -> jsstring)
      (searchInput : jsstring) (w : World) :
  let term := sanitizeString (JsStr (trim (toLowerCase searchInput))) in
  let localMatches := localRepoMatches toLowerCase term (appState w) in
  10 <= List.length localMatches \/ List.length term < 2 ->
  exists w',
    filterRepos env toLowerCase searchInput w = (Returned tt, w')
    /\ events w' = events w
    /\ cache w' = cache w
    /\ filteredItems (reposPagination (appState w'))
       = if negb (truthy (JsStr term)) then allRepos (appState w)
         else localMatches.
Proof.
  cbv zeta. intro Hgate. rewrite filterRepos_run. cbv zeta.
  set (term := sanitizeString (JsStr (trim (toLowerCase searchInput)))) in *.
  destruct (negb (truthy (JsStr term))).
  { eexists. repeat split. }
  change (localRepoMatches toLowerCase term (appState (withAppState _ w)))
    with (localRepoMatches toLowerCase term (appState w)).
  replace ((List.length (localRepoMatches toLowerCase term (appState w))
            <? 10) && (2 <=? List.length term)) with false.
  { eexists. repeat split. }
  symmetry. apply andb_false_iff. destruct Hgate as [H | H].
  - left. apply Nat.ltb_ge. assumption.
  - right. apply Nat.leb_gt. assumption.
Qed.

(** C5. [filterRepos] always returns and never raises an alert.  The
    remote search is sent only when the local matches are fewer than 10
    and the sanitized search term has at least 2 characters: otherwise,
    and in particular for a term of one character, nothing at all is
    sent or logged and the view shows the local matches.  When it is sent
    (gate open, nothing cached, a token in the session) an ok answer is
    merged into the local matches, a failed one leaves the local matches
    alone.  The merge keeps the local matches in place and appends, once
    each, the remote repositories whose name is not yet present. *)
Theorem filterRepos_remote_search_gated :
  forall (env : Env) (toLowerCase : jsstring -> jsstring)
         (searchInput : jsstring) (w : World),
    let term := sanitizeString (JsStr (trim (toLowerCase searchInput))) in
    let localMatches := localRepoMatches toLowerCase term (appState w) in
    let req := ReqSearchRepositories term (orgName (appState w)) 50 in
    let key := lit "search_" ++ orgName (appState w) ++ lit "_" ++ term in
    (exists w',
        filterRepos env toLowerCase searchInput w = (Returned tt, w')
        /\ alertsOf (events w') = alertsOf (events w)
        /\ (fetchesOf (events w') <> fetchesOf (events w) ->
            List.length localMatches < 10 /\ 2 <= List.length term))
    /\ (10 <= List.length localMatches \/ List.length term < 2 ->
        exists w',
          filterRepos env toLowerCase searchInput w = (Returned tt, w')
          /\ events w' = events w
          /\ filteredItems (reposPagination (appState w'))
             = if negb (truthy (JsStr term)) then allRepos (appState w)
               else localMatches)
    /\ (List.length term = 1 ->
        exists w',
          filterRepos env toLowerCase searchInput w = (Returned tt, w')
          /\ events w' = events w
          /\ filteredItems (reposPagination (appState w')) = localMatches)
    /\ (List.length localMatches < 10 -> 2 <= List.length term ->
        cacheGet key (cache w) = None ->
        authToken (appState w) <> [] ->
        exists w',
          filterRepos env toLowerCase searchInput w = (Returned tt, w')
          /\ fetchesOf (events w')
             = fetchesOf (events w)
               ++ [(req, isOk (serveSearch env (events w) req))]
          /\ alertsOf (events w') = alertsOf (events w)
          /\ filteredItems (reposPagination (appState w'))
             = match serveSearch env (events w) req with
               | HttpOk data => mergeMatches localMatches (itemsOrEmpty data)
               | _ => localMatches
               end)
    /\ (forall apiMatches,
        exists extra,
          mergeMatches localMatches apiMatches = localMatches ++ extra
          /\ NoDup (names extra)
          /\ (forall r, In r extra ->
                In r apiMatches /\ ~ In (repo_name r) (names localMatches))
          /\ (forall r, In r apiMatches ->
                In (repo_name r)
                   (names (mergeMatches localMatches apiMatches)))).
Proof.
  intros env lower input w term localMatches req key.
  split; [|split; [|split; [|split]]].
  - destruct (Nat.lt_ge_cases (List.length localMatches) 10) as [Hl | Hl];
      [destruct (Nat.lt_ge_cases (List.length term) 2) as [Ht | Ht]|].
    + destruct (filterRepos_gate_closed env lower input w)
        as (w' & Hrun & Hev & _); [right; exact Ht|].
      exists w'. rewrite Hev. split; [exact Hrun|]. split; [reflexivity|].
      intro H. congruence.
    + destruct (filterRepos_returns env lower input w)
        as (filtered & w2 & Hrun & Hst & Hal).
      eexists. split; [exact Hrun|]. split; [exact Hal|]. auto.
    + destruct (filterRepos_gate_closed env lower input w)
        as (w' & Hrun & Hev & _); [left; exact Hl|].
      exists w'. rewrite Hev. split; [exact Hrun|]. split; [reflexivity|].
      intro H. congruence.
  - intro Hgate.
    destruct (filterRepos_gate_closed env lower input w Hgate)
      as (w' & Hrun & Hev & _ & Hfil).
    exists w'. auto.
  - intro Hone.
    destruct (filterRepos_gate_closed env lower input w)
      as (w' & Hrun & Hev & _ & Hfil).
    { right. fold term. lia. }
    exists w'. split; [assumption|]. split; [assumption|].
    rewrite Hfil. fold term. destruct term; [discriminate | reflexivity].
  - intros Hl Ht Hmiss Htok.
    rewrite filterRepos_run. cbv zeta. fold term.
    set (w0 := withAppState _ w).
    change (localRepoMatches lower term (appState w0)) with localMatches.
    change (orgName (appState w0)) with (orgName (appState w)).
    fold key.
    replace (negb (truthy (JsStr term))) with false
      by (destruct term; [simpl in Ht; lia | reflexivity]).
    replace ((List.length localMatches <? 10) && (2 <=? List.length term))
      with true
      by (symmetry; apply andb_true_iff; split;
          [apply Nat.ltb_lt | apply Nat.leb_le]; assumption).
    rewrite (getCached_miss env key (searchRepositoriesAPI env term) 60000 w0
               Hmiss).
    pose proof (searchRepositoriesAPI_run env term w0 Htok) as Hsearch.
    cbv zeta in Hsearch.
    change (orgName (appState w0)) with (orgName (appState w)) in Hsearch.
    change (events w0) with (events w) in Hsearch.
    fold req in Hsearch.
    destruct (serveSearch env (events w) req) as [data | st txt | | msg];
      [rewrite Hsearch | destruct Hsearch as [e ->]
       | destruct Hsearch as [e ->] | destruct Hsearch as [e ->]];
      (eexists; split; [reflexivity|]);
      cbn [events emit withAppState withCache appState isOk];
      rewrite ?fetchesOf_app, ?alertsOf_app; cbn [fetchesOf alertsOf flat_map app];
      rewrite ?app_nil_r; repeat split; reflexivity.
  - intro api.
    destruct (mergeMatches_extends api localMatches)
      as (extra & Heq & Hnd & Hin & Hcov).
    exists extra. rewrite Heq. auto.
Qed.

(** ** The bot resolver *)

Lemma find_app {A} (f : A -> bool) (a b : list A) :
  find f (a ++ b)
  = match find f a with Some x => Some x | None => find f b end.
Proof.
  induction a as [|x a IH]; simpl; [reflexivity|].
  destruct (f x); [reflexivity | assumption].
Qed.

Lemma find_first {A} (f : A -> bool) (l : list A) (x : A) :
  find f l = Some x ->
  f x = true
  /\ exists l1 l2, l = l1 ++ x :: l2 /\ Forall (fun y => f y = false) l1.
Proof.
  induction l as [|y l IH]; simpl; [discriminate|].
  destruct (f y) eqn:Hy.
  - intro H. inversion H; subst. split; [assumption|].
    exists [], l. split; [reflexivity | constructor].
  - intro H. destruct (IH H) as (Hx & l1 & l2 & -> & Hall).
    split; [assumption|]. exists (y :: l1), l2.
    split; [reflexivity | constructor; assumption].
Qed.

Lemma isCopilot_login (node : Actor) :
  isCopilot node = true <-> actor_login node = Some copilotLogin.
Proof.
  unfold isCopilot. destruct (actor_login node) as [l|].
  - rewrite JsString_eqb_eq. split; congruence.
  - split; discriminate.
Qed.

Lemma findCopilotBot_loop_pages (env : Env) (repoName : jsstring) :
  forall ps fuel c w,
    servesPages env (orgName (appState w)) repoName (events w) c ps ->
    List.length ps <= fuel ->
    exists w',
      findCopilotBot_loop env fuel repoName c w
      = (Returned (find isCopilot (flat_map nodes ps)), w')
      /\ fetchesOf (events w')
         = fetchesOf (events w)
           ++ map (fun c' =>
                     (actorsRequest (orgName (appState w)) repoName c', true))
                  (cursorsAsked c (visitedPages ps)).
Proof.
  induction ps as [|p rest IH]; intros fuel c w Hserve Hfuel;
    [destruct Hserve|].
  destruct fuel as [|fuel]; [simpl in Hfuel; lia|].
  destruct Hserve as [Hans Hrest].
  cbn [findCopilotBot_loop flat_map visitedPages].
  unfold bind at 1. unfold getState at 1. unfold bind at 1.
  unfold APIUtils.fetch.
  unfold actorsRequest in Hans. rewrite Hans. cbn [isOk].
  rewrite find_app.
  destruct (find isCopilot (nodes p)) as [node|] eqn:Hfind.
  - eexists. split; [reflexivity|].
    cbn [events emit cursorsAsked map]. rewrite fetchesOf_app. reflexivity.
  - destruct rest as [|q rest'].
    + destruct Hrest as [Hlast | Hfound]; [|congruence].
      rewrite Hlast. eexists. split; [reflexivity|].
      cbn [events emit cursorsAsked map visitedPages].
      rewrite fetchesOf_app. reflexivity.
    + destruct Hrest as [Hnext Hserve'].
      rewrite Hnext.
      set (w1 := emit (EvFetch (ReqSuggestedActors (orgName (appState w))
                                  repoName 100 c) true) w).
      destruct (IH fuel (pageInfo_endCursor p) w1) as (w' & Hrun & Hfetch).
      { exact Hserve'. }
      { simpl in Hfuel |- *. lia. }
      exists w'. split; [exact Hrun|].
      rewrite Hfetch. subst w1. cbn [events emit appState].
      rewrite fetchesOf_app. cbn [cursorsAsked map].
      rewrite <- app_assoc. reflexivity.
Qed.

(** C6. Let GitHub hand out the pages [ps] of suggested actors one after
    the other, every request succeeding, each page but the last
    announcing the next, the last announcing none or holding the bot.
    Then [findCopilotBot], given fuel for that many turns, returns
    without an error: it asks for 100 actors per page, from no cursor
    first and then from each [endCursor] in turn, up to the first page
    that holds an actor whose login is exactly copilot-swe-agent; it
    returns the first such actor in page order; and it returns [null]
    when no page holds one. *)
Theorem findCopilotBot_pages_until_found_or_exhausted :
  forall (env : Env) (fuel : nat) (repoName : jsstring) (w : World)
         (ps : list ActorsPage),
    servesPages env (orgName (appState w)) repoName (events w) None ps ->
    List.length ps <= fuel ->
    exists w',
      findCopilotBot env fuel repoName w
      = (Returned (find isCopilot (flat_map nodes ps)), w')
      /\ fetchesOf (events w')
         = fetchesOf (events w)
           ++ map (fun c =>
                     (ReqSuggestedActors (orgName (appState w)) repoName
                        100 c, true))
                  (cursorsAsked None (visitedPages ps))
      /\ (forall node,
            find isCopilot (flat_map nodes ps) = Some node ->
            actor_login node = Some (lit "copilot-swe-agent")
            /\ exists before after,
                 flat_map nodes ps = before ++ node :: after
                 /\ Forall (fun n => actor_login n
                                     <> Some (lit "copilot-swe-agent"))
                           before)
      /\ (find isCopilot (flat_map nodes ps) = None <->
          Forall (fun n => actor_login n <> Some (lit "copilot-swe-agent"))
                 (flat_map nodes ps)).
Proof.
  intros env fuel repoName w ps Hserve Hfuel.
  destruct (findCopilotBot_loop_pages env repoName ps fuel None w Hserve Hfuel)
    as (w' & Hrun & Hfetch).
  exists w'. split; [exact Hrun|]. split; [exact Hfetch|]. split.
  - intros node Hfind. apply find_first in Hfind.
    destruct Hfind as (Hc & l1 & l2 & Heq & Hall).
    split; [apply isCopilot_login; assumption|].
    exists l1, l2. split; [assumption|].
    eapply Forall_impl; [|exact Hall].
    intros a Ha Hlogin. apply isCopilot_login in Hlogin. congruence.
  - split.
    + intro Hnone. apply Forall_forall. intros n Hn Hlogin.
      apply isCopilot_login in Hlogin.
      pose proof (find_none _ _ Hnone n Hn). congruence.
    + intro Hall. destruct (find isCopilot (flat_map nodes ps)) as [node|]
        eqn:Hfind; [|reflexivity].
      apply find_some in Hfind. destruct Hfind as [Hin Hc].
      rewrite Forall_forall in Hall. apply isCopilot_login in Hc.
      exfalso. exact (Hall node Hin Hc).
Qed.

(** ** The workflow orchestrator *)

Lemma issuesCreated_app (a b : list Event) :
  issuesCreated (a ++ b) = issuesCreated a + issuesCreated b.
Proof. unfold issuesCreated. rewrite filter_app, length_app. reflexivity. Qed.

Lemma reportsOf_app (a b : list Event) :
  reportsOf (a ++ b) = reportsOf a ++ reportsOf b.
Proof. unfold reportsOf. apply filter_app. Qed.

Lemma sameIssues_refl (w : World) : sameIssues w w.
Proof. repeat split. Qed.

Lemma sameIssues_trans (a b c : World) :
  sameIssues a b -> sameIssues b c -> sameIssues a c.
Proof. intros (H1 & H2 & H3) (H4 & H5 & H6). repeat split; congruence. Qed.

Lemma sameIssues_emit (e : Event) (w : World) :
  issueCreated e = false ->
  match e with EvShowSuccess | EvAlert _ => False | _ => True end ->
  sameIssues w (emit e w).
Proof.
  intros He Hr. split; [reflexivity|]. cbn [events emit].
  rewrite issuesCreated_app, reportsOf_app. unfold issuesCreated, reportsOf.
  cbn [filter]. rewrite He. destruct e; try contradiction;
    cbn; rewrite Nat.add_0_r, app_nil_r; split; reflexivity.
Qed.

Lemma sameIssues_log (l : LogLevel) (m : jsstring) (e : option JsError)
      (c : list (string * LogValue)) (w : World) :
  sameIssues w (emit (EvLog l m e c) w).
Proof. apply sameIssues_emit; [reflexivity | exact I]. Qed.

Lemma sameIssues_fetch {T} (serve : list Event -> Request -> FetchOutcome T)
      (req : Request) :
  isCreateIssue req = false -> keeps sameIssues (APIUtils.fetch serve req).
Proof.
  intros Hreq w. unfold APIUtils.fetch.
  assert (H : forall ok, sameIssues w (emit (EvFetch req ok) w)).
  { intro ok. apply sameIssues_emit; [|exact I].
    destruct req; try discriminate; reflexivity. }
  destruct (serve (events w) req); apply H.
Qed.

Lemma sameIssues_findCopilotBot_loop (env : Env) (repoName : jsstring) :
  forall fuel c, keeps sameIssues (findCopilotBot_loop env fuel repoName c).
Proof.
  induction fuel as [|fuel IH]; intro c; cbn [findCopilotBot_loop].
  - apply (keeps_outOfFuel _ sameIssues_refl).
  - apply (keeps_bind _ sameIssues_trans);
      [apply (keeps_getState _ sameIssues_refl)|]. intro st.
    apply (keeps_bind _ sameIssues_trans);
      [apply sameIssues_fetch; reflexivity|].
    intros [[msgs json | page] | status];
      try apply (keeps_throw _ sameIssues_refl).
    destruct (find isCopilot (nodes page));
      [apply (keeps_ret _ sameIssues_refl)|].
    destruct (pageInfo_hasNextPage page);
      [apply IH | apply (keeps_ret _ sameIssues_refl)].
Qed.

Lemma sameIssues_assignCopilotToIssue (env : Env) (fuel : nat)
      (repoName : jsstring) (issueNumber : Z) :
  keeps sameIssues (assignCopilotToIssue env fuel repoName issueNumber).
Proof.
  unfold assignCopilotToIssue.
  apply (keeps_tryCatch _ sameIssues_trans).
  - apply (keeps_bind _ sameIssues_trans);
      [apply (keeps_getState _ sameIssues_refl)|]. intro st.
    apply (keeps_bind _ sameIssues_trans);
      [apply sameIssues_fetch; reflexivity|].
    intros [issue | status]; [|apply (keeps_throw _ sameIssues_refl)].
    apply (keeps_bind _ sameIssues_trans);
      [apply sameIssues_findCopilotBot_loop|].
    intros [bot|]; [|apply (keeps_log _ sameIssues_log)].
    unfold assignCopilotUsingGraphQL.
    apply (keeps_bind _ sameIssues_trans);
      [apply (keeps_log _ sameIssues_log)|]. intros _.
    apply (keeps_bind _ sameIssues_trans);
      [apply sameIssues_fetch; reflexivity|].
    intros [[msgs json | d] | status];
      first [apply (keeps_throw _ sameIssues_refl)
            | apply (keeps_ret _ sameIssues_refl)].
  - intro e. apply (keeps_bind _ sameIssues_trans);
      [apply (keeps_log _ sameIssues_log)|]. intros _.
    apply (keeps_throw _ sameIssues_refl).
Qed.

Lemma issuesCreated_emit (e : Event) (w : World) :
  issuesCreated (events (emit e w))
  = issuesCreated (events w) + (if issueCreated e then 1 else 0).
Proof.
  cbn [events emit]. rewrite issuesCreated_app. unfold issuesCreated.
  cbn [filter]. destruct (issueCreated e); reflexivity.
Qed.

Lemma reportsOf_emit (e : Event) (w : World) :
  reportsOf (events (emit e w))
  = reportsOf (events w)
    ++ match e with
       | EvShowSuccess | EvAlert _ => [e]
       | _ => []
       end.
Proof.
  cbn [events emit]. rewrite reportsOf_app. unfold reportsOf.
  cbn [filter]. destruct e; reflexivity.
Qed.

(** The outcome of [createIssueAndAssignCopilot] is decided by the issue
    creation alone: it returns exactly when the creation request was
    answered ok, whatever became of the bot assignment. *)
Lemma createIssueAndAssignCopilot_outcome (env : Env) (fuel : nat)
      (repoName : jsstring) (w : World) :
  match createIssueAndAssignCopilot env fuel repoName w with
  | (Returned issue, w') =>
      appState w' = appState w
      /\ issuesCreated (events w') = S (issuesCreated (events w))
      /\ reportsOf (events w') = reportsOf (events w)
  | (Thrown e, w') => sameIssues w w'
  | (Unfinished, w') => True
  end.
Proof.
  unfold createIssueAndAssignCopilot, tryCatch, bind, getState, throw, ret,
    Logger.info, Logger.warn, Logger.error, tell, APIUtils.githubAPI, bind,
    getState, throw, APIUtils.secureFetch.
  cbn [appState emit].
  destruct (negb (truthy (JsStr repoName))
            || negb (truthy (JsStr (sanitizeString (JsStr repoName))))).
  { apply sameIssues_log. }
  destruct (negb (truthy (JsStr (trim (promptContent (appState w)))))).
  { apply sameIssues_log. }
  destruct (negb (truthy (JsStr (authToken (appState w))))).
  { eapply sameIssues_trans; apply sameIssues_log. }
  match goal with
  | |- context [serveIssue env ?evs ?req] =>
      destruct (serveIssue env evs req) as [issue | st txt | | msg]
  end; cbn [isOk].
  2-4: (eapply sameIssues_trans; [|apply sameIssues_log]);
       (eapply sameIssues_trans; [apply sameIssues_log|]);
       (apply sameIssues_emit; [reflexivity | exact I]).
  match goal with
  | |- context [assignCopilotToIssue env fuel repoName ?n ?w3] =>
      pose proof (sameIssues_assignCopilotToIssue env fuel repoName n w3)
        as Hassign;
      destruct (assignCopilotToIssue env fuel repoName n w3)
        as [[[] | e |] w4]
  end; cbn [snd] in Hassign; try exact I;
    destruct Hassign as (Hst & Hcount & Hrep);
    cbn [appState emit] in *;
    rewrite ?issuesCreated_emit, ?reportsOf_emit in *;
    cbn [issueCreated app] in *; rewrite ?app_nil_r in *;
    (split; [assumption|]); (split; [lia | assumption]).
Qed.

Lemma successCount_app (a b : list WorkflowResult) :
  successCount (a ++ b) = successCount a + successCount b.
Proof. unfold successCount. rewrite filter_app, length_app. reflexivity. Qed.

(** The loop never throws.  When it finishes it has pushed one result per
    target, in order, and the successes among them are as many as the
    issue creations that were answered ok during the loop. *)
Lemma processRepositories_results (env : Env) (fuel : nat) :
  forall targetRepos results w,
    match processRepositories env fuel targetRepos results w with
    | (Returned out, w') =>
        exists new,
          out = results ++ new
          /\ map res_repo new = map repo_name targetRepos
          /\ issuesCreated (events w')
             = issuesCreated (events w) + successCount new
          /\ appState w' = appState w
          /\ reportsOf (events w') = reportsOf (events w)
    | (Thrown _, _) => False
    | (Unfinished, _) => True
    end.
Proof.
  induction targetRepos as [|repo rest IH]; intros results w.
  - cbn [processRepositories]. exists []. rewrite app_nil_r.
    repeat split. unfold successCount. cbn. lia.
  - cbn [processRepositories].
    unfold bind at 1. unfold tryCatch at 1. unfold bind at 1.
    pose proof (createIssueAndAssignCopilot_outcome env fuel
                  (repo_name repo) w) as Hc.
    destruct (createIssueAndAssignCopilot env fuel (repo_name repo) w)
      as [[issue | e |] w1]; [| |exact I].
    + destruct Hc as (Hst & Hcount & Hrep).
      unfold ret at 1. unfold bind at 1.
      match goal with
      | |- context [processRepositories env fuel rest (results ++ [?r])] =>
          set (result := r)
      end.
      assert (Hnext : exists w2,
                 (match rest with
                  | [] => ret tt
                  | _ :: _ => delay APP_CONFIG.RATE_LIMIT_DELAY
                  end) w1 = (Returned tt, w2)
                 /\ appState w2 = appState w1
                 /\ issuesCreated (events w2) = issuesCreated (events w1)
                 /\ reportsOf (events w2) = reportsOf (events w1)).
      { destruct rest; eexists; (split; [reflexivity|]);
          rewrite ?issuesCreated_emit, ?reportsOf_emit; cbn;
          rewrite ?app_nil_r; repeat split; lia. }
      destruct Hnext as (w2 & -> & Hst2 & Hcount2 & Hrep2).
      specialize (IH (results ++ [result]) w2).
      destruct (processRepositories env fuel rest (results ++ [result]) w2)
        as [[out | e |] w3]; [| contradiction | exact I].
      destruct IH as (new & -> & Hnames & Hc3 & Hst3 & Hrep3).
      exists (result :: new). rewrite <- app_assoc.
      split; [reflexivity|]. split; [cbn; f_equal; assumption|].
      split; [|split; congruence].
      change (result :: new) with ([result] ++ new).
      rewrite successCount_app. unfold successCount at 1. cbn. lia.
    + destruct Hc as (Hst & Hcount & Hrep).
      unfold bind at 1. unfold Logger.error at 1. unfold tell at 1.
      unfold ret at 1. unfold bind at 1.
      match goal with
      | |- context [processRepositories env fuel rest (results ++ [?r])] =>
          set (result := r)
      end.
      set (w1' := emit _ w1).
      assert (Hw1 : appState w1' = appState w1
                    /\ issuesCreated (events w1') = issuesCreated (events w1)
                    /\ reportsOf (events w1') = reportsOf (events w1)).
      { subst w1'. rewrite issuesCreated_emit, reportsOf_emit. cbn.
        rewrite app_nil_r. repeat split. lia. }
      destruct Hw1 as (Hst1 & Hcount1 & Hrep1).
      assert (Hnext : exists w2,
                 (match rest with
                  | [] => ret tt
                  | _ :: _ => delay APP_CONFIG.RATE_LIMIT_DELAY
                  end) w1' = (Returned tt, w2)
                 /\ appState w2 = appState w1'
                 /\ issuesCreated (events w2) = issuesCreated (events w1')
                 /\ reportsOf (events w2) = reportsOf (events w1')).
      { destruct rest; eexists; (split; [reflexivity|]);
          rewrite ?issuesCreated_emit, ?reportsOf_emit; cbn;
          rewrite ?app_nil_r; repeat split; lia. }
      destruct Hnext as (w2 & -> & Hst2 & Hcount2 & Hrep2).
      specialize (IH (results ++ [result]) w2).
      destruct (processRepositories env fuel rest (results ++ [result]) w2)
        as [[out | e' |] w3]; [| contradiction | exact I].
      destruct IH as (new & -> & Hnames & Hc3 & Hst3 & Hrep3).
      exists (result :: new). rewrite <- app_assoc.
      split; [reflexivity|]. split; [cbn; f_equal; assumption|].
      split; [|split; congruence].
      change (result :: new) with ([result] ++ new).
      rewrite successCount_app. unfold successCount at 1. cbn. lia.
Qed.

Lemma reportResults_run (results : list WorkflowResult) (w : World) :
  reportResults results w
  = (Returned tt,
     {| appState := appState w; cache := cache w;
        events := events w ++ completionEvents results |}).
Proof.
  unfold reportResults, completionEvents, bind, Logger.info, Logger.warn,
    Logger.error, showSuccess, alert, tell, ret, emit.
  cbn [events appState cache].
  destruct (0 <? successCount results);
    [destruct (0 <? failureCount results)|];
    cbn [events appState cache]; rewrite <- ?app_assoc; reflexivity.
Qed.

Lemma reportsOf_completionEvents (results : list WorkflowResult) :
  reportsOf (completionEvents results)
  = if 0 <? successCount results then [EvShowSuccess]
    else [EvAlert permissionsMessage].
Proof.
  unfold completionEvents, reportsOf. cbn [filter].
  destruct (0 <? successCount results);
    [destruct (0 <? failureCount results)|]; reflexivity.
Qed.

Lemma sameReports_refl (w : World) : sameReports w w.
Proof. reflexivity. Qed.

Lemma sameReports_trans (a b c : World) :
  sameReports a b -> sameReports b c -> sameReports a c.
Proof. unfold sameReports. congruence. Qed.

Lemma sameReports_fetch (r : Request) (ok : bool) (w : World) :
  sameReports w (emit (EvFetch r ok) w).
Proof. unfold sameReports. rewrite reportsOf_emit. apply app_nil_r. Qed.

Lemma sameReports_log (l : LogLevel) (m : jsstring) (e : option JsError)
      (c : list (string * LogValue)) (w : World) :
  sameReports w (emit (EvLog l m e c) w).
Proof. unfold sameReports. rewrite reportsOf_emit. apply app_nil_r. Qed.

Lemma sameReports_resolveTargetRepos (env : Env) (promptInput : jsstring) :
  keeps sameReports (resolveTargetRepos env promptInput).
Proof.
  unfold resolveTargetRepos, getAllOrgRepos, getReposWithCustomProperties.
  frame sameReports_refl sameReports_trans sameReports_fetch
        sameReports_log.
Qed.

Lemma resolveTargetRepos_nonempty (env : Env) (promptInput : jsstring)
      (w w1 : World) (targetRepos : list Repo) :
  resolveTargetRepos env promptInput w = (Returned targetRepos, w1) ->
  targetRepos <> [].
Proof.
  unfold resolveTargetRepos. unfold bind at 1. unfold getState at 1.
  repeat (unfold bind at 1;
          match goal with
          | |- context [if ?b then throw _ else ret tt] =>
              destruct b; [unfold throw at 1; discriminate|];
              unfold ret at 1
          end).
  unfold bind at 1. unfold modifyState at 1.
  unfold bind at 1.
  match goal with
  | |- context [match ?m ?w0 with _ => _ end] =>
      destruct (m w0) as [[targets | e |] w2]; try discriminate
  end.
  unfold bind.
  destruct (List.length targets =? 0) eqn:Hlen;
    [unfold throw; discriminate|].
  unfold ret. intro H. inversion H; subst.
  intros ->. discriminate.
Qed.

Lemma processRepositories_cons_ok (env : Env) (fuel : nat) (repo : Repo)
      (rest : list Repo) (results : list WorkflowResult) (w w1 : World)
      (issue : Issue) :
  createIssueAndAssignCopilot env fuel (repo_name repo) w
  = (Returned issue, w1) ->
  processRepositories env fuel (repo :: rest) results w
  = processRepositories env fuel rest (results ++ [successResult repo issue])
      (match rest with
       | [] => w1
       | _ :: _ => emit (EvDelay APP_CONFIG.RATE_LIMIT_DELAY) w1
       end).
Proof.
  intro Hc. cbn [processRepositories].
  unfold bind at 1. unfold tryCatch at 1. unfold bind at 1. rewrite Hc.
  unfold ret at 1. unfold bind at 1.
  destruct rest; reflexivity.
Qed.

Lemma processRepositories_cons_fail (env : Env) (fuel : nat) (repo : Repo)
      (rest : list Repo) (results : list WorkflowResult) (w w1 : World)
      (error : JsError) :
  createIssueAndAssignCopilot env fuel (repo_name repo) w
  = (Thrown error, w1) ->
  processRepositories env fuel (repo :: rest) results w
  = processRepositories env fuel rest (results ++ [failureResult repo error])
      (match rest with
       | [] =>
           emit (EvLog ERROR (lit "Failed to process repository")
                   (Some error) [("repo"%string, LStr (repo_name repo))]) w1
       | _ :: _ =>
           emit (EvDelay APP_CONFIG.RATE_LIMIT_DELAY)
             (emit (EvLog ERROR (lit "Failed to process repository")
                      (Some error) [("repo"%string, LStr (repo_name repo))])
                w1)
       end).
Proof.
  intro Hc. cbn [processRepositories].
  unfold bind at 1. unfold tryCatch at 1. unfold bind at 1. rewrite Hc.
  unfold bind at 1. unfold Logger.error at 1. unfold tell at 1.
  unfold ret at 1. unfold bind at 1.
  destruct rest; reflexivity.
Qed.

Lemma createIssueAndAssignCopilot_answered_ok (env : Env) (fuel : nat)
      (repoName : jsstring) (w : World) (issue : Issue) :
  readyToPost (appState w) repoName ->
  (forall evs,
      serveIssue env evs
        (ReqCreateIssue (orgName (appState w)) repoName
           (issueDataOf (appState w))) = HttpOk issue) ->
  (forall w3,
      fst (assignCopilotToIssue env fuel repoName (issue_number issue) w3)
      <> Unfinished) ->
  exists w',
    createIssueAndAssignCopilot env fuel repoName w = (Returned issue, w').
Proof.
  intros (Hname & Hprompt & Htok) Hans Hassign.
  assert (Hname' : repoName <> [])
    by (intros ->; apply Hname; reflexivity).
  apply truthy_JsStr in Hname, Hname', Hprompt, Htok.
  unfold createIssueAndAssignCopilot, tryCatch, bind, getState, throw, ret,
    Logger.info, Logger.warn, Logger.error, tell, APIUtils.githubAPI, bind,
    getState, throw, APIUtils.secureFetch.
  cbn [appState emit]. rewrite Hname, Hname'. cbn [negb orb].
  rewrite Hprompt. cbn [negb appState emit].
  rewrite Htok. cbn [negb appState emit].
  fold (issueDataOf (appState w)). rewrite Hans. cbn [isOk].
  match goal with
  | |- context [assignCopilotToIssue env fuel repoName ?n ?w3] =>
      specialize (Hassign w3);
      destruct (assignCopilotToIssue env fuel repoName n w3)
        as [[[] | e |] w4]
  end; cbn [fst] in Hassign; try congruence; eexists; reflexivity.
Qed.

Lemma createIssueAndAssignCopilot_refused (env : Env) (fuel : nat)
      (repoName : jsstring) (w : World) (status : nat) (statusText : jsstring) :
  readyToPost (appState w) repoName ->
  (forall evs,
      serveIssue env evs
        (ReqCreateIssue (orgName (appState w)) repoName
           (issueDataOf (appState w))) = HttpFail status statusText) ->
  exists w',
    createIssueAndAssignCopilot env fuel repoName w
    = (Thrown (APIError (lit "HTTP " ++ ofNat status ++ lit ": " ++ statusText)
                 status
                 (Some (ReqCreateIssue (orgName (appState w)) repoName
                          (issueDataOf (appState w))))), w').
Proof.
  intros (Hname & Hprompt & Htok) Hans.
  assert (Hname' : repoName <> [])
    by (intros ->; apply Hname; reflexivity).
  apply truthy_JsStr in Hname, Hname', Hprompt, Htok.
  unfold createIssueAndAssignCopilot, tryCatch, bind, getState, throw, ret,
    Logger.info, Logger.warn, Logger.error, tell, APIUtils.githubAPI, bind,
    getState, throw, APIUtils.secureFetch.
  cbn [appState emit]. rewrite Hname, Hname'. cbn [negb orb].
  rewrite Hprompt. cbn [negb appState emit].
  rewrite Htok. cbn [negb appState emit].
  fold (issueDataOf (appState w)). rewrite Hans. cbn [isOk].
  eexists. reflexivity.
Qed.

Lemma executeWorkflow_run (env : Env) (fuel : nat) (promptInput : jsstring)
      (w w1 : World) (targetRepos : list Repo) :
  resolveTargetRepos env promptInput (emit (startEntry (appState w)) w)
  = (Returned targetRepos, w1) ->
  executeWorkflow env fuel promptInput w
  = match processRepositories env fuel targetRepos []
            (emit (processingEntry targetRepos) w1) with
    | (Returned results, w2) => reportResults results w2
    | (Thrown error, w2) =>
        (Logger.error (lit "Workflow execution error") (Some error) [] ;;
         alert (lit "Workflow execution failed: " ++ userMessage error)) w2
    | (Unfinished, w2) => (Unfinished, w2)
    end.
Proof.
  intro Hres. unfold executeWorkflow.
  unfold tryCatch at 1. unfold bind at 1. unfold getState at 1.
  unfold bind at 1. unfold Logger.info at 1. unfold tell at 1.
  unfold bind at 1. fold (startEntry (appState w)). rewrite Hres.
  unfold bind at 1. unfold Logger.info at 1. unfold tell at 1.
  fold (processingEntry targetRepos).
  unfold bind at 1.
  destruct (processRepositories env fuel targetRepos []
              (emit (processingEntry targetRepos) w1))
    as [[results | e |] w2]; try reflexivity.
  rewrite reportResults_run. reflexivity.
Qed.

(** *** Runs that are not cut off *)

Lemma finishes_ret {A} (a : A) : finishes (ret a).
Proof. intro w. discriminate. Qed.

Lemma finishes_throw {A} (e : JsError) : finishes (@throw A e).
Proof. intro w. discriminate. Qed.

Lemma finishes_getState : finishes getState.
Proof. intro w. discriminate. Qed.

Lemma finishes_modifyState (f : AppState -> AppState) :
  finishes (modifyState f).
Proof. intro w. discriminate. Qed.

Lemma finishes_tell (e : Event) : finishes (tell e).
Proof. intro w. discriminate. Qed.

Lemma finishes_bind {A B} (m : M A) (k : A -> M B) :
  finishes m -> (forall a, finishes (k a)) -> finishes (bind m k).
Proof.
  intros Hm Hk w. unfold bind. specialize (Hm w).
  destruct (m w) as [[a | e |] w1]; cbn [fst] in *;
    [apply Hk | discriminate | congruence].
Qed.

Lemma finishes_tryCatch {A} (m : M A) (h : JsError -> M A) :
  finishes m -> (forall e, finishes (h e)) -> finishes (tryCatch m h).
Proof.
  intros Hm Hh w. unfold tryCatch. specialize (Hm w).
  destruct (m w) as [[a | e |] w1]; cbn [fst] in *;
    [discriminate | apply Hh | congruence].
Qed.

Lemma finishes_githubAPI {T}
      (serve : list Event -> Request -> FetchOutcome T) (req : Request) :
  finishes (APIUtils.githubAPI serve req).
Proof.
  intro w. unfold APIUtils.githubAPI, bind, getState, throw,
    APIUtils.secureFetch.
  destruct (negb (truthy (JsStr (authToken (appState w)))));
    [discriminate|].
  destruct (serve (events w) req); discriminate.
Qed.

(** Discharges a [finishes] goal along the structure of the computation. *)
Ltac finish :=
  repeat first
    [ apply finishes_githubAPI
    | apply finishes_ret
    | apply finishes_throw
    | apply finishes_getState
    | apply finishes_modifyState
    | apply finishes_tell
    | solve [auto]
    | apply finishes_bind; [| intro ]
    | apply finishes_tryCatch; [| intro ]
    | match goal with
      | |- finishes (match ?x with _ => _ end) => destruct x
      | |- finishes (if ?b then _ else _) => destruct b
      end ].

Lemma finishes_resolveTargetRepos (env : Env) (promptInput : jsstring) :
  finishes (resolveTargetRepos env promptInput).
Proof.
  unfold resolveTargetRepos, getAllOrgRepos, getReposWithCustomProperties,
    Logger.info, Logger.error.
  finish.
Qed.

Lemma finishes_createIssueAndAssignCopilot (env : Env) (fuel : nat)
      (repoName : jsstring) :
  (forall n, finishes (assignCopilotToIssue env fuel repoName n)) ->
  finishes (createIssueAndAssignCopilot env fuel repoName).
Proof.
  intro Hassign.
  unfold createIssueAndAssignCopilot, Logger.info, Logger.warn, Logger.error.
  finish.
Qed.

Lemma finishes_processRepositories (env : Env) (fuel : nat) :
  (forall repoName n, finishes (assignCopilotToIssue env fuel repoName n)) ->
  forall targetRepos results,
    finishes (processRepositories env fuel targetRepos results).
Proof.
  intros Hassign targetRepos.
  induction targetRepos as [|repo rest IH]; intro results;
    cbn [processRepositories].
  - apply finishes_ret.
  - unfold Logger.error, delay.
    apply finishes_bind.
    + apply finishes_tryCatch.
      * apply finishes_bind; [|intro; apply finishes_ret].
        apply finishes_createIssueAndAssignCopilot. intro n. apply Hassign.
      * intro e. finish.
    + intro result. apply finishes_bind; [destruct rest; finish|].
      intros _. apply IH.
Qed.

Lemma finishes_executeWorkflow (env : Env) (fuel : nat)
      (promptInput : jsstring) :
  (forall repoName n, finishes (assignCopilotToIssue env fuel repoName n)) ->
  finishes (executeWorkflow env fuel promptInput).
Proof.
  intro Hassign. unfold executeWorkflow.
  apply finishes_tryCatch.
  - apply finishes_bind; [apply finishes_getState|]. intro st.
    apply finishes_bind; [apply finishes_tell|]. intros _.
    apply finishes_bind; [apply finishes_resolveTargetRepos|]. intro targets.
    apply finishes_bind; [apply finishes_tell|]. intros _.
    apply finishes_bind; [apply finishes_processRepositories; exact Hassign|].
    intros results w. rewrite reportResults_run. discriminate.
  - intro e. unfold Logger.error, alert. finish.
Qed.

Lemma successCount_le (results : list WorkflowResult) :
  successCount results <= List.length results.
Proof. unfold successCount. apply filter_length_le. Qed.

(** C1. Take a run of [executeWorkflow] whose checks pass and whose
    target list is resolved (it is then not empty), and that is not cut
    off.  The loop pushes one result per target, in order; the successes
    are as many as the issue creations GitHub answered ok during the
    loop, the failures are the rest.  The run then tells the user exactly
    one thing: the success screen when at least one repository succeeded,
    and otherwise the alert that no issue was created and permissions
    should be checked.  A repository whose issue creation is answered ok
    is a success whatever the bot assignment does.  A run is never cut
    off when every bot assignment finishes within the fuel.  In the run
    over R1
    (created), R2 (creation refused with 403) and R3 (created, bot
    assignment throws) the results are success, failure, success: the
    success screen is shown with 2 successes and 1 failure logged. *)
Theorem executeWorkflow_reports_by_issue_creation :
  forall (env : Env) (fuel : nat),
    (forall promptInput w targetRepos w1,
        resolveTargetRepos env promptInput (emit (startEntry (appState w)) w)
        = (Returned targetRepos, w1) ->
        fst (executeWorkflow env fuel promptInput w) <> Unfinished ->
        exists results w2 w',
          targetRepos <> []
          /\ processRepositories env fuel targetRepos []
               (emit (processingEntry targetRepos) w1)
             = (Returned results, w2)
          /\ executeWorkflow env fuel promptInput w = (Returned tt, w')
          /\ events w' = events w2 ++ completionEvents results
          /\ map res_repo results = map repo_name targetRepos
          /\ successCount results + failureCount results
             = List.length targetRepos
          /\ issuesCreated (events w')
             = issuesCreated (events w1) + successCount results
          /\ reportsOf (events w')
             = reportsOf (events w)
               ++ (if 0 <? successCount results then [EvShowSuccess]
                   else [EvAlert permissionsMessage]))
    /\ (forall repoName w issue,
          readyToPost (appState w) repoName ->
          (forall evs,
              serveIssue env evs
                (ReqCreateIssue (orgName (appState w)) repoName
                   (issueDataOf (appState w))) = HttpOk issue) ->
          (forall w3,
              fst (assignCopilotToIssue env fuel repoName
                     (issue_number issue) w3) <> Unfinished) ->
          exists w',
            createIssueAndAssignCopilot env fuel repoName w
            = (Returned issue, w'))
    /\ ((forall repoName n,
            finishes (assignCopilotToIssue env fuel repoName n)) ->
        forall promptInput, finishes (executeWorkflow env fuel promptInput))
    /\ (forall promptInput w w1 r1 r2 r3 i1 i3 statusText,
          resolveTargetRepos env promptInput
            (emit (startEntry (appState w)) w)
          = (Returned [r1; r2; r3], w1) ->
          readyToPost (appState w1) (repo_name r1) ->
          readyToPost (appState w1) (repo_name r2) ->
          readyToPost (appState w1) (repo_name r3) ->
          (forall evs,
              serveIssue env evs
                (ReqCreateIssue (orgName (appState w1)) (repo_name r1)
                   (issueDataOf (appState w1))) = HttpOk i1) ->
          (forall evs,
              serveIssue env evs
                (ReqCreateIssue (orgName (appState w1)) (repo_name r2)
                   (issueDataOf (appState w1))) = HttpFail 403 statusText) ->
          (forall evs,
              serveIssue env evs
                (ReqCreateIssue (orgName (appState w1)) (repo_name r3)
                   (issueDataOf (appState w1))) = HttpOk i3) ->
          (forall w3,
              fst (assignCopilotToIssue env fuel (repo_name r1)
                     (issue_number i1) w3) <> Unfinished) ->
          (forall w3, exists e w4,
              assignCopilotToIssue env fuel (repo_name r3)
                (issue_number i3) w3 = (Thrown e, w4)) ->
          exists error2 w2 w',
            let results := [successResult r1 i1; failureResult r2 error2;
                            successResult r3 i3] in
            processRepositories env fuel [r1; r2; r3] []
              (emit (processingEntry [r1; r2; r3]) w1)
            = (Returned results, w2)
            /\ executeWorkflow env fuel promptInput w = (Returned tt, w')
            /\ errorMessage error2
               = lit "HTTP " ++ ofNat 403 ++ lit ": " ++ statusText
            /\ map res_success results = [true; false; true]
            /\ successCount results = 2
            /\ failureCount results = 1
            /\ In (EvLog INFO (lit "Workflow execution completed") None
                     [("total"%string, LNum 3);
                      ("successful"%string, LNum 2);
                      ("failed"%string, LNum 1)]) (events w')
            /\ reportsOf (events w')
               = reportsOf (events w) ++ [EvShowSuccess]).
Proof.
  intros env fuel. split; [|split; [|split]].
  - intros input w targets w1 Hres Hfin.
    rewrite (executeWorkflow_run env fuel input w w1 targets Hres) in Hfin |- *.
    pose proof (processRepositories_results env fuel targets []
                  (emit (processingEntry targets) w1)) as Hloop.
    destruct (processRepositories env fuel targets []
                (emit (processingEntry targets) w1))
      as [[results | e |] w2]; [| contradiction | cbn in Hfin; congruence].
    destruct Hloop as (new & Heq & Hnames & Hcount & Hst & Hrep).
    cbn [app] in Heq. subst new.
    rewrite reportResults_run.
    exists results, w2. eexists.
    split; [exact (resolveTargetRepos_nonempty env input _ w1 targets Hres)|].
    split; [reflexivity|]. split; [reflexivity|].
    cbn [events]. split; [reflexivity|]. split; [exact Hnames|].
    pose proof (sameReports_resolveTargetRepos env input
                  (emit (startEntry (appState w)) w)) as Hr0.
    rewrite Hres in Hr0. cbn [snd] in Hr0. unfold sameReports in Hr0.
    rewrite issuesCreated_emit in Hcount.
    rewrite !reportsOf_emit in *. cbn [startEntry processingEntry] in *.
    rewrite !app_nil_r in *.
    split; [|split].
    + unfold failureCount. pose proof (successCount_le results).
      apply (f_equal (@List.length _)) in Hnames.
      rewrite !length_map in Hnames. lia.
    + rewrite issuesCreated_app. unfold completionEvents.
      unfold issuesCreated at 2.
      destruct (0 <? successCount results);
        [destruct (0 <? failureCount results)|]; cbn; cbn in Hcount; lia.
    + rewrite reportsOf_app, reportsOf_completionEvents. congruence.
  - intros repoName w issue Hready Hans Hassign.
    apply createIssueAndAssignCopilot_answered_ok; assumption.
  - intros Hassign input. apply finishes_executeWorkflow. exact Hassign.
  - intros input w w1 r1 r2 r3 i1 i3 txt Hres Hr1 Hr2 Hr3 Hs1 Hs2 Hs3
           Ha1 Ha3.
    assert (Ha3' : forall w3,
               fst (assignCopilotToIssue env fuel (repo_name r3)
                      (issue_number i3) w3) <> Unfinished).
    { intro w3. destruct (Ha3 w3) as (e & w4 & ->). discriminate. }
    set (wp := emit (processingEntry [r1; r2; r3]) w1).
    assert (Hwp : appState wp = appState w1) by reflexivity.
    (* R1 *)
    destruct (createIssueAndAssignCopilot_answered_ok env fuel (repo_name r1)
                wp i1 Hr1 Hs1 Ha1) as (wa & Hc1).
    pose proof (createIssueAndAssignCopilot_outcome env fuel (repo_name r1) wp)
      as Ho1. rewrite Hc1 in Ho1. destruct Ho1 as (Hsta & _ & Hrepa).
    rewrite (processRepositories_cons_ok env fuel r1 [r2; r3] [] wp wa i1 Hc1).
    set (wb := emit (EvDelay APP_CONFIG.RATE_LIMIT_DELAY) wa).
    assert (Hwb : appState wb = appState w1)
      by (subst wb; cbn [appState emit]; congruence).
    (* R2 *)
    destruct (createIssueAndAssignCopilot_refused env fuel (repo_name r2)
                wb 403 txt) as (wc & Hc2).
    { rewrite Hwb. exact Hr2. }
    { intro evs. rewrite Hwb. apply Hs2. }
    pose proof (createIssueAndAssignCopilot_outcome env fuel (repo_name r2) wb)
      as Ho2. rewrite Hc2 in Ho2. destruct Ho2 as (Hstc & _ & Hrepc).
    rewrite (processRepositories_cons_fail env fuel r2 [r3] _ wb wc _ Hc2).
    match goal with
    | |- context [processRepositories env fuel [r3] _ ?w0] => set (wd := w0)
    end.
    assert (Hwd : appState wd = appState w1)
      by (subst wd; cbn [appState emit]; congruence).
    (* R3 *)
    destruct (createIssueAndAssignCopilot_answered_ok env fuel (repo_name r3)
                wd i3) as (we & Hc3).
    { rewrite Hwd. exact Hr3. }
    { intro evs. rewrite Hwd. apply Hs3. }
    { exact Ha3'. }
    pose proof (createIssueAndAssignCopilot_outcome env fuel (repo_name r3) wd)
      as Ho3. rewrite Hc3 in Ho3. destruct Ho3 as (Hste & _ & Hrepe).
    rewrite (processRepositories_cons_ok env fuel r3 [] _ wd we i3 Hc3).
    cbn [processRepositories app]. unfold ret.
    eexists. exists we. eexists. cbv zeta.
    split; [reflexivity|].
    rewrite (executeWorkflow_run env fuel input w w1 [r1; r2; r3] Hres).
    fold wp.
    rewrite (processRepositories_cons_ok env fuel r1 [r2; r3] [] wp wa i1 Hc1).
    fold wb.
    rewrite (processRepositories_cons_fail env fuel r2 [r3] _ wb wc _ Hc2).
    fold wd.
    rewrite (processRepositories_cons_ok env fuel r3 [] _ wd we i3 Hc3).
    cbn [processRepositories app]. unfold ret.
    rewrite reportResults_run.
    split; [reflexivity|]. split; [reflexivity|].
    split; [reflexivity|]. split; [reflexivity|]. split; [reflexivity|].
    cbn [events]. split.
    + apply in_or_app. right. left. reflexivity.
    + rewrite reportsOf_app, reportsOf_completionEvents.
      change (0 <? successCount _) with true. cbv iota.
      f_equal.
      pose proof (sameReports_resolveTargetRepos env input
                    (emit (startEntry (appState w)) w)) as Hr0.
      rewrite Hres in Hr0. cbn [snd] in Hr0. unfold sameReports in Hr0.
      rewrite reportsOf_emit, app_nil_r in Hr0.
      rewrite Hrepe. subst wd. rewrite !reportsOf_emit, !app_nil_r.
      rewrite Hrepc. subst wb. rewrite !reportsOf_emit, !app_nil_r.
      rewrite Hrepa. subst wp. rewrite !reportsOf_emit, !app_nil_r.
      exact Hr0.
Qed.

(** ** The statements at work on a concrete organization *)

Example sanitize_example :
  sanitizeString (JsStr (lit "<b>Tom & Jerry</b>")) = lit "bTom  Jerry/b".
Proof. reflexivity. Qed.

Example isValidOrgName_examples :
  isValidOrgName (JsStr (lit "my-org-1")) = true
  /\ isValidOrgName (JsStr (lit "a")) = true
  /\ isValidOrgName (JsStr (lit "-my-org")) = false
  /\ isValidOrgName (JsStr (lit "my-org-")) = false
  /\ isValidOrgName (JsNumber 7) = false.
Proof. repeat split; reflexivity. Qed.

Example isValidToken_examples :
  isValidToken (JsStr (lit "ghp_0123456789abcdefghij")) = true
  /\ isValidToken (JsStr (lit "ghp_0123")) = false.
Proof. split; vm_compute; reflexivity. Qed.

Lemma canNavigateToStep3_witness :
  credentialsAccepted Demo.session
  /\ truthy (canNavigateToStep Demo.session 3) = true
  /\ truthy (canNavigateToStep
               (validateInputs (lit "-acme") (lit "short") Demo.session) 3)
     = false.
Proof.
  assert (H : credentialsAccepted Demo.session)
    by (split; right; vm_compute; reflexivity).
  destruct (canNavigateToStep3_iff_valid_credentials Demo.session H)
    as [Hnow Hafter].
  split; [exact H|]. split.
  - rewrite Hnow. vm_compute. reflexivity.
  - rewrite (Hafter (lit "-acme") (lit "short")). vm_compute. reflexivity.
Defined.

Lemma api_calls_fail_fast_witness :
  authToken (appState Demo.freshWorld) = []
  /\ APIUtils.githubAPI (serveRepos Demo.env) (ReqOrgRepos (lit "acme") 100)
       Demo.freshWorld
     = (Thrown (APIError (lit "Authentication token required") 401 None),
        Demo.freshWorld)
  /\ events (snd (APIUtils.githubGraphQL Demo.env (lit "query") (lit "{}")
                    Demo.freshWorld)) = [].
Proof.
  destruct (api_calls_fail_fast_without_token Demo.env (list Repo)
              (serveRepos Demo.env) (ReqOrgRepos (lit "acme") 100)
              (lit "query") (lit "{}") Demo.freshWorld eq_refl)
    as [Hrest Hgql].
  split; [reflexivity|]. split; [exact Hrest|].
  rewrite Hgql. reflexivity.
Defined.

Lemma loadAllRepositories_250_witness :
  List.length Demo.repos = 250
  /\ exists w',
       loadAllRepositories Demo.env Demo.world = (Returned Demo.repos, w')
       /\ fetchesOf (events w')
          = [(ReqOrgReposPage (lit "acme") 100 1, true);
             (ReqOrgReposPage (lit "acme") 100 2, true);
             (ReqOrgReposPage (lit "acme") 100 3, true)].
Proof.
  split; [reflexivity|].
  destruct (loadAllRepositories_accumulates_pages Demo.env)
    as (_ & _ & _ & _ & _ & H250).
  destruct (H250 Demo.repos Demo.world) as (w' & Hrun & Hfetch & _).
  - reflexivity.
  - discriminate.
  - intros evs p. reflexivity.
  - exists w'. split; [exact Hrun | exact Hfetch].
Defined.

Lemma views_recomputed_witness :
  0 < itemsPerPage (reposPagination (appState Demo.world))
  /\ 0 < itemsPerPage (propertiesPagination (appState Demo.world))
  /\ pageInvariant
       (propertiesPagination
          (filterProperties asciiToLowerCase (lit "Team")
             (appState Demo.world)))
  /\ exists w',
       loadRepositories Demo.env Demo.world = (Returned tt, w')
       /\ pageInvariant (reposPagination (appState w')).
Proof.
  assert (Hr : 0 < itemsPerPage (reposPagination (appState Demo.world)))
    by (vm_compute; lia).
  assert (Hp : 0 < itemsPerPage (propertiesPagination (appState Demo.world)))
    by (vm_compute; lia).
  destruct (views_recomputed_after_filter_or_load Demo.env asciiToLowerCase
              (lit "Team") Demo.world Hr Hp)
    as (_ & Hprops & (w' & Hrun & Hview & Hitems & Hinv) & _).
  split; [exact Hr|]. split; [exact Hp|]. split.
  - cbv zeta in Hprops. destruct Hprops as [_ Hiff]. apply Hiff.
    vm_compute. discriminate.
  - exists w'. split; [exact Hrun|]. apply Hinv. rewrite Hitems.
    destruct (loadRepositories_runs Demo.env Demo.world)
      as (repos & w1 & w2 & Hload & Hrun2 & Hst).
    destruct (loadAllRepositories_loop_250 Demo.env Demo.repos
                (emit (EvLog INFO (lit "Starting repository loading") None
                         [("org"%string,
                           LStr (orgName (appState Demo.world)))])
                      Demo.world)
                (APP_CONFIG.MAX_ITEMS - 2))
      as (w3 & Hload3 & _).
    + reflexivity.
    + discriminate.
    + intros evs p. reflexivity.
    + assert (Heq : (Returned Demo.repos, w3) = (Returned repos, w1))
        by (rewrite <- Hload3; exact Hload).
      inversion Heq; subst repos.
      rewrite Hrun in Hrun2. inversion Hrun2; subst w2.
      rewrite Hst. vm_compute. discriminate.
Defined.

Lemma filterRepos_remote_search_witness :
  List.length (sanitizeString (JsStr (trim (asciiToLowerCase (lit "<Z>")))))
  = 1
  /\ (exists w',
        filterRepos Demo.env asciiToLowerCase (lit "<Z>") Demo.world
        = (Returned tt, w')
        /\ events w' = events Demo.world)
  /\ (exists w',
        filterRepos Demo.env asciiToLowerCase (lit "ZZ") Demo.world
        = (Returned tt, w')
        /\ fetchesOf (events w')
           = [(ReqSearchRepositories (lit "zz") (lit "acme") 50, true)]
        /\ names (filteredItems (reposPagination (appState w')))
           = [lit "zz-tools"; lit "zz-docs"]).
Proof.
  split; [reflexivity|]. split.
  - destruct (filterRepos_remote_search_gated Demo.env asciiToLowerCase
                (lit "<Z>") Demo.world) as (_ & _ & Hone & _).
    destruct (Hone eq_refl) as (w' & Hrun & Hev & _).
    exists w'. split; [exact Hrun | exact Hev].
  - destruct (filterRepos_remote_search_gated Demo.env asciiToLowerCase
                (lit "ZZ") Demo.world) as (_ & _ & _ & Hopen & _).
    destruct Hopen as (w' & Hrun & Hfetch & _ & Hfiltered).
    + vm_compute. lia.
    + vm_compute. lia.
    + reflexivity.
    + discriminate.
    + exists w'. split; [exact Hrun|]. split; [exact Hfetch|].
      rewrite Hfiltered. reflexivity.
Defined.

Lemma findCopilotBot_witness :
  servesPages Demo.env (lit "acme") (lit "R1") [] None
    [Demo.firstActors; Demo.lastActors]
  /\ exists w',
       findCopilotBot Demo.env 2 (lit "R1") Demo.world
       = (Returned (Some {| actor_id := lit "BOT_2";
                            actor_login := Some (lit "copilot-swe-agent") |}),
          w')
       /\ fetchesOf (events w')
          = [(ReqSuggestedActors (lit "acme") (lit "R1") 100 None, true);
             (ReqSuggestedActors (lit "acme") (lit "R1") 100
                (Some (lit "cursor-1")), true)].
Proof.
  assert (H : servesPages Demo.env (lit "acme") (lit "R1") [] None
                [Demo.firstActors; Demo.lastActors]).
  { simpl. repeat split. left. reflexivity. }
  split; [exact H|].
  destruct (findCopilotBot_pages_until_found_or_exhausted Demo.env 2
              (lit "R1") Demo.world [Demo.firstActors; Demo.lastActors])
    as (w' & Hrun & Hfetch & _).
  - exact H.
  - simpl. lia.
  - exists w'. split; [exact Hrun | exact Hfetch].
Defined.

Lemma executeWorkflow_scenario_witness :
  exists w',
    executeWorkflow Demo.env 5 (lit "Add tests") Demo.world
    = (Returned tt, w')
    /\ reportsOf (events w') = [EvShowSuccess]
    /\ issuesCreated (events w') = 2
    /\ In (EvLog INFO (lit "Workflow execution completed") None
             [("total"%string, LNum 3); ("successful"%string, LNum 2);
              ("failed"%string, LNum 1)]) (events w').
Proof.
  set (w1 := snd (resolveTargetRepos Demo.env (lit "Add tests")
                    (emit (startEntry (appState Demo.world)) Demo.world))).
  assert (Hres : resolveTargetRepos Demo.env (lit "Add tests")
                   (emit (startEntry (appState Demo.world)) Demo.world)
                 = (Returned [Demo.repo "R1"; Demo.repo "R2"; Demo.repo "R3"],
                    w1))
    by (subst w1; vm_compute; reflexivity).
  destruct (executeWorkflow_reports_by_issue_creation Demo.env 5)
    as (Hgeneral & _ & _ & Hscenario).
  destruct (Hscenario (lit "Add tests") Demo.world w1
              (Demo.repo "R1") (Demo.repo "R2") (Demo.repo "R3")
              Demo.issue Demo.issue (lit "Forbidden") Hres)
    as (error2 & w2 & w' & Hloop & Hrun & _ & _ & _ & _ & Hlog & Hreports).
  - subst w1. vm_compute. repeat split; discriminate.
  - subst w1. vm_compute. repeat split; discriminate.
  - subst w1. vm_compute. repeat split; discriminate.
  - intro evs. subst w1. vm_compute. reflexivity.
  - intro evs. subst w1. vm_compute. reflexivity.
  - intro evs. subst w1. vm_compute. reflexivity.
  - intro w3. vm_compute. discriminate.
  - intro w3. eexists. eexists. vm_compute. reflexivity.
  - exists w'. split; [exact Hrun|]. split; [exact Hreports|].
    split; [|exact Hlog].
    destruct (Hgeneral (lit "Add tests") Demo.world _ w1 Hres)
      as (results & w2' & w'' & _ & Hloop' & Hrun' & _ & _ & _ & Hcount & _).
    + rewrite Hrun. discriminate.
    + rewrite Hrun in Hrun'. inversion Hrun'; subst w''.
      rewrite Hloop in Hloop'. inversion Hloop'; subst results.
      rewrite Hcount. subst w1. vm_compute. reflexivity.
Defined.

(* ================================================================== *)
(** * Further properties *)
(* ================================================================== *)

(** ** Tokens *)

Lemma inClass_wordChar (c : CodeUnit) : inClass wordChar c = isWordChar c.
Proof.
  unfold inClass, wordChar, isWordChar, isAlnum. simpl.
  destruct (N.leb 65 c && N.leb c 90), (N.leb 97 c && N.leb c 122),
    (N.leb 48 c && N.leb c 57), (N.eqb c 95); reflexivity.
Qed.

Lemma Lang_power_class (cls : list ClassItem) (n : nat) :
  forall s,
    Lang (RPower n (RClass cls)) s
    <-> List.length s = n /\ forallb (inClass cls) s = true.
Proof.
  induction n as [|n IH]; intro s; cbn [RPower].
  - rewrite Lang_eps. split.
    + intros ->. auto.
    + intros [H _]. apply length_zero_iff_nil. assumption.
  - rewrite Lang_seq. split.
    + intros (s1 & s2 & -> & H1 & H2).
      apply Lang_class in H1. destruct H1 as (c & -> & Hc).
      apply IH in H2. destruct H2 as [Hlen Hall].
      cbn. rewrite Hc, Hall, Hlen. auto.
    + intros [Hlen Hall]. destruct s as [|c s]; [discriminate|].
      cbn in Hlen, Hall. apply andb_true_iff in Hall.
      destruct Hall as [Hc Hall].
      exists [c], s. split; [reflexivity|]. split.
      * apply Lang_class. eauto.
      * apply IH. split; [lia | assumption].
Qed.

Lemma Lang_atLeast_class (cls : list ClassItem) (n : nat) (s : jsstring) :
  Lang (RAtLeast n (RClass cls)) s
  <-> n <= List.length s /\ forallb (inClass cls) s = true.
Proof.
  unfold RAtLeast. rewrite Lang_seq. split.
  - intros (s1 & s2 & -> & H1 & H2).
    apply Lang_power_class in H1. apply Lang_star_class in H2.
    destruct H1 as [Hlen Hall]. rewrite length_app, forallb_app, Hall, H2.
    split; [lia | reflexivity].
  - intros [Hlen Hall].
    exists (firstn n s), (skipn n s).
    rewrite <- (firstn_skipn n s) in Hall. rewrite forallb_app in Hall.
    apply andb_true_iff in Hall. destruct Hall as [H1 H2].
    split; [symmetry; apply firstn_skipn|]. split.
    + apply Lang_power_class. split; [|assumption].
      rewrite length_firstn. lia.
    + apply Lang_star_class. assumption.
Qed.

Lemma test_tokenPattern (s : jsstring) :
  test tokenPattern s = true
  <-> 20 <= List.length s /\ forallb isWordChar s = true.
Proof.
  unfold tokenPattern. rewrite test_Lang, Lang_atLeast_class.
  rewrite (forallb_ext_eq _ _ s inClass_wordChar). tauto.
Qed.

(** X1. [isValidToken] accepts exactly the strings that, once trimmed,
    are at least 20 characters long and made of letters, digits and
    underscores only; anything that is not a string is rejected. *)
Theorem isValidToken_iff_long_word :
  forall v : JsValue,
    isValidToken v = true
    <-> exists t, v = JsStr t
                  /\ 20 <= List.length (trim t)
                  /\ forallb isWordChar (trim t) = true.
Proof.
  intro v. split.
  - destruct v as [| | | |t|]; try discriminate.
    unfold isValidToken. destruct t as [|c t]; [discriminate|].
    cbn [truthy negb]. intro H. apply test_tokenPattern in H.
    exists (c :: t). split; [reflexivity | exact H].
  - intros (t & -> & Hlen & Hall).
    unfold isValidToken. destruct t as [|c t].
    + cbn in Hlen. lia.
    + cbn [truthy negb]. apply test_tokenPattern. auto.
Qed.

Lemma maskToken_parts (token : jsstring) :
  8 <= List.length token ->
  token = firstn 4 token
          ++ firstn (List.length token - 8) (skipn 4 token)
          ++ skipn (List.length token - 4) token.
Proof.
  intro Hlen.
  rewrite <- (firstn_skipn 4 token) at 1. f_equal.
  rewrite <- (firstn_skipn (List.length token - 8) (skipn 4 token)) at 1.
  f_equal. rewrite skipn_skipn. f_equal. lia.
Qed.

(** X2. [maskToken] shows three stars and at most eight characters of
    the token: nothing of a token shorter than 8, and of a longer one the
    first four and the last four, the characters in between being
    replaced by the stars.  A token of exactly 8 characters is therefore
    shown whole around the stars. *)
Theorem maskToken_discloses_ends_only :
  forall token : jsstring,
    exists head middle tail,
      SecurityUtils.maskToken token = head ++ lit "***" ++ tail
      /\ (List.length token < 8 -> head = [] /\ tail = [])
      /\ (8 <= List.length token ->
          token = head ++ middle ++ tail
          /\ List.length head = 4 /\ List.length tail = 4
          /\ List.length middle = List.length token - 8)
      /\ List.length (SecurityUtils.maskToken token)
         = (if List.length token <? 8 then 3 else 11).
Proof.
  intro token. unfold SecurityUtils.maskToken.
  destruct (Nat.ltb_spec (List.length token) 8) as [Hlt | Hge].
  - rewrite orb_true_r. exists [], [], [].
    split; [reflexivity|]. split; [auto|]. split; [lia | reflexivity].
  - assert (Htruthy : truthy (JsStr token) = true).
    { destruct token; [simpl in Hge; lia | reflexivity]. }
    rewrite Htruthy. cbn [negb orb].
    exists (firstn 4 token),
           (firstn (List.length token - 8) (skipn 4 token)),
           (skipn (List.length token - 4) token).
    split; [reflexivity|]. split; [lia|]. split.
    + intros _. split; [apply maskToken_parts; assumption|].
      rewrite !length_firstn, !length_skipn. lia.
    + rewrite !length_app, length_firstn, length_skipn.
      change (List.length (lit "***")) with 3. lia.
Qed.

(** ** Page navigation *)

Lemma changePage_cases (A : Type) (direction : Z) (p : Pagination A) :
  ((1 <= Z.of_nat (currentPage p) + direction <= Z.of_nat (totalPages p))%Z
   /\ changePage direction p
      = set_currentPage (Z.to_nat (Z.of_nat (currentPage p) + direction)) p)
  \/ (~ (1 <= Z.of_nat (currentPage p) + direction
         <= Z.of_nat (totalPages p))%Z
      /\ changePage direction p = p).
Proof.
  unfold changePage. cbv zeta.
  destruct ((1 <=? Z.of_nat (currentPage p) + direction)%Z
            && (Z.of_nat (currentPage p) + direction
                <=? Z.of_nat (totalPages p))%Z) eqn:Hmove.
  - left. apply andb_true_iff in Hmove. destruct Hmove as [Hlo Hhi].
    apply Z.leb_le in Hlo, Hhi. auto.
  - right. split; [|reflexivity]. intros [Hlo Hhi].
    apply Z.leb_le in Hlo, Hhi. rewrite Hlo, Hhi in Hmove. discriminate.
Qed.

(** X3. Moving by any step from a page inside [1, totalPages] ends on a
    page inside it, and changes nothing but the current page, which is
    either the old one or the old one plus the step; a step that would
    leave the range is not taken; and a step forward that was taken is
    undone by the step back. *)
Theorem changePage_stays_in_range :
  forall (A : Type) (direction : Z) (p : Pagination A),
    pageInvariant p ->
    pageInvariant (changePage direction p)
    /\ totalPages (changePage direction p) = totalPages p
    /\ filteredItems (changePage direction p) = filteredItems p
    /\ itemsPerPage (changePage direction p) = itemsPerPage p
    /\ searchTerm (changePage direction p) = searchTerm p
    /\ (Z.of_nat (currentPage (changePage direction p))
        = (Z.of_nat (currentPage p) + direction)%Z
        \/ changePage direction p = p
           /\ ~ (1 <= Z.of_nat (currentPage p) + direction
                 <= Z.of_nat (totalPages p))%Z)
    /\ (currentPage (changePage 1 p) <> currentPage p ->
        currentPage (changePage (-1) (changePage 1 p)) = currentPage p).
Proof.
  intros A direction p Hinv. unfold pageInvariant in *.
  split; [|split; [|split; [|split; [|split; [|split]]]]].
  1-6: destruct (changePage_cases A direction p) as [[Hin ->] | [Hout ->]];
    cbn [set_currentPage currentPage totalPages filteredItems itemsPerPage
         searchTerm]; try reflexivity; try lia; auto.
  destruct (changePage_cases A 1 p) as [[Hin ->] | [Hout ->]].
  - destruct (changePage_cases A (-1)
                (set_currentPage (Z.to_nat (Z.of_nat (currentPage p) + 1)) p))
      as [[Hin' ->] | [Hout' ->]];
      cbn [set_currentPage currentPage totalPages] in *; intros _; lia.
  - intro H. congruence.
Qed.

Lemma slices_cover (A : Type) (d n : nat) :
  forall l : list A,
    List.length l <= n * d ->
    List.concat (map (fun k => firstn d (skipn (k * d) l)) (seq 0 n)) = l.
Proof.
  induction n as [|n IH]; intros l Hlen.
  - destruct l; [reflexivity | simpl in Hlen; lia].
  - transitivity (firstn d l ++ skipn d l); [|apply firstn_skipn].
    rewrite <- (IH (skipn d l)).
    + cbn [seq map List.concat]. f_equal. rewrite <- seq_shift, map_map.
      f_equal. apply map_ext. intro k. rewrite skipn_skipn.
      f_equal. f_equal. lia.
    + rewrite length_skipn. lia.
Qed.

Lemma visibleItems_page (A : Type) (k : nat) (p : Pagination A) :
  visibleItems (set_currentPage (S k) p)
  = firstn (itemsPerPage p) (skipn (k * itemsPerPage p) (filteredItems p)).
Proof. reflexivity. Qed.

(** X4. The slices the two lists render: once a view has been recomputed,
    its pages 1 to [totalPages], taken in order, are exactly the filtered
    items, each item on one page; no page shows more than [itemsPerPage]
    items, and none of these pages is empty. *)
Theorem visible_pages_partition_the_view :
  forall (A : Type) (p : Pagination A),
    viewRecomputed p ->
    List.concat (map (fun k => visibleItems (set_currentPage k p))
                (seq 1 (totalPages p)))
    = filteredItems p
    /\ (forall k,
          List.length (visibleItems (set_currentPage k p)) <= itemsPerPage p)
    /\ (forall k,
          1 <= k <= totalPages p ->
          visibleItems (set_currentPage k p) <> []).
Proof.
  intros A p (_ & _ & Hhi & Hlo). split; [|split].
  - rewrite <- seq_shift, map_map.
    rewrite (map_ext _ (fun k => firstn (itemsPerPage p)
                          (skipn (k * itemsPerPage p) (filteredItems p))));
      [|intro k; apply visibleItems_page].
    apply slices_cover. assumption.
  - intros [|k]; [cbn; lia|].
    rewrite visibleItems_page. rewrite length_firstn. lia.
  - intros [|k] [H1 Hk] Hnil; [lia|].
    rewrite visibleItems_page in Hnil.
    apply (f_equal (@List.length A)) in Hnil.
    rewrite length_firstn, length_skipn in Hnil. cbn [List.length] in Hnil.
    assert (S k * itemsPerPage p <= totalPages p * itemsPerPage p)
      by (apply Nat.mul_le_mono_r; lia).
    cbn [Nat.mul] in H. lia.
Qed.

(** ** Selections *)

Lemma findIndex_None (A : Type) (test : A -> bool) (l : list A) :
  findIndex test l = None <-> forall x, In x l -> test x = false.
Proof.
  induction l as [|y l IH]; cbn [findIndex].
  - split; [intros _ x [] | reflexivity].
  - destruct (test y) eqn:Hy.
    + split; [discriminate|]. intro H.
      rewrite (H y (or_introl eq_refl)) in Hy. discriminate.
    + destruct (findIndex test l) as [i|].
      * split; [discriminate|]. intro H.
        assert (Hnone : Some i = None)
          by (apply IH; intros x Hx; apply H; right; assumption).
        discriminate.
      * split; [|reflexivity]. intros _ x [<- | Hx]; [assumption|].
        apply IH; [reflexivity | assumption].
Qed.

Lemma findIndex_Some (A : Type) (test : A -> bool) :
  forall (l : list A) (i : nat),
    findIndex test l = Some i ->
    exists l1 y l2,
      l = l1 ++ y :: l2
      /\ test y = true
      /\ (forall x, In x l1 -> test x = false)
      /\ splice1 i l = l1 ++ l2.
Proof.
  induction l as [|z l IH]; intros i Hi; cbn [findIndex] in Hi;
    [discriminate|].
  destruct (test z) eqn:Hz.
  - injection Hi as <-. exists [], z, l. cbn. repeat split; auto.
    intros x [].
  - destruct (findIndex test l) as [j|] eqn:Hj; [|discriminate].
    injection Hi as <-.
    destruct (IH j eq_refl) as (l1 & y & l2 & -> & Hy & Hl1 & Hsp).
    exists (z :: l1), y, l2. cbn [splice1 app]. rewrite Hsp.
    repeat split; auto.
    intros x [<- | Hx]; auto.
Qed.

Lemma JsString_eqb_refl (a : jsstring) : JsString.eqb a a = true.
Proof. apply JsString_eqb_eq. reflexivity. Qed.

Lemma JsString_eqb_neq (a b : jsstring) :
  JsString.eqb a b = false <-> a <> b.
Proof.
  rewrite <- JsString_eqb_eq. destruct (JsString.eqb a b); split;
    congruence.
Qed.

Lemma indexOf_None (x : jsstring) (l : list jsstring) :
  indexOf x l = None <-> ~ In x l.
Proof.
  unfold indexOf. rewrite findIndex_None. split.
  - intros H Hin. specialize (H x Hin).
    rewrite JsString_eqb_refl in H. discriminate.
  - intros H y Hy. apply JsString_eqb_neq. congruence.
Qed.

Lemma indexOf_Some (x : jsstring) (l : list jsstring) (i : nat) :
  indexOf x l = Some i ->
  exists l1 l2,
    l = l1 ++ x :: l2 /\ ~ In x l1 /\ splice1 i l = l1 ++ l2.
Proof.
  unfold indexOf. intro H.
  destruct (findIndex_Some _ _ _ _ H) as (l1 & y & l2 & -> & Hy & Hl1 & Hsp).
  apply JsString_eqb_eq in Hy. subst y.
  exists l1, l2. repeat split; auto.
  intro Hin. specialize (Hl1 x Hin).
  rewrite JsString_eqb_refl in Hl1. discriminate.
Qed.

Lemma indexOf_last (x : jsstring) (l : list jsstring) :
  ~ In x l ->
  exists i, indexOf x (l ++ [x]) = Some i /\ splice1 i (l ++ [x]) = l.
Proof.
  unfold indexOf. induction l as [|y l IH]; intro Hnot;
    cbn [app findIndex splice1].
  - rewrite JsString_eqb_refl. exists 0. auto.
  - assert (Hxy : JsString.eqb x y = false).
    { apply JsString_eqb_neq. intros ->. apply Hnot. left. reflexivity. }
    rewrite Hxy.
    destruct IH as (i & -> & Hsp); [intro H; apply Hnot; right; exact H|].
    exists (S i). cbn [splice1]. rewrite Hsp. auto.
Qed.

Lemma NoDup_snoc (A : Type) (x : A) (l : list A) :
  ~ In x l -> NoDup l -> NoDup (l ++ [x]).
Proof.
  intros Hnot Hnd. rewrite <- (rev_involutive (l ++ [x])).
  apply NoDup_rev. rewrite rev_app_distr. cbn [rev app].
  constructor; [rewrite <- in_rev; assumption | apply NoDup_rev; assumption].
Qed.

(** X5. Clicking a repository row.  On a selection without duplicates,
    [toggleRepoSelection] flips the membership of the clicked name and of
    no other, keeps the selection free of duplicates and the names that
    stay in their order, and touches nothing else of the session;
    toggling a name that was not selected twice gives the selection back
    as it was. *)
Theorem toggleRepoSelection_flips_membership :
  forall (repoName : jsstring) (s : AppState),
    NoDup (selectedRepos s) ->
    NoDup (selectedRepos (toggleRepoSelection repoName s))
    /\ (In repoName (selectedRepos (toggleRepoSelection repoName s))
        <-> ~ In repoName (selectedRepos s))
    /\ (forall other,
          other <> repoName ->
          In other (selectedRepos (toggleRepoSelection repoName s))
          <-> In other (selectedRepos s))
    /\ filter (fun n => negb (JsString.eqb n repoName))
              (selectedRepos (toggleRepoSelection repoName s))
       = filter (fun n => negb (JsString.eqb n repoName)) (selectedRepos s)
    /\ toggleRepoSelection repoName s
       = set_selectedRepos
           (selectedRepos (toggleRepoSelection repoName s)) s
    /\ (~ In repoName (selectedRepos s) ->
        selectedRepos
          (toggleRepoSelection repoName (toggleRepoSelection repoName s))
        = selectedRepos s).
Proof.
  intros repoName s Hnd. unfold toggleRepoSelection at 1 2 3 4 5 6 7.
  destruct (indexOf repoName (selectedRepos s)) as [i|] eqn:Hidx.
  - destruct (indexOf_Some _ _ _ Hidx) as (l1 & l2 & Hl & Hl1 & Hsp).
    cbn [selectedRepos set_selectedRepos]. rewrite Hsp, Hl in *.
    pose proof (NoDup_remove _ _ _ Hnd) as [Hnd' Hnot].
    split; [assumption|]. split.
    { split; [intro H; contradiction|].
      intro H. exfalso. apply H. apply in_elt. }
    split.
    { intros other Hne. rewrite !in_app_iff. cbn [In].
      split; [tauto|]. intros [H | [H | H]]; auto. congruence. }
    split.
    { rewrite !filter_app. cbn [filter]. rewrite JsString_eqb_refl.
      reflexivity. }
    split; [reflexivity|].
    intro H. exfalso. apply H. apply in_elt.
  - cbn [selectedRepos set_selectedRepos].
    pose proof (proj1 (indexOf_None _ _) Hidx) as Hnot.
    split; [apply NoDup_snoc; assumption|].
    split.
    { split; [auto|]. intros _. apply in_or_app. right. left. reflexivity. }
    split.
    { intros other Hne. rewrite in_app_iff. cbn [In].
      split; [|tauto]. intros [H | [H | []]]; auto. congruence. }
    split.
    { rewrite filter_app. cbn [filter]. rewrite JsString_eqb_refl.
      cbn [negb]. apply app_nil_r. }
    split; [reflexivity|].
    intros _. unfold toggleRepoSelection. rewrite Hidx.
    cbn [selectedRepos set_selectedRepos].
    destruct (indexOf_last _ _ Hnot) as (i & -> & Hsp).
    cbn [selectedRepos set_selectedRepos]. assumption.
Qed.

Lemma hasPropertyName_None (n : jsstring) (l : list SelectedProperty) :
  findIndex (hasPropertyName n) l = None <-> ~ In n (propertyNames l).
Proof.
  rewrite findIndex_None. unfold propertyNames, hasPropertyName. split.
  - intros H Hin. apply in_map_iff in Hin. destruct Hin as (sp & <- & Hsp).
    specialize (H sp Hsp). rewrite JsString_eqb_refl in H. discriminate.
  - intros H sp Hsp. apply JsString_eqb_neq. intros <-. apply H.
    apply in_map. assumption.
Qed.

Lemma hasPropertyName_Some (n : jsstring) (l : list SelectedProperty)
      (i : nat) :
  findIndex (hasPropertyName n) l = Some i ->
  exists l1 v l2,
    l = l1 ++ {| sp_propertyName := n; sp_value := v |} :: l2
    /\ ~ In n (propertyNames l1)
    /\ splice1 i l = l1 ++ l2.
Proof.
  intro H.
  destruct (findIndex_Some _ _ _ _ H) as (l1 & y & l2 & -> & Hy & Hl1 & Hsp).
  unfold hasPropertyName in Hy. apply JsString_eqb_eq in Hy.
  destruct y as [yn yv]. cbn in Hy. subst yn.
  exists l1, yv, l2. repeat split; auto.
  intro Hin. unfold propertyNames in Hin. apply in_map_iff in Hin.
  destruct Hin as (sp & Hname & Hin). specialize (Hl1 sp Hin).
  unfold hasPropertyName in Hl1. rewrite Hname, JsString_eqb_refl in Hl1.
  discriminate.
Qed.

Lemma propertyNames_app (a b : list SelectedProperty) :
  propertyNames (a ++ b) = propertyNames a ++ propertyNames b.
Proof. apply map_app. Qed.

Lemma propertyNames_elt (l1 l2 : list SelectedProperty) (n v : jsstring) :
  propertyNames (l1 ++ {| sp_propertyName := n; sp_value := v |} :: l2)
  = propertyNames l1 ++ n :: propertyNames l2.
Proof. unfold propertyNames. rewrite map_app. reflexivity. Qed.

(** X6. Removing a tag.  On a selection without duplicates,
    [removeRepoSelection] leaves the name unselected, keeps every other
    name, and does nothing at all when the name was not selected; and
    likewise [removePropertySelection] on selected properties of distinct
    names. *)
Theorem removeSelection_drops_the_name_only :
  forall (name : jsstring) (s : AppState),
    NoDup (selectedRepos s) ->
    NoDup (propertyNames (selectedProperties s)) ->
    (~ In name (selectedRepos (removeRepoSelection name s))
     /\ NoDup (selectedRepos (removeRepoSelection name s))
     /\ (forall other, other <> name ->
           In other (selectedRepos (removeRepoSelection name s))
           <-> In other (selectedRepos s))
     /\ (~ In name (selectedRepos s) -> removeRepoSelection name s = s))
    /\ (~ In name
          (propertyNames (selectedProperties (removePropertySelection name s)))
        /\ NoDup (propertyNames
                    (selectedProperties (removePropertySelection name s)))
        /\ (forall other, other <> name ->
              selectedValue other
                (selectedProperties (removePropertySelection name s))
              = selectedValue other (selectedProperties s))
        /\ (~ In name (propertyNames (selectedProperties s)) ->
            removePropertySelection name s = s)).
Proof.
  intros name s Hrepos Hprops. split.
  - unfold removeRepoSelection.
    destruct (indexOf name (selectedRepos s)) as [i|] eqn:Hidx.
    + destruct (indexOf_Some _ _ _ Hidx) as (l1 & l2 & Hl & Hl1 & Hsp).
      cbn [selectedRepos set_selectedRepos]. rewrite Hsp, Hl in *.
      pose proof (NoDup_remove _ _ _ Hrepos) as [Hnd' Hnot].
      split; [assumption|]. split; [assumption|]. split.
      * intros other Hne. rewrite !in_app_iff. cbn [In].
        split; [tauto|]. intros [H | [H | H]]; auto. congruence.
      * intro H. exfalso. apply H. apply in_elt.
    + apply indexOf_None in Hidx. split; [assumption|].
      split; [assumption|]. split; [tauto | reflexivity].
  - unfold removePropertySelection.
    destruct (findIndex (hasPropertyName name) (selectedProperties s))
      as [i|] eqn:Hidx.
    + destruct (hasPropertyName_Some _ _ _ Hidx)
        as (l1 & v & l2 & Hl & Hl1 & Hsp).
      cbn [selectedProperties set_selectedProperties]. rewrite Hsp, Hl in *.
      rewrite propertyNames_elt in *. rewrite propertyNames_app.
      pose proof (NoDup_remove _ _ _ Hprops) as [Hnd' Hnot].
      split; [assumption|]. split; [assumption|]. split.
      * intros other Hne. unfold selectedValue. rewrite !find_app.
        destruct (find (hasPropertyName other) l1); [reflexivity|].
        cbn [find]. unfold hasPropertyName at 2. cbn [sp_propertyName].
        replace (JsString.eqb name other) with false; [reflexivity|].
        symmetry. apply JsString_eqb_neq. congruence.
      * intro H. exfalso. apply H. apply in_elt.
    + apply hasPropertyName_None in Hidx. split; [assumption|].
      split; [assumption|]. split; [reflexivity | reflexivity].
Qed.

(** X7. Ticking a property row.  On selected properties of distinct
    names, [togglePropertySelection] flips the membership of the name and
    of no other and keeps the names distinct; a property it adds starts
    with the empty value, and the values of the other properties stay as
    they were. *)
Theorem togglePropertySelection_flips_membership :
  forall (propertyName : jsstring) (s : AppState),
    NoDup (propertyNames (selectedProperties s)) ->
    NoDup (propertyNames
             (selectedProperties (togglePropertySelection propertyName s)))
    /\ (In propertyName
          (propertyNames
             (selectedProperties (togglePropertySelection propertyName s)))
        <-> ~ In propertyName (propertyNames (selectedProperties s)))
    /\ (~ In propertyName (propertyNames (selectedProperties s)) ->
        selectedValue propertyName
          (selectedProperties (togglePropertySelection propertyName s))
        = Some [])
    /\ (forall other, other <> propertyName ->
          selectedValue other
            (selectedProperties (togglePropertySelection propertyName s))
          = selectedValue other (selectedProperties s)).
Proof.
  intros n s Hnd. unfold togglePropertySelection.
  destruct (findIndex (hasPropertyName n) (selectedProperties s))
    as [i|] eqn:Hidx.
  - destruct (hasPropertyName_Some _ _ _ Hidx)
      as (l1 & v & l2 & Hl & Hl1 & Hsp).
    cbn [selectedProperties set_selectedProperties]. rewrite Hsp, Hl in *.
    rewrite propertyNames_elt in *. rewrite propertyNames_app.
    pose proof (NoDup_remove _ _ _ Hnd) as [Hnd' Hnot].
    split; [assumption|]. split.
    { split; [intro H; contradiction|].
      intro H. exfalso. apply H. apply in_elt. }
    split.
    { intro H. exfalso. apply H. apply in_elt. }
    intros other Hne. unfold selectedValue. rewrite !find_app.
    destruct (find (hasPropertyName other) l1); [reflexivity|].
    cbn [find]. unfold hasPropertyName at 2. cbn [sp_propertyName].
    replace (JsString.eqb n other) with false; [reflexivity|].
    symmetry. apply JsString_eqb_neq. congruence.
  - cbn [selectedProperties set_selectedProperties].
    pose proof (proj1 (hasPropertyName_None _ _) Hidx) as Hnot.
    rewrite propertyNames_app. cbn [propertyNames map sp_propertyName].
    split; [apply NoDup_snoc; assumption|]. split.
    { split; [auto|]. intros _. apply in_or_app. right. left. reflexivity. }
    split.
    { intros _. unfold selectedValue. rewrite find_app.
      destruct (find (hasPropertyName n) (selectedProperties s)) as [sp|]
        eqn:Hfind.
      - exfalso. apply find_some in Hfind. destruct Hfind as [Hin Hname].
        apply Hnot. unfold hasPropertyName in Hname.
        apply JsString_eqb_eq in Hname. subst n.
        apply in_map. assumption.
      - cbn [find]. unfold hasPropertyName. cbn [sp_propertyName].
        rewrite JsString_eqb_refl. reflexivity. }
    intros other Hne. unfold selectedValue. rewrite find_app.
    destruct (find (hasPropertyName other) (selectedProperties s));
      [reflexivity|].
    cbn [find]. unfold hasPropertyName. cbn [sp_propertyName].
    replace (JsString.eqb n other) with false; [reflexivity|].
    symmetry. apply JsString_eqb_neq. congruence.
Qed.

Lemma assignValue_names (n v : jsstring) (l : list SelectedProperty) :
  propertyNames (assignValue n v l) = propertyNames l.
Proof.
  induction l as [|sp l IH]; cbn [assignValue]; [reflexivity|].
  destruct (hasPropertyName n sp); cbn [propertyNames map sp_propertyName].
  - reflexivity.
  - f_equal. exact IH.
Qed.

Lemma assignValue_selectedValue (n v other : jsstring)
      (l : list SelectedProperty) :
  selectedValue other (assignValue n v l)
  = if JsString.eqb other n
    then option_map (fun _ => v) (selectedValue n l)
    else selectedValue other l.
Proof.
  unfold selectedValue.
  induction l as [|sp l IH]; cbn [assignValue find option_map].
  - destruct (JsString.eqb other n); reflexivity.
  - destruct (hasPropertyName n sp) eqn:Hn.
    + cbn [find]. unfold hasPropertyName in *. cbn [sp_propertyName].
      apply JsString_eqb_eq in Hn. rewrite Hn.
      destruct (JsString.eqb n other) eqn:Ho.
      * apply JsString_eqb_eq in Ho. subst other.
        rewrite JsString_eqb_refl. reflexivity.
      * replace (JsString.eqb other n) with false; [reflexivity|].
        symmetry. apply JsString_eqb_neq. apply JsString_eqb_neq in Ho.
        congruence.
    + cbn [find]. destruct (hasPropertyName other sp) eqn:Ho.
      * replace (JsString.eqb other n) with false; [reflexivity|].
        symmetry. apply JsString_eqb_neq. intros ->. congruence.
      * exact IH.
Qed.

(** X8. Typing a value.  [updatePropertyValue] gives the property of that
    name its new value when it is selected and does nothing when it is
    not; in both cases the names selected, their order and the values of
    the other properties are as before, and so is the rest of the
    session. *)
Theorem updatePropertyValue_changes_one_value :
  forall (propertyName value : jsstring) (s : AppState),
    propertyNames
      (selectedProperties (updatePropertyValue propertyName value s))
    = propertyNames (selectedProperties s)
    /\ selectedValue propertyName
         (selectedProperties (updatePropertyValue propertyName value s))
       = (if existsb (JsString.eqb propertyName)
                     (propertyNames (selectedProperties s))
          then Some value else None)
    /\ (forall other, other <> propertyName ->
          selectedValue other
            (selectedProperties (updatePropertyValue propertyName value s))
          = selectedValue other (selectedProperties s))
    /\ (existsb (JsString.eqb propertyName)
                (propertyNames (selectedProperties s)) = false ->
        updatePropertyValue propertyName value s = s)
    /\ updatePropertyValue propertyName value s
       = set_selectedProperties
           (selectedProperties (updatePropertyValue propertyName value s)) s.
Proof.
  intros n v s.
  assert (Hex : existsb (JsString.eqb n) (propertyNames (selectedProperties s))
                = match find (hasPropertyName n) (selectedProperties s) with
                  | Some _ => true | None => false end).
  { unfold propertyNames, hasPropertyName.
    induction (selectedProperties s) as [|sp l IH]; cbn; [reflexivity|].
    rewrite IH.
    replace (JsString.eqb n (sp_propertyName sp))
      with (JsString.eqb (sp_propertyName sp) n).
    - destruct (JsString.eqb (sp_propertyName sp) n); reflexivity.
    - destruct (JsString.eqb (sp_propertyName sp) n) eqn:H.
      + apply JsString_eqb_eq in H. rewrite H. symmetry.
        apply JsString_eqb_refl.
      + symmetry. apply JsString_eqb_neq. apply JsString_eqb_neq in H.
        congruence. }
  rewrite Hex. unfold updatePropertyValue.
  destruct (find (hasPropertyName n) (selectedProperties s)) as [sp|]
    eqn:Hfind; cbn [selectedProperties set_selectedProperties].
  - split; [apply assignValue_names|]. split.
    { rewrite assignValue_selectedValue, JsString_eqb_refl.
      unfold selectedValue. rewrite Hfind. reflexivity. }
    split.
    { intros other Hne. rewrite assignValue_selectedValue.
      replace (JsString.eqb other n) with false; [reflexivity|].
      symmetry. apply JsString_eqb_neq. assumption. }
    split; [discriminate | reflexivity].
  - split; [reflexivity|]. split.
    { unfold selectedValue. rewrite Hfind. reflexivity. }
    split; [reflexivity|]. split; [reflexivity|].
    destruct s; reflexivity.
Qed.

(** ** Steps *)

(** X9. The conditions of the steps are nested: a step outside 1 to 4 is
    never accessible, and whenever a step is accessible every earlier
    step is accessible too. *)
Theorem canNavigateToStep_downward_closed :
  forall (s : AppState) (targetStep : nat),
    truthy (canNavigateToStep s targetStep) = true ->
    1 <= targetStep <= 4
    /\ forall earlier,
         1 <= earlier <= targetStep ->
         truthy (canNavigateToStep s earlier) = true.
Proof.
  intros s n Hn.
  assert (Hrange : 1 <= n <= 4).
  { destruct n as [|[|[|[|[|n]]]]]; try lia; discriminate. }
  split; [assumption|]. intros m Hm.
  assert (H3 : 3 <= n -> truthy (canNavigateToStep s 3) = true).
  { intro H. assert (Hcases : n = 3 \/ n = 4) by lia.
    destruct Hcases as [-> | ->]; [assumption|].
    unfold canNavigateToStep in *. cbn [Nat.eqb] in *. cbv zeta in Hn.
    unfold jsAnd in Hn at 1.
    destruct (truthy (jsAnd (jsAnd (useCaseValue s) (JsStr (orgName s)))
                            (JsStr (authToken s)))) eqn:Hcred;
      [reflexivity|].
    cbv iota in Hn. congruence. }
  assert (H2 : 2 <= n -> truthy (canNavigateToStep s 2) = true).
  { intro H. assert (Hcases : n = 2 \/ 3 <= n) by lia.
    destruct Hcases as [-> | H']; [assumption|].
    specialize (H3 H'). unfold canNavigateToStep in *. cbn [Nat.eqb] in *.
    unfold jsAnd, useCaseValue in H3.
    destruct (selectedUseCase s); [reflexivity|]. discriminate. }
  assert (Hcases : m = 1 \/ m = 2 \/ m = 3 \/ m = n) by lia.
  destruct Hcases as [-> | [-> | [-> | ->]]];
    [reflexivity | apply H2; lia | apply H3; lia | assumption].
Qed.

Lemma lit_String (c : ascii) (s : string) :
  lit (String c s) = N_of_ascii c :: lit s.
Proof. reflexivity. Qed.

Lemma parseInt_of_uint_acc (u : Decimal.uint) :
  forall acc : nat,
    fold_left (fun acc d => (acc * 10 + (d - 48))%N)
              (lit (NilEmpty.string_of_uint u)) (N.of_nat acc)
    = N.of_nat (Nat.of_uint_acc u acc).
Proof.
  induction u as [|u IH|u IH|u IH|u IH|u IH|u IH|u IH|u IH|u IH|u IH];
    intro acc; cbn [NilEmpty.string_of_uint Nat.of_uint_acc];
    [reflexivity|..];
    rewrite lit_String; cbn [fold_left]; rewrite <- IH; f_equal;
    rewrite ?Nat.tail_add_spec, ?Nat.tail_mul_spec; simpl N_of_ascii; lia.
Qed.

Lemma parseInt_ofNat (n : nat) : parseInt (ofNat n) = N.of_nat n.
Proof.
  unfold parseInt, ofNat.
  change 0%N with (N.of_nat 0).
  rewrite (parseInt_of_uint_acc (Nat.to_uint n) 0).
  f_equal. apply Unsigned.of_to.
Qed.

Lemma isDigit_string_of_uint (u : Decimal.uint) :
  forallb isDigit (lit (NilEmpty.string_of_uint u)) = true.
Proof.
  induction u; cbn [NilEmpty.string_of_uint]; [reflexivity|..];
    rewrite lit_String; cbn [forallb]; rewrite IHu; reflexivity.
Qed.

Lemma ofNat_nonempty (n : nat) : ofNat n <> [].
Proof.
  intro H. pose proof (parseInt_ofNat n) as Hp. rewrite H in Hp.
  cbn in Hp. destruct n; [discriminate H | lia].
Qed.

Lemma takeWhile_all (p : CodeUnit -> bool) (s : jsstring) :
  forallb p s = true -> takeWhile p s = s.
Proof.
  induction s as [|c s IH]; cbn [forallb takeWhile]; [reflexivity|].
  intro H. apply andb_true_iff in H. destruct H as [-> H].
  rewrite IH by assumption. reflexivity.
Qed.

Lemma matchStepHash_stepHash (digits : jsstring) :
  digits <> [] ->
  forallb isDigit digits = true ->
  matchStepHash (lit "#step-" ++ digits) = Some digits.
Proof.
  intros Hne Hall.
  replace (lit "#step-") with [35; 115; 116; 101; 112; 45]%N by reflexivity.
  cbn [app matchStepHash].
  replace (lit "#step-") with [35; 115; 116; 101; 112; 45]%N by reflexivity.
  cbn [startsWith N.eqb Pos.eqb andb skipn].
  rewrite takeWhile_all by assumption.
  destruct digits; [contradiction | reflexivity].
Qed.

(** X10. [getStepFromHash] always answers a step from 1 to 4, and it
    reads back the fragment that [updateHistoryState] writes for a step:
    the step itself when it is one of the four, and step 1 otherwise. *)
Theorem getStepFromHash_reads_back_stepHash :
  forall (hash : jsstring) (step : nat),
    1 <= getStepFromHash hash <= 4
    /\ getStepFromHash (stepHash step)
       = (if (1 <=? step) && (step <=? 4) then step else 1).
Proof.
  intros hash step. split.
  - unfold getStepFromHash. destruct (matchStepHash hash) as [digits|];
      [|lia].
    cbv zeta.
    destruct (N.leb 1 (parseInt digits) && N.leb (parseInt digits) 4)
      eqn:Hin; [|lia].
    apply andb_true_iff in Hin. destruct Hin as [Hlo Hhi].
    apply N.leb_le in Hlo, Hhi. lia.
  - unfold getStepFromHash, stepHash.
    rewrite matchStepHash_stepHash.
    + cbv zeta. rewrite parseInt_ofNat, Nat2N.id.
      replace (N.leb 1 (N.of_nat step)) with (1 <=? step).
      * replace (N.leb (N.of_nat step) 4) with (step <=? 4); [reflexivity|].
        destruct (Nat.leb_spec step 4), (N.leb_spec (N.of_nat step) 4);
          try reflexivity; lia.
      * destruct (Nat.leb_spec 1 step), (N.leb_spec 1 (N.of_nat step));
          try reflexivity; lia.
    + apply ofNat_nonempty.
    + apply isDigit_string_of_uint.
Qed.

(** ** Validation on the way back *)

Lemma dropWhile_head (p : CodeUnit -> bool) (c : CodeUnit) (s : jsstring) :
  p c = false -> dropWhile p (c :: s) = c :: s.
Proof. intro H. cbn [dropWhile]. rewrite H. reflexivity. Qed.

Lemma dropWhile_snoc (p : CodeUnit -> bool) (c : CodeUnit) (s : jsstring) :
  p c = false -> dropWhile p (s ++ [c]) = dropWhile p s ++ [c].
Proof.
  intro H. induction s as [|x s IH]; cbn [app dropWhile].
  - rewrite H. reflexivity.
  - destruct (p x); [assumption | reflexivity].
Qed.

Lemma dropWhile_idempotent (p : CodeUnit -> bool) (s : jsstring) :
  dropWhile p (dropWhile p s) = dropWhile p s.
Proof.
  induction s as [|x s IH]; cbn [dropWhile]; [reflexivity|].
  destruct (p x) eqn:Hx; [assumption|]. apply dropWhile_head. assumption.
Qed.

Lemma trimEnd_cons (c : CodeUnit) (s : jsstring) :
  isWhiteSpace c = false -> trimEnd (c :: s) = c :: trimEnd s.
Proof.
  intro H. unfold trimEnd. cbn [rev].
  rewrite dropWhile_snoc by assumption. rewrite rev_app_distr. reflexivity.
Qed.

Lemma trimEnd_idempotent (s : jsstring) : trimEnd (trimEnd s) = trimEnd s.
Proof.
  unfold trimEnd. rewrite rev_involutive, dropWhile_idempotent. reflexivity.
Qed.

Lemma trim_idempotent (s : jsstring) : trim (trim s) = trim s.
Proof.
  unfold trim, trimStart.
  assert (Hhead : dropWhile isWhiteSpace s = []
                  \/ exists c s', dropWhile isWhiteSpace s = c :: s'
                                  /\ isWhiteSpace c = false).
  { induction s as [|x s IH]; cbn [dropWhile]; [left; reflexivity|].
    destruct (isWhiteSpace x) eqn:Hx; [assumption|]. right. eauto. }
  destruct Hhead as [-> | (c & s' & -> & Hc)]; [reflexivity|].
  rewrite trimEnd_cons by assumption.
  rewrite dropWhile_head by assumption.
  rewrite <- trimEnd_cons by assumption. apply trimEnd_idempotent.
Qed.

Lemma trim_clean (s : jsstring) :
  forallb (fun c => negb (isWhiteSpace c)) s = true -> trim s = s.
Proof.
  induction s as [|c s IH]; [reflexivity|].
  cbn [forallb]. intro H. apply andb_true_iff in H. destruct H as [Hc Hs].
  apply negb_true_iff in Hc. unfold trim, trimStart.
  rewrite dropWhile_head by assumption. rewrite trimEnd_cons by assumption.
  f_equal. specialize (IH Hs). unfold trim, trimStart in IH.
  destruct s as [|d s]; [reflexivity|].
  cbn [forallb] in Hs. apply andb_true_iff in Hs. destruct Hs as [Hd _].
  apply negb_true_iff in Hd. rewrite dropWhile_head in IH by assumption.
  assumption.
Qed.

Lemma sanitizeString_clean (s : jsstring) :
  forallb (fun c => negb (inClass strippedClass c)) s = true ->
  sanitizeString (JsStr s) = s.
Proof.
  cbn [sanitizeString]. unfold replaceAllClass.
  induction s as [|c s IH]; [reflexivity|].
  cbn [forallb filter]. intro H. apply andb_true_iff in H.
  destruct H as [-> Hs]. f_equal. apply IH. assumption.
Qed.

Lemma ascii_check (P : CodeUnit -> bool) :
  forallb P (map N.of_nat (seq 0 128)) = true ->
  forall c, (c < 128)%N -> P c = true.
Proof.
  intros H c Hc. rewrite forallb_forall in H. apply H.
  apply in_map_iff. exists (N.to_nat c). split; [apply N2Nat.id|].
  apply in_seq. lia.
Qed.

Lemma isAlnum_ascii (c : CodeUnit) : isAlnum c = true -> (c < 128)%N.
Proof.
  unfold isAlnum. rewrite !orb_true_iff, !andb_true_iff, !N.leb_le. lia.
Qed.

Lemma orgNameChar_clean (c : CodeUnit) :
  isAlnum c = true \/ c = hyphen ->
  isWhiteSpace c = false /\ inClass strippedClass c = false.
Proof.
  intro H.
  assert (Hc : (c < 128)%N).
  { destruct H as [H | ->]; [apply isAlnum_ascii; assumption | reflexivity]. }
  assert (Hb : isAlnum c || N.eqb c hyphen = true).
  { destruct H as [-> | ->]; [reflexivity | apply orb_true_r]. }
  pose proof (ascii_check
                (fun c => implb (isAlnum c || N.eqb c hyphen)
                                (negb (isWhiteSpace c)
                                 && negb (inClass strippedClass c)))
                eq_refl c Hc) as Hall.
  cbv beta in Hall. rewrite Hb in Hall. cbn [implb] in Hall.
  apply andb_true_iff in Hall. destruct Hall as [H1 H2].
  apply negb_true_iff in H1, H2. auto.
Qed.

Lemma orgNameShape_fixed (y : jsstring) :
  orgNameShape y -> trim y = y /\ sanitizeString (JsStr y) = y.
Proof.
  intros (_ & Hall & _). split.
  - apply trim_clean. apply forallb_forall. intros c Hc.
    rewrite Forall_forall in Hall.
    destruct (orgNameChar_clean c (Hall c Hc)) as [-> _]. reflexivity.
  - apply sanitizeString_clean. apply forallb_forall. intros c Hc.
    rewrite Forall_forall in Hall.
    destruct (orgNameChar_clean c (Hall c Hc)) as [_ ->]. reflexivity.
Qed.

Lemma isValidOrgName_shape (x : jsstring) :
  isValidOrgName (JsStr x) = true ->
  orgNameShape (sanitizeString (JsStr (trim x))).
Proof.
  unfold isValidOrgName. destruct (negb (truthy (JsStr x))); [discriminate|].
  cbv zeta. intro H.
  apply headBodyTail_orgNameShape, Lang_orgNamePattern, test_Lang.
  assumption.
Qed.

Lemma orgNameShape_valid (y : jsstring) :
  orgNameShape y -> isValidOrgName (JsStr y) = true.
Proof.
  intro Hy. destruct (orgNameShape_fixed y Hy) as [Htrim Hsan].
  unfold isValidOrgName.
  assert (Hne : y <> []) by (destruct Hy; assumption).
  apply truthy_JsStr in Hne. rewrite Hne. cbn [negb]. cbv zeta.
  rewrite Htrim, Hsan.
  apply test_Lang, Lang_orgNamePattern, headBodyTail_orgNameShape.
  assumption.
Qed.

Lemma isValidToken_trim (t : jsstring) :
  isValidToken (JsStr (trim t)) = true ->
  isValidToken (JsStr (trim (trim t))) = true.
Proof. rewrite trim_idempotent. auto. Qed.

(** X11. Going back to the authentication step validates the stored
    values again.  After [validateInputs], this second validation keeps
    the stored token as it is and never empties an organization name that
    was stored; the name it leaves has the organization-name shape, and
    from then on validating again changes nothing.  The second validation
    itself can still change the stored name: a name stored with a leading
    space, which the first validation lets through, loses it. *)
Theorem revalidation_settles_credentials :
  forall (orgNameInput authTokenInput : jsstring) (s : AppState),
    let s1 := validateInputs orgNameInput authTokenInput s in
    let s2 := restoreStepState_auth s1 in
    authToken s2 = authToken s1
    /\ (orgName s2 = [] <-> orgName s1 = [])
    /\ (orgName s1 <> [] -> orgNameShape (orgName s2))
    /\ truthy (canNavigateToStep s2 3) = truthy (canNavigateToStep s1 3)
    /\ restoreStepState_auth s2 = s2
    /\ orgName (restoreStepState_auth
                  (validateInputs (lit "< abc") authTokenInput s))
       <> orgName (validateInputs (lit "< abc") authTokenInput s).
Proof.
  intros o t s s1 s2.
  assert (Htok : authToken s2 = authToken s1).
  { subst s2 s1. unfold restoreStepState_auth, validateInputs. cbv zeta.
    cbn [authToken set_credentials].
    destruct (isValidToken (JsStr (trim t))) eqn:Hv; [|reflexivity].
    rewrite trim_idempotent, Hv. reflexivity. }
  assert (Horg : (orgName s1 = [] /\ orgName s2 = [])
                 \/ (orgName s1 <> [] /\ orgNameShape (orgName s2)
                     /\ orgName s2
                        = sanitizeString (JsStr (trim (orgName s1))))).
  { subst s2 s1. unfold restoreStepState_auth, validateInputs. cbv zeta.
    cbn [orgName set_credentials].
    destruct (isValidOrgName (JsStr (sanitizeString (JsStr (trim o)))))
      eqn:Hv; [|left; split; reflexivity].
    right. pose proof (isValidOrgName_shape _ Hv) as Hshape.
    rewrite (orgNameShape_valid _ Hshape).
    split; [apply isValidOrgName_nonempty; assumption|].
    split; [assumption | reflexivity]. }
  split; [assumption|]. split.
  { destruct Horg as [[H1 H2] | (H1 & H2 & _)]; [tauto|].
    destruct H2 as [H2 _]. tauto. }
  split.
  { destruct Horg as [[H1 H2] | (H1 & H2 & _)]; [contradiction | auto]. }
  split.
  { rewrite !canNavigateToStep3_truthy.
    replace (useCaseSelected s2) with (useCaseSelected s1) by reflexivity.
    rewrite Htok. f_equal. f_equal.
    destruct Horg as [[-> ->] | (H1 & H2 & _)]; [reflexivity|].
    destruct H2 as [H2 _]. apply truthy_JsStr in H1, H2. congruence. }
  split.
  { assert (Ho3 : (if isValidOrgName
                        (JsStr (sanitizeString (JsStr (trim (orgName s2)))))
                   then sanitizeString (JsStr (trim (orgName s2))) else [])
                  = orgName s2).
    { destruct Horg as [[_ ->] | (_ & Hshape & _)]; [reflexivity|].
      destruct (orgNameShape_fixed _ Hshape) as [Htrim Hsan].
      rewrite Htrim, Hsan, (orgNameShape_valid _ Hshape). reflexivity. }
    assert (Ht3 : (if isValidToken (JsStr (trim (authToken s2)))
                   then trim (authToken s2) else [])
                  = authToken s2).
    { rewrite Htok. subst s1. unfold validateInputs. cbv zeta.
      cbn [authToken set_credentials].
      destruct (isValidToken (JsStr (trim t))) eqn:Hv; [|reflexivity].
      rewrite trim_idempotent, Hv. reflexivity. }
    unfold restoreStepState_auth at 1. unfold validateInputs at 1.
    cbv zeta. rewrite Ho3, Ht3. subst s2.
    unfold restoreStepState_auth, validateInputs. reflexivity. }
  unfold restoreStepState_auth, validateInputs. cbv zeta.
  cbn [orgName set_credentials]. vm_compute. discriminate.
Qed.

(** ** The search cache *)

Lemma cacheGet_cacheSet (key : jsstring) (v : CacheEntry)
      (c : list (jsstring * CacheEntry)) :
  cacheGet key (cacheSet key v c) = Some v
  /\ forall other, other <> key ->
       cacheGet other (cacheSet key v c) = cacheGet other c.
Proof.
  unfold cacheSet. cbn [cacheGet]. rewrite JsString_eqb_refl.
  split; [reflexivity|]. intros other Hne.
  replace (JsString.eqb key other) with false
    by (symmetry; apply JsString_eqb_neq; congruence).
  induction c as [|[k e] c IH]; cbn [filter cacheGet fst]; [reflexivity|].
  destruct (JsString.eqb k key) eqn:Hk; cbn [negb cacheGet].
  - apply JsString_eqb_eq in Hk. subst k.
    replace (JsString.eqb key other) with false
      by (symmetry; apply JsString_eqb_neq; congruence).
    assumption.
  - destruct (JsString.eqb k other); [reflexivity | assumption].
Qed.

Lemma getCached_hit (env : Env) (key : jsstring) (fetchFn : M (list Repo))
      (ttl : Z) (w : World) (cached : CacheEntry) :
  cacheGet key (cache w) = Some cached ->
  (now env (events w) - cache_timestamp cached < ttl)%Z ->
  getCached env key fetchFn ttl w
  = (Returned (cache_data cached),
     emit (EvLog INFO (lit "Using cached data") None
             [("key"%string, LStr key)]) w).
Proof.
  intros Hget Hfresh. apply Z.ltb_lt in Hfresh.
  unfold getCached, bind, getCache, dateNow, ret, Logger.info, tell.
  rewrite Hget, Hfresh. reflexivity.
Qed.

Lemma getCached_refetch (env : Env) (key : jsstring)
      (fetchFn : M (list Repo)) (ttl : Z) (w : World) :
  (forall cached, cacheGet key (cache w) = Some cached ->
                  (ttl <= now env (events w) - cache_timestamp cached)%Z) ->
  getCached env key fetchFn ttl w =
  match fetchFn w with
  | (Returned data, w1) =>
      (Returned data,
       emit (EvLog INFO (lit "Cached new data") None
               [("key"%string, LStr key)])
         (withCache
            (cacheSet key {| cache_data := data;
                             cache_timestamp := now env (events w1) |}
               (cache w1)) w1))
  | (Thrown e, w1) => (Thrown e, w1)
  | (Unfinished, w1) => (Unfinished, w1)
  end.
Proof.
  intro Hstale. destruct (cacheGet key (cache w)) as [cached|] eqn:Hget;
    [|apply getCached_miss; assumption].
  specialize (Hstale cached eq_refl). apply Z.ltb_ge in Hstale.
  unfold getCached, bind, getCache, dateNow, ret. rewrite Hget, Hstale.
  destruct (fetchFn w) as [[data | e |] w1]; reflexivity.
Qed.

(** X12. [getCached] on a key that has no entry, or only one as old as
    the time to live.  It runs the fetch function once.  When that
    returns, the data is returned and stored under the key, the other
    keys keeping their entries, and from any later state with that cache
    a call for the key made less than the time to live after the store
    returns the same data without running its fetch function, whatever
    it is.  When the fetch function throws, the error is passed on and
    nothing is stored. *)
Theorem getCached_reuses_what_it_stored :
  forall (env : Env) (key : jsstring) (fetchFn : M (list Repo)) (ttl : Z)
         (w : World),
    (forall cached, cacheGet key (cache w) = Some cached ->
                    (ttl <= now env (events w) - cache_timestamp cached)%Z) ->
    match fetchFn w with
    | (Returned data, w1) =>
        exists w',
          getCached env key fetchFn ttl w = (Returned data, w')
          /\ appState w' = appState w1
          /\ (forall other, other <> key ->
                cacheGet other (cache w') = cacheGet other (cache w1))
          /\ forall (later : World) (fetchFn' : M (list Repo)),
               cache later = cache w' ->
               (now env (events later) - now env (events w1) < ttl)%Z ->
               getCached env key fetchFn' ttl later
               = (Returned data,
                  emit (EvLog INFO (lit "Using cached data") None
                          [("key"%string, LStr key)]) later)
    | (Thrown e, w1) => getCached env key fetchFn ttl w = (Thrown e, w1)
    | (Unfinished, w1) => getCached env key fetchFn ttl w = (Unfinished, w1)
    end.
Proof.
  intros env key fetchFn ttl w Hstale.
  rewrite (getCached_refetch env key fetchFn ttl w Hstale).
  destruct (fetchFn w) as [[data | e |] w1]; [|reflexivity|reflexivity].
  eexists. split; [reflexivity|].
  cbn [appState cache emit withCache].
  destruct (cacheGet_cacheSet key
              {| cache_data := data; cache_timestamp := now env (events w1) |}
              (cache w1)) as [Hsame Hother].
  split; [reflexivity|]. split; [exact Hother|].
  intros later fetchFn' Hcache Hfresh.
  rewrite (getCached_hit env key fetchFn' ttl later
             {| cache_data := data; cache_timestamp := now env (events w1) |});
    [reflexivity | rewrite Hcache; exact Hsame | exact Hfresh].
Qed.

(** X13. Searching twice.  Take a search that goes to GitHub (fewer than
    10 local matches, a term of 2 characters or more, nothing cached, a
    token) and is answered ok.  It sends one request and shows the local
    matches merged with the answer.  The same search made again from that
    session and cache, less than 60 seconds after the answer was stored,
    sends nothing and leaves the session exactly as the first search left
    it. *)
Theorem filterRepos_repeated_search_uses_cache :
  forall (env : Env) (toLowerCase : jsstring -> jsstring)
         (searchInput : jsstring) (w : World) (data : option (list Repo)),
    let term := sanitizeString (JsStr (trim (toLowerCase searchInput))) in
    let localMatches := localRepoMatches toLowerCase term (appState w) in
    let req := ReqSearchRepositories term (orgName (appState w)) 50 in
    let key := lit "search_" ++ orgName (appState w) ++ lit "_" ++ term in
    List.length localMatches < 10 ->
    2 <= List.length term ->
    cacheGet key (cache w) = None ->
    authToken (appState w) <> [] ->
    serveSearch env (events w) req = HttpOk data ->
    exists w1,
      filterRepos env toLowerCase searchInput w = (Returned tt, w1)
      /\ fetchesOf (events w1) = fetchesOf (events w) ++ [(req, true)]
      /\ filteredItems (reposPagination (appState w1))
         = mergeMatches localMatches (itemsOrEmpty data)
      /\ forall later : World,
           appState later = appState w1 ->
           cache later = cache w1 ->
           (now env (events later) - now env (events w ++ [EvFetch req true])
            < 60000)%Z ->
           exists w2,
             filterRepos env toLowerCase searchInput later = (Returned tt, w2)
             /\ fetchesOf (events w2) = fetchesOf (events later)
             /\ appState w2 = appState w1.
Proof.
  intros env lower input w data term localMatches req key
         Hfew Hlong Hmiss Htok Hans.
  assert (Hterm : negb (truthy (JsStr term)) = false).
  { destruct term; [simpl in Hlong; lia | reflexivity]. }
  assert (Hgate : (List.length localMatches <? 10) && (2 <=? List.length term)
                  = true).
  { apply andb_true_iff. split; [apply Nat.ltb_lt | apply Nat.leb_le];
      assumption. }
  rewrite filterRepos_run. cbv zeta. fold term. rewrite Hterm.
  set (w0 := withAppState
               (fun s => set_reposPagination
                           (set_searchTerm term (reposPagination s)) s) w).
  change (localRepoMatches lower term (appState w0)) with localMatches.
  change (orgName (appState w0)) with (orgName (appState w)).
  fold key. rewrite Hgate.
  rewrite getCached_miss by exact Hmiss.
  pose proof (searchRepositoriesAPI_run env term w0 Htok) as Hrun.
  cbv zeta in Hrun.
  change (orgName (appState w0)) with (orgName (appState w)) in Hrun.
  change (events w0) with (events w) in Hrun. fold req in Hrun.
  rewrite Hans in Hrun. rewrite Hrun. cbn [isOk].
  eexists. split; [reflexivity|].
  cbn [events emit withAppState withCache appState cache].
  split.
  { rewrite !fetchesOf_app. cbn [fetchesOf flat_map app].
    rewrite app_nil_r. reflexivity. }
  split; [reflexivity|].
  intros later Hstate Hcache Hfresh.
  rewrite filterRepos_run. cbv zeta. fold term. rewrite Hterm.
  cbn [withAppState appState]. rewrite Hstate.
  cbn [withAppState appState events cache emit withCache].
  set (stored := {| cache_data := itemsOrEmpty data;
                    cache_timestamp := now env (events w ++ [EvFetch req true])
                 |}) in *.
  change (localRepoMatches lower term _) with localMatches.
  rewrite Hgate.
  change (orgName _) with (orgName (appState w)). fold key.
  rewrite (getCached_hit env key (searchRepositoriesAPI env term) 60000 _
             stored).
  - eexists. split; [reflexivity|].
    cbn [events emit withAppState appState]. split.
    + rewrite fetchesOf_app. cbn. apply app_nil_r.
    + rewrite Hstate. reflexivity.
  - unfold withAppState. cbn [cache]. rewrite Hcache.
    apply (proj1 (cacheGet_cacheSet key stored (cache w))).
  - unfold withAppState. cbn [events]. exact Hfresh.
Qed.

(** ** The workflow: failures and targets *)

Lemma resolveTargetRepos_run (env : Env) (promptInput : jsstring) (w : World) :
  resolveTargetRepos env promptInput w =
  let s := appState w in
  if negb (truthy (useCaseValue s)) then
    (Thrown (Error (lit "Please select a use case first.")), w)
  else if negb (isValidOrgName (JsStr (orgName s))) then
    (Thrown (Error (lit "Please provide a valid organization name.")), w)
  else if negb (isValidToken (JsStr (authToken s))) then
    (Thrown (Error (lit "Please provide a valid authentication token.")), w)
  else if negb (truthy (JsStr (trim promptInput))) then
    (Thrown (Error (lit "Please provide prompt content.")), w)
  else
    match
      (if JsString.eqb (selectionMethod s) (lit "all") then getAllOrgRepos env
       else if JsString.eqb (selectionMethod s) (lit "selected") then
         if List.length (selectedRepos s) =? 0 then
           throw (Error (lit "Please select at least one repository."))
         else ret (map repoRef (selectedRepos s))
       else if JsString.eqb (selectionMethod s) (lit "properties") then
         getReposWithCustomProperties
       else throw (Error (lit "Invalid repository selection method.")))
        (withAppState (withPrompt promptInput) w)
    with
    | (Returned targetRepos, w1) =>
        if List.length targetRepos =? 0 then
          (Thrown (Error (lit "No repositories found to process.")), w1)
        else (Returned targetRepos, w1)
    | (Thrown e, w1) => (Thrown e, w1)
    | (Unfinished, w1) => (Unfinished, w1)
    end.
Proof.
  unfold resolveTargetRepos. cbv zeta.
  unfold bind at 1. unfold getState at 1.
  repeat (unfold bind at 1;
          match goal with
          | |- context [if ?b then throw _ else ret tt] =>
              destruct b; [reflexivity|]; unfold ret at 1
          end).
  unfold bind at 1. unfold modifyState at 1. unfold bind at 1.
  change (set_promptContent (sanitizeString (JsStr (trim promptInput))))
    with (withPrompt promptInput).
  match goal with
  | |- context [match ?m ?w0 with _ => _ end] =>
      destruct (m w0) as [[targets | e |] w2]; try reflexivity
  end.
  unfold bind. destruct (List.length targets =? 0); reflexivity.
Qed.

Lemma getAllOrgRepos_run (env : Env) (w : World) :
  let s := appState w in
  let w0 := emit (fetchingEntry s) w in
  let answer := serveRepos env (events w0) (orgReposRequest s) in
  exists out w',
    getAllOrgRepos env w = (out, w')
    /\ appState w' = s
    /\ (authToken s = [] ->
        fetchesOf (events w') = fetchesOf (events w)
        /\ exists cause, out = Thrown (Error (listingFailed
                                              ++ errorMessage cause)))
    /\ (authToken s <> [] ->
        fetchesOf (events w')
        = fetchesOf (events w) ++ [(orgReposRequest s, isOk answer)]
        /\ match answer with
           | HttpOk repos => out = Returned repos
           | _ => exists cause,
                    out = Thrown (Error (listingFailed ++ errorMessage cause))
           end).
Proof.
  cbv zeta. unfold getAllOrgRepos, tryCatch, bind, getState, Logger.info,
    Logger.error, tell, APIUtils.githubAPI, bind, getState, throw, ret.
  cbn [appState emit]. fold (fetchingEntry (appState w)).
  destruct (authToken (appState w)) as [|c t] eqn:Htok.
  - cbn [truthy negb]. eexists. eexists. split; [reflexivity|].
    cbn [appState events emit]. split; [reflexivity|]. split.
    + intros _. split.
      * rewrite !fetchesOf_app. cbn. rewrite !app_nil_r. reflexivity.
      * eexists. reflexivity.
    + intro H. contradiction.
  - cbn [truthy negb]. unfold APIUtils.secureFetch. cbn [events emit].
    fold (orgReposRequest (appState w)).
    destruct (serveRepos env (events w ++ [fetchingEntry (appState w)])
                (orgReposRequest (appState w))) as [repos | st txt | | msg];
      (eexists; eexists; split; [reflexivity|]);
      cbn [appState events emit isOk];
      (split; [reflexivity|]); (split; [discriminate|]); intros _;
      (split; [rewrite !fetchesOf_app; cbn; rewrite ?app_nil_r;
               reflexivity|]);
      first [reflexivity | eexists; reflexivity].
Qed.

Lemma resolveTargetRepos_throws (env : Env) (promptInput : jsstring)
      (w w1 : World) (e : JsError) :
  resolveTargetRepos env promptInput w = (Thrown e, w1) ->
  exists m, e = Error m /\ workflowFailure m.
Proof.
  rewrite resolveTargetRepos_run. cbv zeta.
  unfold workflowFailure, resolutionTexts, preconditionTexts.
  destruct (negb (truthy (useCaseValue (appState w)))).
  { intro H. injection H as <- _. eexists. split; [reflexivity|].
    left. cbn. auto. }
  destruct (negb (isValidOrgName (JsStr (orgName (appState w))))).
  { intro H. injection H as <- _. eexists. split; [reflexivity|].
    left. cbn. auto. }
  destruct (negb (isValidToken (JsStr (authToken (appState w))))).
  { intro H. injection H as <- _. eexists. split; [reflexivity|].
    left. cbn. auto. }
  destruct (negb (truthy (JsStr (trim promptInput)))).
  { intro H. injection H as <- _. eexists. split; [reflexivity|].
    left. cbn. auto. }
  assert (Hlast : forall (targets : list Repo) (w2 : World),
             (if List.length targets =? 0
              then (Thrown (Error (lit "No repositories found to process.")),
                    w2)
              else (Returned targets, w2)) = (Thrown e, w1) ->
             exists m, e = Error m
                       /\ (In m ([lit "Please select a use case first.";
                                  lit "Please provide a valid organization name.";
                                  lit "Please provide a valid authentication token.";
                                  lit "Please provide prompt content."]
                                 ++ [lit "Please select at least one repository.";
                                     lit "Invalid repository selection method.";
                                     lit "No repositories found to process."])
                           \/ exists cause,
                                m = listingFailed ++ errorMessage cause)).
  { intros targets w2. destruct (List.length targets =? 0); [|discriminate].
    intro H. injection H as <- _. eexists. split; [reflexivity|].
    left. cbn. auto 10. }
  destruct (JsString.eqb (selectionMethod (appState w)) (lit "all")).
  { destruct (getAllOrgRepos_run env (withAppState (withPrompt promptInput) w))
      as (out & w' & Hrun & _ & Hno & Hyes).
    rewrite Hrun.
    destruct (authToken (appState (withAppState (withPrompt promptInput) w)))
      as [|c t] eqn:Htok.
    - destruct (Hno eq_refl) as [_ (cause & ->)].
      intro H. injection H as <- _. eexists. split; [reflexivity|].
      right. eexists. reflexivity.
    - destruct Hyes as [_ Hout]; [discriminate|].
      destruct (serveRepos env _ _) as [repos | st txt | | msg].
      + subst out. apply Hlast.
      + destruct Hout as (cause & ->). intro H. injection H as <- _.
        eexists. split; [reflexivity|]. right. eexists. reflexivity.
      + destruct Hout as (cause & ->). intro H. injection H as <- _.
        eexists. split; [reflexivity|]. right. eexists. reflexivity.
      + destruct Hout as (cause & ->). intro H. injection H as <- _.
        eexists. split; [reflexivity|]. right. eexists. reflexivity. }
  destruct (JsString.eqb (selectionMethod (appState w)) (lit "selected")).
  { destruct (List.length (selectedRepos (appState w)) =? 0).
    - unfold throw. intro H. injection H as <- _. eexists.
      split; [reflexivity|]. left. cbn. auto 10.
    - unfold ret. apply Hlast. }
  destruct (JsString.eqb (selectionMethod (appState w)) (lit "properties")).
  { unfold getReposWithCustomProperties, bind, getState, ret. apply Hlast. }
  unfold throw. intro H. injection H as <- _. eexists.
  split; [reflexivity|]. left. cbn. auto 10.
Qed.

Lemma executeWorkflow_fails (env : Env) (fuel : nat) (promptInput : jsstring)
      (w w1 : World) (e : JsError) :
  resolveTargetRepos env promptInput (emit (startEntry (appState w)) w)
  = (Thrown e, w1) ->
  executeWorkflow env fuel promptInput w = (Returned tt, failedRun e w1).
Proof.
  intro Hres. unfold executeWorkflow.
  unfold tryCatch at 1. unfold bind at 1. unfold getState at 1.
  unfold bind at 1. unfold Logger.info at 1. unfold tell at 1.
  unfold bind at 1. fold (startEntry (appState w)). rewrite Hres.
  reflexivity.
Qed.

Lemma workflowFailure_head (m : jsstring) :
  workflowFailure m ->
  exists c rest, m = c :: rest /\ In c [80; 73; 78; 70]%N.
Proof.
  unfold workflowFailure, resolutionTexts, preconditionTexts, listingFailed.
  intros [Hin | (cause & ->)].
  - cbn [app In] in Hin.
    repeat (destruct Hin as [<- | Hin];
            [eexists; eexists; split; [reflexivity | cbn; auto]|]).
    destruct Hin.
  - eexists. eexists. split; [reflexivity | cbn; auto].
Qed.

Lemma userMessage_APIError_head (message : jsstring) (status : nat)
      (url : option Request) :
  exists c rest,
    userMessage (APIError message status url) = c :: rest
    /\ In c [65; 79; 82]%N.
Proof.
  unfold userMessage.
  destruct (status =? 401);
    [eexists; eexists; split; [reflexivity | cbn; auto]|].
  destruct (status =? 403);
    [eexists; eexists; split; [reflexivity | cbn; auto]|].
  destruct (status =? 404);
    [eexists; eexists; split; [reflexivity | cbn; auto]|].
  destruct (status =? 408);
    eexists; eexists; split; try reflexivity; cbn; auto.
Qed.

Lemma reportsOf_failedRun (e : JsError) (w : World) :
  reportsOf (events (failedRun e w))
  = reportsOf (events w) ++ [EvAlert (failedPrefix ++ userMessage e)].
Proof.
  unfold failedRun. cbn [events emit]. rewrite !reportsOf_app.
  cbn [reportsOf filter]. rewrite app_nil_r. reflexivity.
Qed.

(** X14. What a run of [executeWorkflow] tells the user.  The function
    never throws.  When it returns it has told the user exactly one
    thing: the success screen, the alert that no issue was created, or
    the alert that the execution failed followed by the message of an
    error the function raised itself before its loop (one of its seven
    texts, or the failure to list the repositories of the organization).
    The error that reaches the final handler is thus never an [APIError],
    and none of the texts the handler has for the API statuses is ever
    shown. *)
Theorem executeWorkflow_tells_one_thing :
  forall (env : Env) (fuel : nat) (promptInput : jsstring) (w : World),
    match executeWorkflow env fuel promptInput w with
    | (Thrown _, _) => False
    | (Unfinished, _) => True
    | (Returned _, w') =>
        exists told,
          reportsOf (events w') = reportsOf (events w) ++ [told]
          /\ (told = EvShowSuccess
              \/ told = EvAlert permissionsMessage
              \/ exists m, told = EvAlert (failedPrefix ++ m)
                           /\ workflowFailure m)
          /\ forall message status url,
               told <> EvAlert (failedPrefix
                                ++ userMessage (APIError message status url))
    end.
Proof.
  intros env fuel promptInput w.
  pose proof (sameReports_resolveTargetRepos env promptInput
                (emit (startEntry (appState w)) w)) as Hsame.
  unfold sameReports in Hsame.
  destruct (resolveTargetRepos env promptInput
              (emit (startEntry (appState w)) w))
    as [[targetRepos | e |] w1] eqn:Hres; cbn [snd] in Hsame.
  - rewrite (executeWorkflow_run env fuel promptInput w w1 targetRepos Hres).
    pose proof (processRepositories_results env fuel targetRepos []
                  (emit (processingEntry targetRepos) w1)) as Hloop.
    destruct (processRepositories env fuel targetRepos []
                (emit (processingEntry targetRepos) w1))
      as [[results | e |] w2]; [| contradiction | exact I].
    destruct Hloop as (new & _ & _ & _ & _ & Hrep).
    rewrite reportResults_run. cbn [events].
    rewrite reportsOf_app, reportsOf_completionEvents, Hrep.
    cbn [events emit]. rewrite reportsOf_app. cbn [reportsOf filter].
    rewrite app_nil_r. fold (reportsOf (events w1)). rewrite Hsame.
    cbn [events emit]. rewrite reportsOf_app.
    unfold startEntry at 1. cbn [reportsOf filter]. rewrite app_nil_r.
    fold (reportsOf (events w)).
    destruct (0 <? successCount results).
    + exists EvShowSuccess. split; [reflexivity|]. split; [auto|].
      discriminate.
    + exists (EvAlert permissionsMessage). split; [reflexivity|].
      split; [auto|]. intros message status url H.
      injection H as H. discriminate H.
  - rewrite (executeWorkflow_fails env fuel promptInput w w1 e Hres).
    destruct (resolveTargetRepos_throws env promptInput _ _ _ Hres)
      as (m & -> & Hm).
    exists (EvAlert (failedPrefix ++ m)). split.
    { rewrite reportsOf_failedRun, Hsame. cbn [events emit].
      rewrite reportsOf_app. unfold startEntry at 1.
      cbn [reportsOf filter]. rewrite app_nil_r. reflexivity. }
    split; [eauto|].
    intros message status url H.
    assert (H' : m = userMessage (APIError message status url)).
    { apply (app_inv_head failedPrefix). congruence. }
    clear H. rename H' into H.
    destruct (workflowFailure_head m Hm) as (c & rest & -> & Hc).
    destruct (userMessage_APIError_head message status url)
      as (c' & rest' & Heq & Hc').
    rewrite Heq in H. injection H as -> _.
    cbn [In] in Hc, Hc'.
    repeat (destruct Hc as [<- | Hc];
            [repeat (destruct Hc' as [Hc' | Hc']; [discriminate Hc'|]);
             destruct Hc'|]).
    destruct Hc.
  - unfold executeWorkflow.
    unfold tryCatch at 1. unfold bind at 1. unfold getState at 1.
    unfold bind at 1. unfold Logger.info at 1. unfold tell at 1.
    unfold bind at 1. fold (startEntry (appState w)). rewrite Hres.
    exact I.
Qed.


Lemma preconditionsMet_checks (s : AppState) (promptInput : jsstring) :
  preconditionsMet s promptInput ->
  negb (truthy (useCaseValue s)) = false
  /\ negb (isValidOrgName (JsStr (orgName s))) = false
  /\ negb (isValidToken (JsStr (authToken s))) = false
  /\ negb (truthy (JsStr (trim promptInput))) = false
  /\ authToken s <> [].
Proof.
  intros (Huse & Horg & Htok & Hprompt). unfold useCaseSelected in Huse.
  rewrite Huse, Horg, Htok. apply truthy_JsStr in Hprompt. rewrite Hprompt.
  repeat split. apply isValidToken_nonempty. assumption.
Qed.

(** X16. The targets of a run whose preconditions are met.  The prompt is
    stored, trimmed and sanitized.  With the method [selected], and
    equally with the method [properties], the targets are the selected
    repositories, in order, and no request is sent: the selected
    properties play no part, and an empty selection stops the run.  With
    the method [all] exactly one request is sent, for the first 100
    repositories of the organization, and the targets are the
    repositories of its answer; an empty or failed answer stops the run.
    Any other method stops the run. *)
Theorem resolveTargetRepos_targets :
  forall (env : Env) (promptInput : jsstring) (w : World),
    preconditionsMet (appState w) promptInput ->
    let s := appState w in
    let w0 := withAppState (withPrompt promptInput) w in
    (selectionMethod s = lit "selected" \/ selectionMethod s = lit "properties"
     -> resolveTargetRepos env promptInput w
        = match selectedRepos s with
          | [] =>
              (Thrown (Error (if JsString.eqb (selectionMethod s)
                                              (lit "selected")
                              then lit "Please select at least one repository."
                              else lit "No repositories found to process.")),
               w0)
          | _ :: _ => (Returned (map repoRef (selectedRepos s)), w0)
          end)
    /\ (selectionMethod s = lit "all" ->
        let answer :=
          serveRepos env (events w ++ [fetchingEntry s]) (orgReposRequest s) in
        exists out w',
          resolveTargetRepos env promptInput w = (out, w')
          /\ appState w' = withPrompt promptInput s
          /\ fetchesOf (events w')
             = fetchesOf (events w) ++ [(orgReposRequest s, isOk answer)]
          /\ match answer with
             | HttpOk [] =>
                 out = Thrown (Error (lit "No repositories found to process."))
             | HttpOk repos => out = Returned repos
             | _ => exists cause,
                      out = Thrown (Error (listingFailed
                                           ++ errorMessage cause))
             end)
    /\ (selectionMethod s <> lit "all" ->
        selectionMethod s <> lit "selected" ->
        selectionMethod s <> lit "properties" ->
        resolveTargetRepos env promptInput w
        = (Thrown (Error (lit "Invalid repository selection method.")), w0)).
Proof.
  intros env promptInput w Hmet. cbv zeta.
  destruct (preconditionsMet_checks _ _ Hmet) as (H1 & H2 & H3 & H4 & Htok).
  set (w0 := withAppState (withPrompt promptInput) w).
  split; [|split].
  - intro Hmethod. rewrite resolveTargetRepos_run. cbv zeta.
    rewrite H1, H2, H3, H4. fold w0.
    destruct Hmethod as [Hm | Hm]; rewrite Hm.
    + replace (JsString.eqb (lit "selected") (lit "all")) with false
        by reflexivity.
      rewrite JsString_eqb_refl.
      destruct (selectedRepos (appState w)) as [|r rs]; reflexivity.
    + replace (JsString.eqb (lit "properties") (lit "all")) with false
        by reflexivity.
      replace (JsString.eqb (lit "properties") (lit "selected")) with false
        by reflexivity.
      rewrite JsString_eqb_refl.
      unfold getReposWithCustomProperties, bind, getState, ret.
      change (selectedRepos (appState w0)) with (selectedRepos (appState w)).
      destruct (selectedRepos (appState w)) as [|r rs]; reflexivity.
  - intros Hm. rewrite resolveTargetRepos_run. cbv zeta.
    rewrite H1, H2, H3, H4. fold w0. rewrite Hm.
    rewrite JsString_eqb_refl.
    destruct (getAllOrgRepos_run env w0) as (out & w' & Hrun & Hst & _ & Hyes).
    destruct (Hyes Htok) as [Hfetch Hout]. clear Hyes.
    rewrite Hrun.
    change (appState w0) with (withPrompt promptInput (appState w)) in *.
    change (events (emit (fetchingEntry (withPrompt promptInput (appState w)))
                      w0))
      with (events w ++ [fetchingEntry (appState w)]) in *.
    change (events w0) with (events w) in *.
    change (orgReposRequest (withPrompt promptInput (appState w)))
      with (orgReposRequest (appState w)) in *.
    destruct (serveRepos env (events w ++ [fetchingEntry (appState w)])
                (orgReposRequest (appState w)))
      as [[|r repos] | st txt | | msg].
    + subst out. eexists. eexists. split; [reflexivity|]. auto.
    + subst out. eexists. eexists. split; [reflexivity|]. auto.
    + destruct Hout as (cause & ->). eexists. eexists.
      split; [reflexivity|]. eauto.
    + destruct Hout as (cause & ->). eexists. eexists.
      split; [reflexivity|]. eauto.
    + destruct Hout as (cause & ->). eexists. eexists.
      split; [reflexivity|]. eauto.
  - intros Ha Hs Hp. rewrite resolveTargetRepos_run. cbv zeta.
    rewrite H1, H2, H3, H4. fold w0.
    apply JsString_eqb_neq in Ha, Hs, Hp. rewrite Ha, Hs, Hp. reflexivity.
Qed.

(** ** The workflow: pacing *)

Lemma sameOn_refl (P : Event -> bool) (w : World) : sameOn P w w.
Proof. split; reflexivity. Qed.

Lemma sameOn_trans (P : Event -> bool) (a b c : World) :
  sameOn P a b -> sameOn P b c -> sameOn P a c.
Proof. intros [H1 H2] [H3 H4]. split; congruence. Qed.

Lemma sameOn_emit (P : Event -> bool) (e : Event) (w : World) :
  P e = false -> sameOn P w (emit e w).
Proof.
  intro He. split; [reflexivity|]. cbn [events emit].
  rewrite filter_app. cbn [filter]. rewrite He. apply app_nil_r.
Qed.

Lemma samePace_log (l : LogLevel) (m : jsstring) (e : option JsError)
      (c : list (string * LogValue)) (w : World) :
  sameOn isPaceEvent w (emit (EvLog l m e c) w).
Proof. apply sameOn_emit. reflexivity. Qed.

Lemma samePace_fetch {T} (serve : list Event -> Request -> FetchOutcome T)
      (req : Request) :
  isCreateIssue req = false ->
  keeps (sameOn isPaceEvent) (APIUtils.fetch serve req).
Proof.
  intros Hreq w. unfold APIUtils.fetch.
  assert (H : forall ok, sameOn isPaceEvent w (emit (EvFetch req ok) w)).
  { intro ok. apply sameOn_emit.
    destruct req; try discriminate; reflexivity. }
  destruct (serve (events w) req); apply H.
Qed.

Lemma samePace_findCopilotBot_loop (env : Env) (repoName : jsstring) :
  forall fuel c,
    keeps (sameOn isPaceEvent) (findCopilotBot_loop env fuel repoName c).
Proof.
  induction fuel as [|fuel IH]; intro c; cbn [findCopilotBot_loop].
  - apply (keeps_outOfFuel _ (sameOn_refl isPaceEvent)).
  - apply (keeps_bind _ (sameOn_trans isPaceEvent));
      [apply (keeps_getState _ (sameOn_refl isPaceEvent))|]. intro st.
    apply (keeps_bind _ (sameOn_trans isPaceEvent));
      [apply samePace_fetch; reflexivity|].
    intros [[msgs json | page] | status];
      try apply (keeps_throw _ (sameOn_refl isPaceEvent)).
    destruct (find isCopilot (nodes page));
      [apply (keeps_ret _ (sameOn_refl isPaceEvent))|].
    destruct (pageInfo_hasNextPage page);
      [apply IH | apply (keeps_ret _ (sameOn_refl isPaceEvent))].
Qed.

Lemma samePace_assignCopilotToIssue (env : Env) (fuel : nat)
      (repoName : jsstring) (issueNumber : Z) :
  keeps (sameOn isPaceEvent)
        (assignCopilotToIssue env fuel repoName issueNumber).
Proof.
  unfold assignCopilotToIssue.
  apply (keeps_tryCatch _ (sameOn_trans isPaceEvent)).
  - apply (keeps_bind _ (sameOn_trans isPaceEvent));
      [apply (keeps_getState _ (sameOn_refl isPaceEvent))|]. intro st.
    apply (keeps_bind _ (sameOn_trans isPaceEvent));
      [apply samePace_fetch; reflexivity|].
    intros [issue | status];
      [|apply (keeps_throw _ (sameOn_refl isPaceEvent))].
    apply (keeps_bind _ (sameOn_trans isPaceEvent));
      [apply samePace_findCopilotBot_loop|].
    intros [bot|]; [|apply (keeps_log _ samePace_log)].
    unfold assignCopilotUsingGraphQL.
    apply (keeps_bind _ (sameOn_trans isPaceEvent));
      [apply (keeps_log _ samePace_log)|]. intros _.
    apply (keeps_bind _ (sameOn_trans isPaceEvent));
      [apply samePace_fetch; reflexivity|].
    intros [[msgs json | d] | status];
      first [apply (keeps_throw _ (sameOn_refl isPaceEvent))
            | apply (keeps_ret _ (sameOn_refl isPaceEvent))].
  - intro e. apply (keeps_bind _ (sameOn_trans isPaceEvent));
      [apply (keeps_log _ samePace_log)|]. intros _.
    apply (keeps_throw _ (sameOn_refl isPaceEvent)).
Qed.

Lemma paceOf_emit (e : Event) (w : World) :
  paceOf (events (emit e w))
  = paceOf (events w) ++ (if isPaceEvent e then [e] else []).
Proof.
  cbn [events emit]. unfold paceOf. rewrite filter_app. cbn [filter].
  destruct (isPaceEvent e); reflexivity.
Qed.

Lemma readyToPost_checks (s : AppState) (repoName : jsstring) :
  (readyToPost s repoName ->
   negb (truthy (JsStr repoName))
   || negb (truthy (JsStr (sanitizeString (JsStr repoName)))) = false
   /\ negb (truthy (JsStr (trim (promptContent s)))) = false
   /\ negb (truthy (JsStr (authToken s))) = false)
  /\ (~ readyToPost s repoName ->
      negb (truthy (JsStr repoName))
      || negb (truthy (JsStr (sanitizeString (JsStr repoName)))) = true
      \/ negb (truthy (JsStr (trim (promptContent s)))) = true
      \/ negb (truthy (JsStr (authToken s))) = true).
Proof.
  unfold readyToPost. split.
  - intros (Hname & Hprompt & Htok).
    assert (Hname' : repoName <> [])
      by (intros ->; apply Hname; reflexivity).
    apply truthy_JsStr in Hname, Hname', Hprompt, Htok.
    rewrite Hname, Hname', Hprompt, Htok. auto.
  - intro Hnot.
    destruct (sanitizeString (JsStr repoName)) as [|c t] eqn:Hname;
      [left; apply orb_true_r|].
    destruct (trim (promptContent s)) as [|c' t'] eqn:Hprompt; [auto|].
    destruct (authToken s) as [|c'' t''] eqn:Htok; [auto|].
    exfalso. apply Hnot. repeat split; discriminate.
Qed.

(** One target of the loop: the session is left as it was, and the run
    gains the slot of the target. *)
Lemma createIssueAndAssignCopilot_slot (env : Env) (fuel : nat) (repo : Repo)
      (w : World) :
  exists slot,
    slotOf (appState w) repo slot
    /\ appState (snd (createIssueAndAssignCopilot env fuel (repo_name repo) w))
       = appState w
    /\ paceOf (events (snd (createIssueAndAssignCopilot env fuel
                              (repo_name repo) w)))
       = paceOf (events w) ++ slot.
Proof.
  destruct (readyToPost_checks (appState w) (repo_name repo))
    as [Hready Hnot].
  unfold createIssueAndAssignCopilot, tryCatch, bind, getState, throw, ret,
    Logger.info, Logger.warn, Logger.error, tell, APIUtils.githubAPI, bind,
    getState, throw, APIUtils.secureFetch.
  cbn [appState emit].
  destruct (negb (truthy (JsStr (repo_name repo)))
            || negb (truthy (JsStr (sanitizeString (JsStr (repo_name repo))))))
    eqn:Hname.
  { exists []. split; [|split].
    - left. split; [|reflexivity]. intro H. apply Hready in H.
      destruct H as [H _]. congruence.
    - reflexivity.
    - cbn [snd]. rewrite paceOf_emit. reflexivity. }
  destruct (negb (truthy (JsStr (trim (promptContent (appState w))))))
    eqn:Hprompt.
  { exists []. split; [|split].
    - left. split; [|reflexivity]. intro H. apply Hready in H.
      destruct H as (_ & H & _). congruence.
    - reflexivity.
    - cbn [snd]. rewrite paceOf_emit. reflexivity. }
  destruct (negb (truthy (JsStr (authToken (appState w))))) eqn:Htok.
  { exists []. split; [|split].
    - left. split; [|reflexivity]. intro H. apply Hready in H.
      destruct H as (_ & _ & H). congruence.
    - reflexivity.
    - cbn [snd]. rewrite !paceOf_emit. cbn [isPaceEvent].
      rewrite !app_nil_r. reflexivity. }
  assert (Hyes : readyToPost (appState w) (repo_name repo)).
  { destruct (sanitizeString (JsStr (repo_name repo))) as [|c t] eqn:H1;
      [rewrite orb_true_r in Hname; discriminate|].
    unfold readyToPost. rewrite H1.
    destruct (trim (promptContent (appState w))); [discriminate|].
    destruct (authToken (appState w)); [discriminate|].
    repeat split; discriminate. }
  fold (issueDataOf (appState w)).
  match goal with
  | |- context [serveIssue env ?evs ?req] =>
      destruct (serveIssue env evs req) as [issue | st txt | | msg]
  end; cbn [isOk].
  2-4: eexists; (split; [right; split; [exact Hyes | eexists; reflexivity]|]);
       (split; [reflexivity|]); cbn [snd]; rewrite !paceOf_emit;
       cbn [isPaceEvent]; rewrite !app_nil_r; reflexivity.
  eexists. split; [right; split; [exact Hyes | eexists; reflexivity]|].
  match goal with
  | |- context [assignCopilotToIssue env fuel (repo_name repo) ?n ?w3] =>
      pose proof (samePace_assignCopilotToIssue env fuel (repo_name repo)
                    n w3) as Hassign;
      destruct (assignCopilotToIssue env fuel (repo_name repo) n w3)
        as [[[] | e |] w4]
  end; cbn [snd] in Hassign; destruct Hassign as [Hst Hpace];
    fold (paceOf (events w4)) in Hpace;
    cbn [snd appState emit]; rewrite ?paceOf_emit; cbn [isPaceEvent];
    rewrite ?app_nil_r; rewrite Hst; cbn [appState emit];
    (split; [reflexivity|]); rewrite Hpace;
    change (filter isPaceEvent ?l) with (paceOf l);
    rewrite !paceOf_emit; cbn [isPaceEvent]; rewrite !app_nil_r;
    reflexivity.
Qed.

Lemma paced_cons (slot : list Event) (slots : list (list Event)) :
  paced (slot :: slots)
  = slot ++ match slots with
            | [] => []
            | _ :: _ => EvDelay APP_CONFIG.RATE_LIMIT_DELAY :: paced slots
            end.
Proof. destruct slots; cbn [paced]; [symmetry; apply app_nil_r | reflexivity]. Qed.

(** X17. The pace of the loop of [executeWorkflow].  In a loop that runs
    to its end the targets are served in order, each in its slot: one
    issue-creation request for a target that passes the checks made
    before posting (a name that does not sanitize to nothing, a prompt
    that is not blank, a token), and none for a target that fails them.
    Between two consecutive slots there is exactly one rate-limit delay
    of 1000 ms, and none before the first or after the last.  No other
    issue-creation request is sent and no other delay is taken, and the
    session is as it was. *)
Theorem processRepositories_paces_requests :
  forall (env : Env) (fuel : nat) (targetRepos : list Repo)
         (results out : list WorkflowResult) (w w' : World),
    processRepositories env fuel targetRepos results w = (Returned out, w') ->
    exists slots,
      Forall2 (slotOf (appState w)) targetRepos slots
      /\ paceOf (events w') = paceOf (events w) ++ paced slots
      /\ appState w' = appState w.
Proof.
  intros env fuel targetRepos.
  induction targetRepos as [|repo rest IH]; intros results out w w' Hrun.
  - cbn [processRepositories] in Hrun. unfold ret in Hrun.
    injection Hrun as _ <-. exists []. split; [constructor|].
    split; [symmetry; apply app_nil_r | reflexivity].
  - destruct (createIssueAndAssignCopilot_slot env fuel repo w)
      as (slot & Hslot & Hst & Hpace).
    destruct (createIssueAndAssignCopilot env fuel (repo_name repo) w)
      as [[issue | e |] w1] eqn:Hc; cbn [snd] in Hst, Hpace.
    + rewrite (processRepositories_cons_ok env fuel repo rest results w w1
                 issue Hc) in Hrun.
      apply IH in Hrun. destruct Hrun as (slots & Hall & Hpace' & Hst').
      exists (slot :: slots).
      assert (Hst1 : appState (match rest with
                               | [] => w1
                               | _ :: _ =>
                                   emit (EvDelay APP_CONFIG.RATE_LIMIT_DELAY) w1
                               end) = appState w)
        by (destruct rest; exact Hst).
      rewrite Hst1 in Hall, Hst'.
      split; [constructor; assumption|]. split; [|exact Hst'].
      rewrite Hpace', paced_cons.
      destruct Hall as [|r s' rest' slots' Hr Hall'].
      * rewrite Hpace, !app_nil_r. reflexivity.
      * rewrite paceOf_emit, Hpace. cbn [isPaceEvent].
        rewrite <- !app_assoc. reflexivity.
    + rewrite (processRepositories_cons_fail env fuel repo rest results w w1
                 e Hc) in Hrun.
      apply IH in Hrun. destruct Hrun as (slots & Hall & Hpace' & Hst').
      exists (slot :: slots).
      assert (Hst1 : appState
                       (match rest with
                        | [] =>
                            emit (EvLog ERROR
                                    (lit "Failed to process repository")
                                    (Some e)
                                    [("repo"%string, LStr (repo_name repo))])
                                 w1
                        | _ :: _ =>
                            emit (EvDelay APP_CONFIG.RATE_LIMIT_DELAY)
                              (emit (EvLog ERROR
                                       (lit "Failed to process repository")
                                       (Some e)
                                       [("repo"%string,
                                         LStr (repo_name repo))]) w1)
                        end) = appState w)
        by (destruct rest; exact Hst).
      rewrite Hst1 in Hall, Hst'.
      split; [constructor; assumption|]. split; [|exact Hst'].
      rewrite Hpace', paced_cons.
      destruct Hall as [|r s' rest' slots' Hr Hall'].
      * rewrite paceOf_emit, Hpace. cbn [isPaceEvent].
        rewrite !app_nil_r. reflexivity.
      * rewrite !paceOf_emit, Hpace. cbn [isPaceEvent].
        rewrite app_nil_r, <- !app_assoc. reflexivity.
    + cbn [processRepositories] in Hrun.
      unfold bind at 1 in Hrun. unfold tryCatch at 1 in Hrun.
      unfold bind at 1 in Hrun. rewrite Hc in Hrun. discriminate.
Qed.

(** ** The workflow: one repository *)

(** X18. The checks [createIssueAndAssignCopilot] makes before it posts,
    in their order: a repository name that is empty or sanitizes to
    nothing, then a blank prompt, are refused with status 400, then a
    missing token with status 401.  In each case the error is thrown to
    the loop, nothing is sent and the session is untouched. *)
Theorem createIssueAndAssignCopilot_refuses_before_posting :
  forall (env : Env) (fuel : nat) (repoName : jsstring) (w : World),
    ~ readyToPost (appState w) repoName ->
    exists message status w',
      createIssueAndAssignCopilot env fuel repoName w
      = (Thrown (APIError message status None), w')
      /\ fetchesOf (events w') = fetchesOf (events w)
      /\ appState w' = appState w
      /\ (message, status)
         = (if negb (truthy (JsStr (sanitizeString (JsStr repoName))))
            then (lit "Invalid repository name", 400)
            else if negb (truthy (JsStr (trim (promptContent (appState w)))))
                 then (lit "Prompt content is required", 400)
                 else (lit "Authentication token required", 401)).
Proof.
  intros env fuel repoName w Hnot.
  destruct (readyToPost_checks (appState w) repoName) as [_ Hchk].
  specialize (Hchk Hnot).
  unfold createIssueAndAssignCopilot, tryCatch, bind, getState, throw, ret,
    Logger.info, Logger.warn, Logger.error, tell, APIUtils.githubAPI, bind,
    getState, throw, APIUtils.secureFetch.
  cbn [appState emit].
  assert (Hname : negb (truthy (JsStr repoName))
                  || negb (truthy (JsStr (sanitizeString (JsStr repoName))))
                  = negb (truthy (JsStr (sanitizeString (JsStr repoName))))).
  { destruct repoName; reflexivity. }
  rewrite Hname in *.
  destruct (negb (truthy (JsStr (sanitizeString (JsStr repoName))))).
  { eexists. eexists. eexists. split; [reflexivity|].
    cbn [events emit appState]. rewrite fetchesOf_app. cbn.
    rewrite app_nil_r. auto. }
  destruct (negb (truthy (JsStr (trim (promptContent (appState w)))))).
  { eexists. eexists. eexists. split; [reflexivity|].
    cbn [events emit appState]. rewrite fetchesOf_app. cbn.
    rewrite app_nil_r. auto. }
  destruct Hchk as [H | [H | H]]; try discriminate.
  rewrite H.
  eexists. eexists. eexists. split; [reflexivity|].
  cbn [events emit appState]. rewrite !fetchesOf_app. cbn.
  rewrite !app_nil_r. auto.
Qed.

(** X19. The requests of [assignCopilotToIssue].  It first reads the
    issue back; when that is not answered ok it throws and sends nothing
    more.  When it is, the pages of suggested actors are visited up to
    the bot; without a bot on them the function returns and no mutation
    is sent; with the bot, exactly one mutation follows, and it names the
    node of the issue read back and the id of the bot found; the function
    then returns only if that mutation was answered ok. *)
Theorem assignCopilotToIssue_requests :
  forall (env : Env) (fuel : nat) (repoName : jsstring) (issueNumber : Z)
         (w : World),
    let s := appState w in
    let req := issueRequest s repoName issueNumber in
    (isOk (serveIssue env (events w) req) = false ->
     exists e w',
       assignCopilotToIssue env fuel repoName issueNumber w = (Thrown e, w')
       /\ fetchesOf (events w') = fetchesOf (events w) ++ [(req, false)])
    /\ (forall issue ps,
          serveIssue env (events w) req = HttpOk issue ->
          servesPages env (orgName s) repoName
                      (events w ++ [EvFetch req true]) None ps ->
          List.length ps <= fuel ->
          match find isCopilot (flat_map nodes ps) with
          | None =>
              exists w',
                assignCopilotToIssue env fuel repoName issueNumber w
                = (Returned tt, w')
                /\ fetchesOf (events w')
                   = fetchesOf (events w)
                     ++ (req, true) :: actorRequests s repoName ps
          | Some bot =>
              exists out w' ok,
                assignCopilotToIssue env fuel repoName issueNumber w
                = (out, w')
                /\ out <> Unfinished
                /\ (out = Returned tt -> ok = true)
                /\ fetchesOf (events w')
                   = fetchesOf (events w)
                     ++ (req, true) :: actorRequests s repoName ps
                     ++ [(assignRequest issue bot, ok)]
          end).
Proof.
  intros env fuel repoName issueNumber w. cbv zeta.
  unfold issueRequest. split.
  - intro Hfail.
    unfold assignCopilotToIssue, tryCatch, bind, getState, APIUtils.fetch,
      throw, tell.
    destruct (serveIssue env (events w)
                (ReqGetIssue (orgName (appState w)) repoName issueNumber))
      as [issue | st txt | | msg]; [discriminate| | |];
      eexists; eexists; (split; [reflexivity|]);
      cbn [events emit isOk]; rewrite !fetchesOf_app; cbn;
      rewrite ?app_nil_r; reflexivity.
  - intros issue ps Hissue Hserve Hfuel.
    set (req := ReqGetIssue (orgName (appState w)) repoName issueNumber) in *.
    set (w1 := emit (EvFetch req true) w).
    destruct (findCopilotBot_loop_pages env repoName ps fuel None w1
                Hserve Hfuel) as (w2 & Hfind & Hfetches).
    assert (Hfetches' : fetchesOf (events w2)
                        = fetchesOf (events w)
                          ++ (req, true)
                             :: actorRequests (appState w) repoName ps).
    { rewrite Hfetches. unfold w1. cbn [events emit appState].
      rewrite fetchesOf_app. cbn [fetchesOf flat_map app].
      rewrite <- app_assoc. reflexivity. }
    assert (Hrun : assignCopilotToIssue env fuel repoName issueNumber w
                   = tryCatch
                       (match find isCopilot (flat_map nodes ps) with
                        | None =>
                            tell (EvLog WARN
                                    (lit "Copilot bot not found in suggested actors for "
                                     ++ repoName) None [])
                        | Some bot =>
                            assignCopilotUsingGraphQL env
                              (issue_node_id issue) (actor_id bot)
                        end)
                       (fun error =>
                          tell (EvLog ERROR
                                  (lit "Error assigning Copilot to issue in "
                                   ++ repoName) (Some error) []) ;;
                          throw error) w2).
    { unfold assignCopilotToIssue, findCopilotBot, tryCatch, bind, getState,
        APIUtils.fetch.
      fold req. rewrite Hissue. cbn [isOk]. fold w1.
      rewrite Hfind. reflexivity. }
    rewrite Hrun. unfold tryCatch.
    destruct (find isCopilot (flat_map nodes ps)) as [bot|].
    + unfold assignCopilotUsingGraphQL, bind, tell, APIUtils.fetch, throw,
        ret.
      cbn [events emit].
      match goal with
      | |- context [serveMutation env ?evs ?r] =>
          destruct (serveMutation env evs r) as [[msgs json | []] | st txt | | msg]
      end; cbn [isOk];
        eexists; eexists; eexists;
        (split; [reflexivity|]);
        (split; [discriminate|]);
        (split; [try discriminate; reflexivity|]);
        cbn [events emit]; rewrite !fetchesOf_app; cbn [fetchesOf flat_map app];
        rewrite ?app_nil_r; fold (fetchesOf (events w2)); rewrite Hfetches';
        rewrite <- ?app_assoc; reflexivity.
    + unfold tell. eexists. split; [reflexivity|].
      cbn [events emit]. rewrite fetchesOf_app. cbn [fetchesOf flat_map app].
      rewrite app_nil_r. exact Hfetches'.
Qed.

(** ** The catalog loaders *)

Lemma sameAlerts_refl (w : World) : sameAlerts w w.
Proof. reflexivity. Qed.

Lemma sameAlerts_trans (a b c : World) :
  sameAlerts a b -> sameAlerts b c -> sameAlerts a c.
Proof. unfold sameAlerts. congruence. Qed.

Lemma sameAlerts_emit (e : Event) (w : World) :
  match e with EvAlert _ => False | _ => True end ->
  sameAlerts w (emit e w).
Proof.
  intro He. unfold sameAlerts. cbn [events emit]. rewrite alertsOf_app.
  destruct e; try contradiction; apply app_nil_r.
Qed.

Lemma sameAlerts_fetch (r : Request) (ok : bool) (w : World) :
  sameAlerts w (emit (EvFetch r ok) w).
Proof. apply sameAlerts_emit. exact I. Qed.

Lemma sameAlerts_log (l : LogLevel) (m : jsstring) (e : option JsError)
      (c : list (string * LogValue)) (w : World) :
  sameAlerts w (emit (EvLog l m e c) w).
Proof. apply sameAlerts_emit. exact I. Qed.

Lemma sameAlerts_delay (ms : Z) : keeps sameAlerts (delay ms).
Proof. intro w. apply sameAlerts_emit. exact I. Qed.

Lemma sameAlerts_loadAllRepositories_loop (env : Env) :
  forall fuel loaded page,
    keeps sameAlerts (loadAllRepositories_loop env fuel loaded page).
Proof.
  induction fuel as [|fuel IH]; intros loaded page;
    cbn [loadAllRepositories_loop];
    (destruct (negb (List.length loaded <? APP_CONFIG.MAX_ITEMS));
     [apply (keeps_ret _ sameAlerts_refl)|]).
  - apply (keeps_outOfFuel _ sameAlerts_refl).
  - apply (keeps_bind _ sameAlerts_trans).
    + apply (keeps_tryCatch _ sameAlerts_trans).
      * apply (keeps_bind _ sameAlerts_trans);
          [apply (keeps_getState _ sameAlerts_refl)|]. intro st.
        apply (keeps_bind _ sameAlerts_trans);
          [apply (keeps_githubAPI _ sameAlerts_refl sameAlerts_trans
                    sameAlerts_fetch)|].
        intro repos.
        destruct (List.length repos =? 0);
          [apply (keeps_ret _ sameAlerts_refl)|].
        cbv zeta.
        destruct (List.length repos <? perPage);
          [apply (keeps_ret _ sameAlerts_refl)|].
        apply (keeps_bind _ sameAlerts_trans);
          [|intro; apply (keeps_ret _ sameAlerts_refl)].
        destruct (List.length (loaded ++ repos) <? APP_CONFIG.MAX_ITEMS);
          [apply sameAlerts_delay | apply (keeps_ret _ sameAlerts_refl)].
      * intro e. apply (keeps_bind _ sameAlerts_trans);
          [apply (keeps_warn _ sameAlerts_log)|]. intros _.
        apply (keeps_ret _ sameAlerts_refl).
    + intros [[l p] | [l p]];
        [apply (keeps_ret _ sameAlerts_refl) | apply IH].
Qed.

(** X20. Neither catalog loader ever shows an alert, and both always
    return: a failure is dealt with before it can reach the handler that
    alerts.  [loadCustomProperties] stores the first 5000 entries of the
    schema GitHub answered with and, when there is no token or the
    request fails, the five built-in sample properties instead. *)
Theorem catalog_loaders_never_alert :
  forall (env : Env) (w : World),
    (exists w',
        loadRepositories env w = (Returned tt, w')
        /\ alertsOf (events w') = alertsOf (events w))
    /\ (exists w',
          loadCustomProperties env w = (Returned tt, w')
          /\ alertsOf (events w') = alertsOf (events w)
          /\ allProperties (appState w')
             = (if negb (truthy (JsStr (authToken (appState w))))
                then getMockCustomProperties
                else match serveProperties env
                             (events w ++ [loadingEntry (appState w)])
                             (schemaRequest (appState w)) with
                     | HttpOk properties =>
                         firstn APP_CONFIG.MAX_ITEMS properties
                     | _ => getMockCustomProperties
                     end)
          /\ List.length getMockCustomProperties = 5).
Proof.
  intros env w. split.
  - destruct (loadRepositories_runs env w) as (repos & w1 & w' & Hload & _).
    pose proof (sameAlerts_loadAllRepositories_loop env
                  (S APP_CONFIG.MAX_ITEMS) [] 1
                  (emit (EvLog INFO (lit "Starting repository loading") None
                           [("org"%string, LStr (orgName (appState w)))]) w))
      as Hquiet.
    fold (loadAllRepositories env) in Hquiet. rewrite Hload in Hquiet.
    cbn [snd] in Hquiet. unfold sameAlerts in Hquiet.
    cbn [events emit] in Hquiet. rewrite alertsOf_app in Hquiet.
    cbn in Hquiet. rewrite app_nil_r in Hquiet.
    unfold loadRepositories, tryCatch, bind, getState, Logger.info, tell,
      modifyState.
    rewrite Hload. eexists. split; [reflexivity|].
    cbn [events emit withAppState]. rewrite alertsOf_app. cbn.
    rewrite app_nil_r. exact Hquiet.
  - unfold loadCustomProperties, tryCatch, bind, getState, Logger.info,
      Logger.warn, tell, APIUtils.githubAPI, bind, getState,
      APIUtils.secureFetch, throw, modifyState, ret.
    cbn [appState emit events].
    fold (loadingEntry (appState w)). fold (schemaRequest (appState w)).
    destruct (negb (truthy (JsStr (authToken (appState w))))).
    + eexists. split; [reflexivity|].
      cbn [events emit withAppState appState].
      rewrite !alertsOf_app. cbn. rewrite !app_nil_r. auto.
    + destruct (serveProperties env _ _); (eexists; split; [reflexivity|]);
        cbn [events emit withAppState appState];
        rewrite !alertsOf_app; cbn; rewrite !app_nil_r; auto.
Qed.

(* ================================================================== *)
(** * Further examples *)
(* ================================================================== *)

Lemma changePage_witness :
  pageInvariant Sample.view
  /\ pageInvariant (changePage 1 Sample.view)
  /\ currentPage (changePage 1 Sample.view) = 2
  /\ changePage (-1) Sample.view = Sample.view.
Proof.
  assert (H : pageInvariant Sample.view) by (vm_compute; lia).
  destruct (changePage_stays_in_range nat 1 Sample.view H)
    as (Hinv & _).
  split; [exact H|]. split; [exact Hinv|]. split; reflexivity.
Defined.

Lemma visible_pages_witness :
  viewRecomputed Sample.view
  /\ visibleItems (set_currentPage 1 Sample.view)
     ++ visibleItems (set_currentPage 2 Sample.view)
     ++ visibleItems (set_currentPage 3 Sample.view)
     = [10; 20; 30; 40; 50]
  /\ visibleItems (set_currentPage 3 Sample.view) = [50].
Proof.
  assert (H : viewRecomputed Sample.view).
  { unfold viewRecomputed. vm_compute. repeat split; lia. }
  destruct (visible_pages_partition_the_view nat Sample.view H)
    as (Hcover & _).
  split; [exact H|]. split; [exact Hcover | reflexivity].
Defined.

Lemma toggleRepoSelection_witness :
  NoDup (selectedRepos Demo.session)
  /\ selectedRepos (toggleRepoSelection (lit "R2") Demo.session)
     = [lit "R1"; lit "R3"]
  /\ ~ In (lit "R2")
         (selectedRepos (toggleRepoSelection (lit "R2") Demo.session))
  /\ NoDup (selectedRepos (toggleRepoSelection (lit "R4") Demo.session)).
Proof.
  assert (H : NoDup (selectedRepos Demo.session)).
  { vm_compute. repeat constructor; cbn; intuition discriminate. }
  destruct (toggleRepoSelection_flips_membership (lit "R2") Demo.session H)
    as (_ & Hflip & _).
  destruct (toggleRepoSelection_flips_membership (lit "R4") Demo.session H)
    as (Hnd & _).
  split; [exact H|]. split; [reflexivity|]. split; [|exact Hnd].
  intro Hin. apply Hflip in Hin. apply Hin. vm_compute. auto.
Defined.

Lemma removeSelection_witness :
  selectedRepos (removeRepoSelection (lit "R1") Demo.session)
  = [lit "R2"; lit "R3"]
  /\ ~ In (lit "R1")
         (selectedRepos (removeRepoSelection (lit "R1") Demo.session))
  /\ removePropertySelection (lit "team") Demo.session = Demo.session.
Proof.
  assert (Hr : NoDup (selectedRepos Demo.session)).
  { vm_compute. repeat constructor; cbn; intuition discriminate. }
  assert (Hp : NoDup (propertyNames (selectedProperties Demo.session)))
    by constructor.
  destruct (removeSelection_drops_the_name_only (lit "R1") Demo.session Hr Hp)
    as ((Hgone & _) & _).
  destruct (removeSelection_drops_the_name_only (lit "team") Demo.session
              Hr Hp) as (_ & (_ & _ & _ & Hnoop)).
  split; [reflexivity|]. split; [exact Hgone|].
  apply Hnoop. intros [].
Defined.

Lemma togglePropertySelection_witness :
  propertyNames
    (selectedProperties (togglePropertySelection (lit "team") Demo.session))
  = [lit "team"]
  /\ selectedValue (lit "team")
       (selectedProperties (togglePropertySelection (lit "team") Demo.session))
     = Some []
  /\ selectedProperties
       (togglePropertySelection (lit "team")
          (togglePropertySelection (lit "team") Demo.session)) = [].
Proof.
  assert (Hp : NoDup (propertyNames (selectedProperties Demo.session)))
    by constructor.
  destruct (togglePropertySelection_flips_membership (lit "team") Demo.session
              Hp) as (_ & _ & Hvalue & _).
  split; [reflexivity|]. split; [|reflexivity].
  apply Hvalue. intros [].
Defined.

Lemma canNavigateToStep_witness :
  truthy (canNavigateToStep Demo.session 4) = true
  /\ truthy (canNavigateToStep Demo.session 3) = true
  /\ truthy (canNavigateToStep Demo.session 2) = true.
Proof.
  assert (H : truthy (canNavigateToStep Demo.session 4) = true)
    by (vm_compute; reflexivity).
  destruct (canNavigateToStep_downward_closed Demo.session 4 H)
    as [_ Hdown].
  split; [exact H|]. split; apply Hdown; lia.
Defined.

Lemma getCached_witness :
  exists w',
    getCached Demo.env (lit "search_acme_zz") (ret [Demo.repo "zz-docs"])
      60000 Demo.world
    = (Returned [Demo.repo "zz-docs"], w')
    /\ getCached Demo.env (lit "search_acme_zz") (throw (Error (lit "down")))
         60000 w'
       = (Returned [Demo.repo "zz-docs"],
          emit (EvLog INFO (lit "Using cached data") None
                  [("key"%string, LStr (lit "search_acme_zz"))]) w').
Proof.
  assert (H : forall cached,
             cacheGet (lit "search_acme_zz") (cache Demo.world) = Some cached ->
             (60000 <= now Demo.env (events Demo.world)
                       - cache_timestamp cached)%Z)
    by (intros cached Hget; discriminate Hget).
  pose proof (getCached_reuses_what_it_stored Demo.env (lit "search_acme_zz")
                (ret [Demo.repo "zz-docs"]) 60000 Demo.world H) as Hx.
  unfold ret in Hx at 1. cbv beta iota in Hx.
  destruct Hx as (w' & Hrun & _ & _ & Hlater).
  exists w'. split; [exact Hrun|].
  apply Hlater; [reflexivity | vm_compute; reflexivity].
Defined.

Lemma filterRepos_repeated_search_witness :
  exists w1 w2,
    filterRepos Demo.env asciiToLowerCase (lit "ZZ") Demo.world
    = (Returned tt, w1)
    /\ filterRepos Demo.env asciiToLowerCase (lit "ZZ") w1 = (Returned tt, w2)
    /\ fetchesOf (events w2)
       = [(ReqSearchRepositories (lit "zz") (lit "acme") 50, true)]
    /\ appState w2 = appState w1.
Proof.
  destruct (filterRepos_repeated_search_uses_cache Demo.env asciiToLowerCase
              (lit "ZZ") Demo.world
              (Some [Demo.repo "zz-tools"; Demo.repo "zz-tools";
                     Demo.repo "zz-docs"]))
    as (w1 & Hrun & Hfetch & _ & Hlater).
  - vm_compute. lia.
  - vm_compute. lia.
  - reflexivity.
  - discriminate.
  - reflexivity.
  - destruct (Hlater w1 eq_refl eq_refl) as (w2 & Hrun2 & Hfetch2 & Hst).
    + vm_compute. reflexivity.
    + exists w1, w2. split; [exact Hrun|]. split; [exact Hrun2|].
      split; [|exact Hst]. rewrite Hfetch2, Hfetch. reflexivity.
Defined.


Lemma resolveTargetRepos_witness :
  preconditionsMet (appState Demo.world) (lit "Add tests")
  /\ resolveTargetRepos Demo.env (lit "Add tests") Demo.world
     = (Returned Sample.targets, Sample.ready).
Proof.
  assert (H : preconditionsMet (appState Demo.world) (lit "Add tests")).
  { unfold preconditionsMet. repeat split; try (vm_compute; reflexivity).
    vm_compute. discriminate. }
  destruct (resolveTargetRepos_targets Demo.env (lit "Add tests") Demo.world H)
    as (Hselected & _).
  split; [exact H|]. apply Hselected. left. reflexivity.
Defined.

Lemma processRepositories_sample_run :
  exists out w',
    processRepositories Demo.env 5 Sample.targets [] Sample.ready
    = (Returned out, w')
    /\ map res_success out = [true; false; true]
    /\ map (fun e => match e with
                     | EvFetch (ReqCreateIssue _ repo _) ok => inl (repo, ok)
                     | EvDelay ms => inr ms
                     | _ => inr 0%Z
                     end) (paceOf (events w'))
       = [inl (lit "R1", true); inr 1000%Z; inl (lit "R2", false);
          inr 1000%Z; inl (lit "R3", true)].
Proof.
  exists (match fst (processRepositories Demo.env 5 Sample.targets []
                       Sample.ready) with
          | Returned o => o
          | _ => []
          end),
         (snd (processRepositories Demo.env 5 Sample.targets [] Sample.ready)).
  split; [|split]; vm_compute; reflexivity.
Qed.

Lemma processRepositories_pace_witness :
  exists out w' slots,
    processRepositories Demo.env 5 Sample.targets [] Sample.ready
    = (Returned out, w')
    /\ Forall2 (slotOf (appState Sample.ready)) Sample.targets slots
    /\ paceOf (events w') = paceOf (events Sample.ready) ++ paced slots.
Proof.
  destruct processRepositories_sample_run as (out & w' & Hrun & _).
  destruct (processRepositories_paces_requests Demo.env 5 Sample.targets []
              out Sample.ready w' Hrun) as (slots & Hslots & Hpace & _).
  exists out, w', slots. split; [exact Hrun|]. split; assumption.
Defined.

Lemma createIssueAndAssignCopilot_refusal_witness :
  ~ readyToPost (appState Demo.world) (lit "R1")
  /\ exists w',
       createIssueAndAssignCopilot Demo.env 5 (lit "R1") Demo.world
       = (Thrown (APIError (lit "Prompt content is required") 400 None), w')
       /\ fetchesOf (events w') = [].
Proof.
  assert (H : ~ readyToPost (appState Demo.world) (lit "R1")).
  { intros (_ & Hprompt & _). apply Hprompt. reflexivity. }
  split; [exact H|].
  destruct (createIssueAndAssignCopilot_refuses_before_posting Demo.env 5
              (lit "R1") Demo.world H)
    as (message & status & w' & Hrun & Hfetch & _ & Hwhat).
  vm_compute in Hwhat. injection Hwhat as -> ->.
  exists w'. split; [exact Hrun | exact Hfetch].
Defined.
